(** * ARVE: radial velocities from cross-correlation, and the velocity
      power spectral density

    A shallow embedding of [arve/data.py] (class [Data], method
    [compute_vrad_ccf]), [arve/star/compute_vpsd.py] and
    [arve/star/plot_vpsd_components.py].

    Numbers.  The Python code works on [numpy.float64].  The embedding
    idealises them as real numbers ([R]): rounding, [inf] and [nan] are not
    represented, except where the source itself stores a [nan] on purpose
    (the empty bins of [compute_vpsd]), which is modelled by [option R].
    Division is the total division of [R]: where float64 would produce
    [inf] or [nan] (a zero denominator, the logarithm of a non-positive
    number, a fractional power of a negative number) the model has no
    counterpart, and the statements that depend on such a value carry the
    hypothesis that excludes it.

    One rounding decides what the program returns and is not idealised:
    the edges of the bins of [compute_vpsd] are [10 ** log10 f], which in
    float64 need not be [f].  There the float64 logarithm and power of ten
    are parameters of the model ([Star.freq_bin]).

    Failures.  Python exceptions are modelled by the type [exn] and code that
    may raise returns a [result]. *)

From Stdlib Require Import String Ascii.
From Stdlib Require Import Reals List ZArith Lra Lia Bool Permutation Sorted.
Import ListNotations.
Open Scope R_scope.

(* ================================================================== *)
(** * Python: exceptions and sequencing *)

Module Py.

(** The exception classes the modelled code can raise.  [DomainError] is the
    failure the specification gives to the Doppler shift of an empty array;
    [OptimizeError] stands for whatever [scipy.optimize.curve_fit] raises. *)
Inductive exn : Type :=
| KeyError
| ValueError
| TypeError
| IndexError
| NameError
| DomainError
| OptimizeError.

Inductive result (A : Type) : Type :=
| Ok (a : A)
| Raise (e : exn).

Arguments Ok {A} a.
Arguments Raise {A} e.

Definition bind {A B : Type} (m : result A) (k : A -> result B) : result B :=
  match m with
  | Ok a => k a
  | Raise e => Raise e
  end.

Definition is_ok {A : Type} (m : result A) : bool :=
  match m with Ok _ => true | Raise _ => false end.

(** [mapM f l]: a [for] loop that stops at the first exception. *)
Fixpoint mapM {A B : Type} (f : A -> result B) (l : list A) : result (list B) :=
  match l with
  | [] => Ok []
  | x :: t =>
      match f x with
      | Raise e => Raise e
      | Ok y =>
          match mapM f t with
          | Raise e => Raise e
          | Ok ys => Ok (y :: ys)
          end
      end
  end.

End Py.

Import Py.

Notation "x <- m ;; k" := (Py.bind m (fun x => k))
  (at level 61, m at next level, right associativity).
Notation "' p <- m ;; k" := (Py.bind m (fun x => match x with p => k end))
  (at level 61, p pattern, m at next level, right associativity).

(* ================================================================== *)
(** * The parts of numpy and of the Python builtins the code uses *)

Module Np.

Definition Rltb (x y : R) : bool := if Rlt_dec x y then true else false.

(** [np.sum]: accumulation from the left. *)
Definition sum (a : list R) : R := fold_left Rplus a 0.

(** Elementwise binary operation on two arrays of the same length. *)
Fixpoint map2 {A B C : Type} (f : A -> B -> C) (a : list A) (b : list B) : list C :=
  match a, b with
  | x :: a', y :: b' => f x y :: map2 f a' b'
  | _, _ => []
  end.

(** [a[k]] for an integer [k]: negative indices count from the end, an index
    outside [-len, len) raises [IndexError]. *)
Definition get (a : list R) (k : Z) : result R :=
  let n := Z.of_nat (length a) in
  if ((0 <=? k) && (k <? n))%Z then Ok (nth (Z.to_nat k) a 0)
  else if ((- n <=? k) && (k <? 0))%Z then Ok (nth (Z.to_nat (k + n)) a 0)
  else Raise IndexError.

(** [a[ks]] for an integer index array [ks]. *)
Definition take (a : list R) (ks : list Z) : result (list R) :=
  mapM (get a) ks.

(** [m[i]] for a two-dimensional array and a loop index [i]. *)
Definition row (m : list (list R)) (i : nat) : result (list R) :=
  match nth_error m i with
  | Some r => Ok r
  | None => Raise IndexError
  end.

(** [a[idx]] for a boolean array [idx]: the lengths must agree. *)
Fixpoint select {A : Type} (a : list A) (idx : list bool) : list A :=
  match a, idx with
  | x :: a', b :: idx' => if b then x :: select a' idx' else select a' idx'
  | _, _ => []
  end.

Definition bool_index {A : Type} (a : list A) (idx : list bool) : result (list A) :=
  if Nat.eqb (length a) (length idx) then Ok (select a idx) else Raise IndexError.

(** [np.max], [np.min] and the builtins [max], [min] on a one-dimensional
    array: [ValueError] on an empty one. *)
Definition max (a : list R) : result R :=
  match a with
  | [] => Raise ValueError
  | x :: t => Ok (fold_left Rmax t x)
  end.

Definition min (a : list R) : result R :=
  match a with
  | [] => Raise ValueError
  | x :: t => Ok (fold_left Rmin t x)
  end.

(** [np.argmin]: the index of the first occurrence of the minimum. *)
Fixpoint argmin_from (best : R) (besti i : nat) (a : list R) : nat :=
  match a with
  | [] => besti
  | x :: t =>
      if Rlt_dec x best then argmin_from x i (S i) t
      else argmin_from best besti (S i) t
  end.

Definition argmin (a : list R) : result nat :=
  match a with
  | [] => Raise ValueError
  | x :: t => Ok (argmin_from x 0%nat 1%nat t)
  end.

(** [np.where(m)[0]]: the indices at which the boolean array is true. *)
Fixpoint where_from (i : nat) (m : list bool) : list nat :=
  match m with
  | [] => []
  | b :: t => if b then i :: where_from (S i) t else where_from (S i) t
  end.

Definition where_true (m : list bool) : list nat := where_from 0 m.

(** [idxs[0]] on an index array. *)
Definition first (idxs : list nat) : result nat :=
  match idxs with
  | [] => Raise IndexError
  | k :: _ => Ok k
  end.

(** [vrads[k]] for a non-negative integer [k]. *)
Definition at_nat (a : list R) (k : nat) : result R :=
  match nth_error a k with
  | Some x => Ok x
  | None => Raise IndexError
  end.

(** [np.searchsorted(a, x, side="right")] on a sorted array [a]: the index
    [i] with [a[i-1] <= x < a[i]], that is the number of leading elements
    that are [<= x]. *)
Fixpoint searchsorted_right (a : list R) (x : R) : nat :=
  match a with
  | [] => 0%nat
  | y :: t => if Rle_dec y x then S (searchsorted_right t x) else 0%nat
  end.

(** [np.gradient(a)] with unit spacing: one-sided differences at the two
    ends, central differences inside; fewer than two elements raise
    [ValueError]. *)
Definition gradient_at (a : list R) (j : nat) : R :=
  let n := length a in
  if Nat.eqb j 0 then nth 1 a 0 - nth 0 a 0
  else if Nat.eqb j (n - 1) then nth (n - 1) a 0 - nth (n - 2) a 0
  else (nth (j + 1) a 0 - nth (j - 1) a 0) / 2.

Definition gradient (a : list R) : result (list R) :=
  if Nat.ltb (length a) 2 then Raise ValueError
  else Ok (map (gradient_at a) (seq 0 (length a))).

(** [np.linspace(start, stop, num)], [num >= 2], end point included: the
    samples [start + i * step] with the last one overwritten by [stop]. *)
Definition linspace (start stop : R) (num : nat) : list R :=
  let step := (stop - start) / INR (num - 1) in
  map (fun i => INR i * step + start) (seq 0 (num - 1)) ++ [stop].

(** [np.log10] on a positive number. *)
Definition log10 (x : R) : R := ln x / ln 10.

(** [y] is a whole number. *)
Definition is_integer (y : R) : Prop := y = IZR (Int_part y).

(** [x ** y] on float64 numbers: [1] when [y] is zero, [exp (y * ln x)] for
    a positive base, [0] for the base zero and a positive exponent, and for
    a negative base the integer power when [y] is a whole number.  In the
    two remaining cases float64 has no number to give, [inf] for the base
    zero with a negative exponent and [nan] for a negative base with a
    fractional exponent: [power_real] excludes them, and the value of
    [power] means nothing there. *)
Definition power (x y : R) : R :=
  if Req_dec_T y 0 then 1
  else if Rlt_dec 0 x then Rpower x y
  else if Req_dec_T x 0 then 0
  else if Req_dec_T y (IZR (Int_part y)) then powerRZ x (Int_part y)
  else 0.

Definition power_real (x y : R) : Prop :=
  y = 0 \/ 0 < x \/ (x = 0 /\ 0 < y) \/ (x < 0 /\ is_integer y).

(** [np.mean] of a non-empty array. *)
Definition mean (a : list R) : R := sum a / INR (length a).

(** [np.delete(a, idxs)]: the array without the entries at [idxs]. *)
Definition delete {A : Type} (a : list A) (idxs : list nat) : list A :=
  map snd
      (filter (fun p => negb (existsb (Nat.eqb (fst p)) idxs))
              (combine (seq 0 (length a)) a)).

(** Truth value of an array, as [bool(a)] computes it on the flattened
    elements: an array with more than one element raises [ValueError], one
    element is true when it is non-zero, and an empty array is false (recent
    numpy versions raise [ValueError] there instead; see [Data.read_spec],
    where both behaviours lead to the same exception). *)
Definition truth (flat : list R) : result bool :=
  match flat with
  | [] => Ok false
  | [x] => Ok (if Req_dec_T x 0 then false else true)
  | _ => Raise ValueError
  end.

(** Smallest integer that is not below [x]. *)
Definition ceil (x : R) : Z := (- Int_part (- x))%Z.

(** [np.arange(start, stop, step)] on floats, [step <> 0]:
    [ceil((stop - start) / step)] samples [start + i * step] (none when
    that number is not positive). *)
Definition arange (start stop step : R) : list R :=
  map (fun i => start + INR i * step)
      (seq 0 (Z.to_nat (ceil ((stop - start) / step)))).

End Np.

(* ================================================================== *)
(** * [arve/data.py]: class [Data] *)

Module Data.

(** Speed of light in km/s. *)
Definition c_light : R := 299792.458.

(** Modelled from the spec: [arve.functions.doppler_shift] is called by
    [compute_vrad_ccf] but is not among the sources.  The specification
    (section 4.1) gives it as the elementwise [wavelength * (1 + v / c)],
    [v] in km/s and [c] the speed of light in km/s, failing with
    [DomainError] on an empty wavelength array. *)
Definition doppler_shift (wave : list R) (v : R) : result (list R) :=
  match wave with
  | [] => Raise DomainError
  | _ :: _ => Ok (map (fun x => x * (1 + v / c_light)) wave)
  end.

(** The dictionary [self.spec].  [Data.__init__] sets it to [{}] and
    [add_spec] replaces it by a dictionary holding every key, so the state is
    either the empty dictionary ([None] below) or a full record.  [time] and
    [wave] are one-dimensional arrays, [flux_val] and [flux_err] hold one row
    per epoch; any of them can be [None]. *)
Record spec_dict : Type := {
  time : option (list R);
  wave : option (list R);
  flux_val : option (list (list R));
  flux_err : option (list (list R));
  time_unit : option string;
  wave_unit : option string;
  flux_unit : option string
}.

(** [add_spec] (lines 26-56). *)
Definition add_spec (time wave : option (list R))
    (flux_val flux_err : option (list (list R)))
    (time_unit wave_unit flux_unit : option string) : option spec_dict :=
  Some {| time := time; wave := wave; flux_val := flux_val;
          flux_err := flux_err; time_unit := time_unit;
          wave_unit := wave_unit; flux_unit := flux_unit |}.

(** Truth value of a dictionary entry: [None] is false. *)
Definition truth1 (v : option (list R)) : result bool :=
  match v with
  | None => Ok false
  | Some a => Np.truth a
  end.

Definition truth2 (v : option (list (list R))) : result bool :=
  match v with
  | None => Ok false
  | Some m => Np.truth (concat m)
  end.

(** [x and y]: [y] is evaluated only when [x] is true. *)
Definition and_then (x : result bool) (y : result bool) : result bool :=
  b <- x ;; if b then y else Ok false.

(** Lines 99-119: the four arrays are read from [self.spec] (a missing key
    raises [KeyError]), the test [not (time and wave and flux_val and
    flux_err)] raises [ValueError], and the [isinstance] checks raise
    [TypeError] (they cannot fail on the arrays of [spec_dict]). *)
Definition read_spec (spec : option spec_dict)
  : result (list R * list R * list (list R) * list (list R) * option string) :=
  match spec with
  | None => Raise KeyError
  | Some d =>
      ok <- and_then (truth1 (time d))
              (and_then (truth1 (wave d))
                 (and_then (truth2 (flux_val d)) (truth2 (flux_err d)))) ;;
      if negb ok then Raise ValueError
      else
        match time d, wave d, flux_val d, flux_err d with
        | Some t, Some wv, Some fv, Some fe => Ok (t, wv, fv, fe, time_unit d)
        | _, _, _, _ => Raise TypeError
        end
  end.








(** [mask.endswith(suffix)]. *)
Definition endswith (s suffix : string) : bool :=
  let n := String.length s in
  let m := String.length suffix in
  Nat.leb m n && String.eqb (substring (n - m) m s) suffix.

(** [mask.split("_")[0]]: the part before the first underscore. *)
Fixpoint before_underscore (s : string) : string :=
  match s with
  | EmptyString => EmptyString
  | String c rest =>
      if Ascii.eqb c "_"%char then EmptyString else String c (before_underscore rest)
  end.

Section MaskChoice.

(** [arve.functions.sptype_to_num]: a collaborator that is not among the
    sources; it turns a spectral type into a number. *)
Variable sptype_to_num : string -> R.

(** Lines 122-144: the mask file chosen when no path is given, among the
    names [listing] that [os.listdir] returns, for a star of spectral type
    [sptype]. *)
Definition closest_mask (listing : list string) (sptype : string) : result string :=
  let masks := filter (fun mask => endswith mask ".csv") listing in
  let sptype_masks := map before_underscore masks in
  let sptype_num := sptype_to_num sptype in
  let sptype_num_masks := map sptype_to_num sptype_masks in
  idx_mask <- Np.argmin (map (fun x => Rabs (sptype_num - x)) sptype_num_masks) ;;
  Ok (nth idx_mask masks EmptyString).

End MaskChoice.

(** Line 168: the velocity grid of [vgrid = [start, stop, step]], with half
    a step added to the stop. *)
Definition velocity_grid (vgrid : list R) : result (list R) :=
  start <- Np.at_nat vgrid 0 ;;
  stop <- Np.at_nat vgrid 1 ;;
  step <- Np.at_nat vgrid 2 ;;
  Ok (Np.arange start (stop + step / 2) step).

(** Lines 170-178: keep the mask lines within the spectrum overlap and
    normalise the weights.  [wc] and [w] are the central wavelengths and the
    weights as they stand after line 165, [vrads] the velocity grid of line
    168. *)
Definition prefilter (wave vrads wc w : list R) : result (list R * list R) :=
  vmin <- Np.min vrads ;;
  lo <- doppler_shift wc vmin ;;
  wave_min <- Np.min wave ;;
  vmax <- Np.max vrads ;;
  hi <- doppler_shift wc vmax ;;
  wave_max <- Np.max wave ;;
  let idx := Np.map2 andb (map (fun x => Np.Rltb wave_min x) lo)
                          (map (fun x => Np.Rltb x wave_max) hi) in
  wc' <- Np.bool_index wc idx ;;
  w' <- Np.bool_index w idx ;;
  let total := Np.sum w' in
  Ok (wc', map (fun x => x / total) w').

(** Lines 200-217: the body of the loop over the velocity grid, for epoch
    [i] and trial velocity [v]. *)
Definition ccf_point (wave : list R) (flux_val flux_err : list (list R))
    (i : nat) (wc w : list R) (v : R) : result (R * R) :=
  wc_shift <- doppler_shift wc v ;;
  let i_r := map (fun x => Z.of_nat (Np.searchsorted_right wave x)) wc_shift in
  let i_l := map (fun k => (k - 1)%Z) i_r in
  wave_l <- Np.take wave i_l ;;
  wave_r <- Np.take wave i_r ;;
  let f_r := Np.map2 Rdiv (Np.map2 Rminus wc_shift wave_l)
                          (Np.map2 Rminus wave_r wave_l) in
  let f_l := map (fun f => 1 - f) f_r in
  fv <- Np.row flux_val i ;;
  fv_l <- Np.take fv i_l ;;
  fv_r <- Np.take fv i_r ;;
  let val :=
    Np.sum (Np.map2 Rmult
              (Np.map2 Rplus (Np.map2 Rmult fv_l f_l) (Np.map2 Rmult fv_r f_r))
              w) in
  fe <- Np.row flux_err i ;;
  fe_l <- Np.take fe i_l ;;
  fe_r <- Np.take fe i_r ;;
  let err :=
    sqrt (Np.sum (Np.map2 Rmult
                    (Np.map2 Rplus
                       (Np.map2 Rmult (map (fun e => e ^ 2) fe_l) f_l)
                       (Np.map2 Rmult (map (fun e => e ^ 2) fe_r) f_r))
                    (map (fun x => x ^ 2) w))) in
  Ok (val, err).

(** Lines 195-217: the CCF values and errors of epoch [i] on the grid. *)
Definition ccf_epoch (wave : list R) (flux_val flux_err : list (list R))
    (i : nat) (wc w vrads : list R) : result (list R * list R) :=
  pts <- mapM (ccf_point wave flux_val flux_err i wc w) vrads ;;
  Ok (map fst pts, map snd pts).

(** Lines 219-224: the initial guess [(C0, a0, b0, c0)]. *)
Definition initial_guess (vrads ccf_val : list R) : result (R * R * R * R) :=
  C0 <- Np.max ccf_val ;;
  lowest <- Np.min ccf_val ;;
  let a0 := C0 - lowest in
  kmin <- Np.argmin ccf_val ;;
  b0 <- Np.at_nat vrads kmin ;;
  k <- Np.first (Np.where_true (map (fun x => Np.Rltb x (C0 - a0 / 2)) ccf_val)) ;;
  vk <- Np.at_nat vrads k ;;
  Ok (C0, a0, b0, (b0 - vk) * 2).

(** Lines 237-241: the RV error. *)
Definition vrad_error (vrads ccf_val ccf_err : list R) : result R :=
  gv <- Np.gradient vrads ;;
  gc <- Np.gradient ccf_val ;;
  Ok (1 / sqrt (Np.sum (map (fun x => 1 / Rabs x ^ 2)
                            (Np.map2 Rdiv (Np.map2 Rmult ccf_err gv) gc)))).

(** The dictionaries [self.vrad] and [self.ccf] written at lines 247-256. *)
Record vrad_dict : Type := {
  vrad_time : list R;
  vrad_val : list R;
  vrad_err : list R;
  vrad_time_unit : option string;
  vrad_unit : string;
  method : string
}.

Record ccf_dict : Type := {
  ccf_time : list R;
  fwhm_val : list R
}.

(** Lines 99-190: everything [compute_vrad_ccf] does before the loop over
    the spectra, from the mask columns [wc], [w] (after the optional
    criteria, line 165) and the velocity grid [vrads] (line 168). *)
Definition prepare (spec : option spec_dict) (wc w vrads : list R)
  : result (list R * list R * list (list R) * list (list R) * option string *
            list R * list R) :=
  '(time, wave, flux_val, flux_err, time_unit) <- read_spec spec ;;
  '(wc', w') <- prefilter wave vrads wc w ;;
  Ok (time, wave, flux_val, flux_err, time_unit, wc', w').

Section Fit.

(** [scipy.optimize.curve_fit(inverted_gaussian, vrads, ccf_val,
    sigma=ccf_err, p0=p0)]: an external optimiser.  It returns the fitted
    parameters [(C, a, b, c)] and their covariance matrix, or raises. *)
Variable curve_fit :
  list R -> list R -> list R -> R * R * R * R ->
  result (R * R * R * R * list (list R)).

(** Lines 219-233: initial guess and fit of one CCF. *)
Definition gaussian_fit (vrads ccf_val ccf_err : list R)
  : result (R * R * R * R * list (list R)) :=
  p0 <- initial_guess vrads ccf_val ;;
  curve_fit vrads ccf_val ccf_err p0.

(** Lines 194-244: one iteration of the loop over the spectra; the result is
    [(vrad_val[i], vrad_err[i], fwhm_val[i])]. *)
Definition process_epoch (wave : list R) (flux_val flux_err : list (list R))
    (wc w vrads : list R) (i : nat) : result (R * R * R) :=
  '(ccf_val, ccf_err) <- ccf_epoch wave flux_val flux_err i wc w vrads ;;
  '(ccf_mom, _) <- gaussian_fit vrads ccf_val ccf_err ;;
  let '(_, _, b, c) := ccf_mom in
  err <- vrad_error vrads ccf_val ccf_err ;;
  Ok (b, err, c).

(** [compute_vrad_ccf]: the preparation, the loop over the spectra (lines
    193-244) and the two dictionaries it stores (lines 247-256). *)
Definition compute_vrad_ccf (spec : option spec_dict) (wc w vrads : list R)
  : result (vrad_dict * ccf_dict) :=
  '(time, wave, flux_val, flux_err, time_unit, wc', w') <- prepare spec wc w vrads ;;
  rs <- mapM (process_epoch wave flux_val flux_err wc' w' vrads)
             (seq 0 (length flux_val)) ;;
  Ok ({| vrad_time := time;
         vrad_val := map (fun r => fst (fst r)) rs;
         vrad_err := map (fun r => snd (fst r)) rs;
         vrad_time_unit := time_unit;
         vrad_unit := "km/s";
         method := "CCF" |},
      {| ccf_time := time;
         fwhm_val := map snd rs |}).

End Fit.

End Data.

(* ================================================================== *)
(** * [arve/star]: [compute_vpsd] and [plot_vpsd_components] *)

Module Star.

(** ** [compute_vpsd.py] *)

(** Line 21: the boolean array [(freq > lo) & (freq < hi)]. *)
Definition bin_mask (freq : list R) (lo hi : R) : list bool :=
  map (fun f => Np.Rltb lo f && Np.Rltb f hi) freq.

(** Lines 21-25: the average of bin [i]; [None] is [np.nan]. *)
Definition vps_avg_at (freq vps edges : list R) (i : nat) : result (option R) :=
  vps_bin <- Np.bool_index vps
               (bin_mask freq (nth i edges 0) (nth (i + 1) edges 0)) ;;
  Ok (if Nat.eqb (length vps_bin) 0 then None else Some (Np.mean vps_bin)).

(** [np.isnan] on a value that is either a real or [nan]. *)
Definition isnan (x : option R) : bool :=
  match x with None => true | Some _ => false end.

(** The dictionary [star.vpsd] written at line 37. *)
Record vpsd_dict : Type := {
  freq : list R;
  vps : list R;
  vpsd : list R;
  phase : list R;
  freq_avg : list R;
  vps_avg : list (option R);
  vpsd_avg : list (option R)
}.

Section Float64.

(** Line 17 calls two transcendental functions of numpy on float64 numbers,
    [np.log10] and the power [10 ** x].  Their results are rounded, and the
    round trip [10 ** log10 f] does not always give [f] back: on [8.0] it
    gives [7.999999999999999], on [20.0] it gives [20.000000000000004].
    Whether the first and the last frequency fall into a bin depends on it,
    so the two functions are parameters here; [Np.log10] and [Np.power 10]
    are their exact counterparts. *)
Variable log10 : R -> R.
Variable pow10 : R -> R.

(** Line 17: the edges of the logarithmic bins. *)
Definition freq_bin (f0 fN : R) : list R :=
  map pow10 (Np.linspace (log10 f0) (log10 fN) 51).

(** Lines 16-37, from the output [(freq, vps, phi, win_area)] of the
    periodogram of line 14. *)
Definition compute_vpsd (freq vps phi : list R) (win_area : R) : result vpsd_dict :=
  f0 <- Np.get freq 0 ;;
  fN <- Np.get freq (-1) ;;
  let edges := freq_bin f0 fN in
  let freq_avg := Np.map2 (fun a b => (a + b) / 2) (tl edges) (removelast edges) in
  vps_avg <- mapM (vps_avg_at freq vps edges) (seq 0 (length freq_avg)) ;;
  let i_delete := map isnan vps_avg in
  let freq_avg := Np.delete freq_avg (Np.where_true i_delete) in
  let vps_avg := Np.delete vps_avg (Np.where_true i_delete) in
  let vpsd := map (fun p => p / win_area) vps in
  let vpsd_avg := map (option_map (fun p => p / win_area)) vps_avg in
  Ok {| freq := freq; vps := vps; vpsd := vpsd; phase := phi;
        freq_avg := freq_avg; vps_avg := vps_avg; vpsd_avg := vpsd_avg |}.

End Float64.

(** ** [plot_vpsd_components.py] *)

(** One entry of [star.vpsd_components]. *)
Record comp_dict : Type := {
  type : string;
  coef_val : list R
}.

(** [vpsd_comp] is a number for a constant component and an array over
    [freq] for the others. *)
Inductive value : Type :=
| Scalar (x : R)
| Array (a : list R).

(** [vpsd_tot += vpsd_comp]. *)
Definition iadd (tot : list R) (v : value) : list R :=
  match v with
  | Scalar c => map (fun t => t + c) tot
  | Array a => Np.map2 Rplus tot a
  end.

(** Lines 36-42 ([Constant]), 48-56 ([Lorentz]) and 62-70 ([Harvey]): each
    [if] leaves [vpsd_comp] as it was when the type does not match. *)
Definition if_constant (c : comp_dict) (cur : option value) : result (option value) :=
  if String.eqb (type c) "Constant" then
    c0 <- Np.at_nat (coef_val c) 0 ;;
    Ok (Some (Scalar c0))
  else Ok cur.

Definition if_lorentz (freq : list R) (c : comp_dict) (cur : option value)
  : result (option value) :=
  if String.eqb (type c) "Lorentz" then
    c0 <- Np.at_nat (coef_val c) 0 ;;
    c1 <- Np.at_nat (coef_val c) 1 ;;
    c2 <- Np.at_nat (coef_val c) 2 ;;
    Ok (Some (Array (map (fun f => c0 * c1 ^ 2 / (c1 ^ 2 + (f - c2) ^ 2)) freq)))
  else Ok cur.

Definition if_harvey (freq : list R) (c : comp_dict) (cur : option value)
  : result (option value) :=
  if String.eqb (type c) "Harvey" then
    c0 <- Np.at_nat (coef_val c) 0 ;;
    c1 <- Np.at_nat (coef_val c) 1 ;;
    c2 <- Np.at_nat (coef_val c) 2 ;;
    Ok (Some (Array (map (fun f => c0 / (1 + Np.power (c1 * f) c2)) freq)))
  else Ok cur.

(** Lines 26-76: one iteration of the loop over the components.  The state
    is [vpsd_tot] and the local variable [vpsd_comp], unbound ([None])
    before the first assignment. *)
Definition component_step (freq : list R) (st : list R * option value)
    (c : comp_dict) : result (list R * option value) :=
  let '(tot, cur) := st in
  cur <- if_constant c cur ;;
  cur <- if_lorentz freq c cur ;;
  cur <- if_harvey freq c cur ;;
  match cur with
  | None => Raise NameError
  | Some v => Ok (iadd tot v, cur)
  end.

Fixpoint component_loop (freq : list R) (st : list R * option value)
    (comps : list (string * comp_dict)) : result (list R * option value) :=
  match comps with
  | [] => Ok st
  | (_, c) :: rest =>
      st' <- component_step freq st c ;;
      component_loop freq st' rest
  end.

(** Lines 23-79: the array [vpsd_tot] that the figure shows as "Total". *)
Definition vpsd_tot (freq : list R) (comps : list (string * comp_dict))
  : result (list R) :=
  st <- component_loop freq (map (fun _ => 0) freq, None) comps ;;
  Ok (fst st).

End Star.

(* ================================================================== *)
(** * Specification-level definitions

    The quantities the statements below compare the code with, written
    after the formulas of the specification. *)

Module Spec.

(** Value of [a[k]] when the index is valid ([0] otherwise). *)
Definition item (a : list R) (k : Z) : R :=
  match Np.get a k with Ok x => x | Raise _ => 0 end.

(** Sum of the terms of a list. *)
Definition Rsum (l : list R) : R := fold_right Rplus 0 l.

(** [m] is the largest (smallest) element of [a]. *)
Definition is_max (a : list R) (m : R) : Prop :=
  In m a /\ forall z, In z a -> z <= m.

Definition is_min (a : list R) (m : R) : Prop :=
  In m a /\ forall z, In z a -> m <= z.

(** [k] is the first index of [a] at which [P] holds. *)
Definition first_index (P : R -> Prop) (a : list R) (k : nat) : Prop :=
  (k < length a)%nat /\ P (nth k a 0) /\
  forall j, (j < k)%nat -> ~ P (nth j a 0).

(** ** Cross-correlation *)

(** The test of lines 171-172 on one mask line of centre [c]. *)
Definition retained (wave_min wave_max vmin vmax c : R) : bool :=
  Np.Rltb wave_min (c * (1 + vmin / Data.c_light)) &&
  Np.Rltb (c * (1 + vmax / Data.c_light)) wave_max.

Section Line.
Variables (wave : list R) (c v : R).

(** One mask line of centre [c] at the trial velocity [v]: shifted centre,
    bracketing indices and interpolation fractions. *)
Definition wc_shift : R := c * (1 + v / Data.c_light).
Definition i_r : Z := Z.of_nat (Np.searchsorted_right wave wc_shift).
Definition i_l : Z := (i_r - 1)%Z.
Definition f_r : R := (wc_shift - item wave i_l) / (item wave i_r - item wave i_l).
Definition f_l : R := 1 - f_r.
End Line.

(** The weighted sums over the mask lines [(centre, weight)]. *)
Definition ccf_value (wave flux : list R) (mask : list (R * R)) (v : R) : R :=
  Rsum (map (fun l =>
               snd l * (item flux (i_l wave (fst l) v) * f_l wave (fst l) v +
                        item flux (i_r wave (fst l) v) * f_r wave (fst l) v))
            mask).

Definition ccf_error (wave ferr : list R) (mask : list (R * R)) (v : R) : R :=
  sqrt (Rsum (map (fun l =>
                     snd l ^ 2 *
                     (item ferr (i_l wave (fst l) v) ^ 2 * f_l wave (fst l) v +
                      item ferr (i_r wave (fst l) v) ^ 2 * f_r wave (fst l) v))
                  mask)).

(** ** Gaussian fit and RV error *)

(** [x] lies below the half-depth level [C0 - a0 / 2], [a0 = C0 - lowest]. *)
Definition below_half_depth (C0 lowest x : R) : Prop :=
  x < C0 - (C0 - lowest) / 2.

(** Discretised derivative of the velocity with respect to the CCF: the
    ratio of the two finite-difference gradients at grid point [j]. *)
Definition dv_dccf (vrads ccf_val : list R) (j : nat) : R :=
  Np.gradient_at vrads j / Np.gradient_at ccf_val j.

Definition rv_error (vrads ccf_val ccf_err : list R) : R :=
  1 / sqrt (Rsum
              (map (fun j => (1 / Rabs (nth j ccf_err 0 * dv_dccf vrads ccf_val j)) ^ 2)
                   (seq 0 (length vrads)))).

(** ** Spectral input *)

(** One of the four spectral arrays is absent: [add_spec] was never called,
    or the entry is [None]. *)
Definition absent (spec : option Data.spec_dict) : Prop :=
  match spec with
  | None => True
  | Some d =>
      Data.time d = None \/ Data.wave d = None \/
      Data.flux_val d = None \/ Data.flux_err d = None
  end.

(** The call fails before the loop over the epochs is entered. *)
Definition fails_before_epochs (spec : option Data.spec_dict)
    (wc w vrads : list R) : Prop :=
  exists e, Data.prepare spec wc w vrads = Raise e.

(** ** Component model library *)

Inductive component : Type :=
| Constant (c0 : R)
| Lorentz (c0 c1 c2 : R)
| Harvey (c0 c1 c2 : R).

Definition density (c : component) (f : R) : R :=
  match c with
  | Constant c0 => c0
  | Lorentz c0 c1 c2 => c0 * c1 ^ 2 / (c1 ^ 2 + (f - c2) ^ 2)
  | Harvey c0 c1 c2 => c0 / (1 + Np.power (c1 * f) c2)
  end.

Definition composite (cs : list component) (f : R) : R :=
  Rsum (map (fun c => density c f) cs).

(** The formula of the component has a value at the frequency [f]: its
    denominator is not zero and, for [Harvey], the power is a number. *)
Definition defined_at (c : component) (f : R) : Prop :=
  match c with
  | Constant _ => True
  | Lorentz _ c1 c2 => c1 ^ 2 + (f - c2) ^ 2 <> 0
  | Harvey _ c1 c2 =>
      Np.power_real (c1 * f) c2 /\ 1 + Np.power (c1 * f) c2 <> 0
  end.

(** The dictionary entry that [star.vpsd_components] holds for a component. *)
Definition entry (c : component) : Star.comp_dict :=
  match c with
  | Constant c0 => {| Star.type := "Constant"; Star.coef_val := [c0] |}
  | Lorentz c0 c1 c2 => {| Star.type := "Lorentz"; Star.coef_val := [c0; c1; c2] |}
  | Harvey c0 c1 c2 => {| Star.type := "Harvey"; Star.coef_val := [c0; c1; c2] |}
  end.

Definition entries (cs : list (string * component)) : list (string * Star.comp_dict) :=
  map (fun nc => (fst nc, entry (snd nc))) cs.

(** ** Logarithmic binning *)

(** Edge [i] of 50 bins equally spaced in the logarithm from [lo] to [hi],
    for the logarithm [log10] and the power of ten [pow10] in use. *)
Definition edge (log10 pow10 : R -> R) (lo hi : R) (i : nat) : R :=
  pow10 (log10 lo + INR i * ((log10 hi - log10 lo) / 50)).

(** [f] lies strictly between [lo] and [hi]. *)
Definition inside (lo hi f : R) : bool :=
  if Rlt_dec lo f then (if Rlt_dec f hi then true else false) else false.

(** The powers whose frequency lies in bin [i] of the edges [e]. *)
Definition bin (e : nat -> R) (freq vps : list R) (i : nat) : list R :=
  map snd (filter (fun fp => inside (e i) (e (i + 1)%nat) (fst fp)) (combine freq vps)).

(** The bins that are not empty, in increasing order. *)
Definition valid_bins (e : nat -> R) (freq vps : list R) : list nat :=
  filter (fun i => match bin e freq vps i with [] => false | _ :: _ => true end)
         (seq 0 50).

Definition midpoint (e : nat -> R) (i : nat) : R := (e i + e (i + 1)%nat) / 2.

(** Arithmetic mean. *)
Definition average (b : list R) : R := Rsum b / INR (length b).

(** The average of bin [i], absent when the bin is empty. *)
Definition bin_average (e : nat -> R) (freq vps : list R) (i : nat) : option R :=
  match bin e freq vps i with
  | [] => None
  | b => Some (average b)
  end.

End Spec.

(* ================================================================== *)
(** * Sample data *)

(** Three pixels around 5000 with a dip in the middle, one epoch, and a
    three-point velocity grid in km/s. *)
Definition demo_wave : list R := [4999; 5000; 5001].
Definition demo_flux : list (list R) := [[1; 0.5; 1]].
Definition demo_ferr : list (list R) := [[0.1; 0.1; 0.1]].
Definition demo_vrads : list R := [-30; 0; 30].

(** An optimiser that always answers with the same parameters. *)
Definition demo_fit (xdata ydata sigma : list R) (p0 : R * R * R * R)
  : result (R * R * R * R * list (list R)) :=
  Ok ((1, 0.5, 0, 1), []).

(** The float64 power of ten around the frequencies 8 and 20: [10 **
    log10(8.0)] is [7.999999999999999] and [10 ** log10(20.0)] is
    [20.000000000000004].  [demo_pow10] takes these two values (the
    logarithm being exact), is exact in between and is monotone. *)
Definition demo_pow10 (y : R) : R :=
  if Rle_dec y (Np.log10 8) then Rmin (Rpower 10 y) 7.999999999999999
  else if Rlt_dec y (Np.log10 20) then Rpower 10 y
  else Rmax (Rpower 10 y) 20.000000000000004.

(** A spectrum of one pixel and one epoch, the only shape that passes the
    truth-value test of line 105. *)
Definition demo_spec : option Data.spec_dict :=
  Data.add_spec (Some [1]) (Some [5000]) (Some [[1]]) (Some [[0.1]]) None None None.

(* ================================================================== *)
(** * Facts *)

(* ------------------------------------------------------------------ *)
(** ** Tactics for closed computations on reals *)

(** Decide the comparisons of a closed computation on reals, innermost
    first. *)
Ltac no_comparison t :=
  lazymatch t with
  | context [Rlt_dec _ _] => fail
  | context [Rle_dec _ _] => fail
  | context [Req_dec_T _ _] => fail
  | _ => idtac
  end.

Ltac decide_R :=
  match goal with
  | |- context [Rlt_dec ?a ?b] =>
      no_comparison a; no_comparison b;
      first [ destruct (Rlt_dec a b); [|exfalso; lra]
            | destruct (Rlt_dec a b); [exfalso; lra|] ]
  | |- context [Rle_dec ?a ?b] =>
      no_comparison a; no_comparison b;
      first [ destruct (Rle_dec a b); [|exfalso; lra]
            | destruct (Rle_dec a b); [exfalso; lra|] ]
  | |- context [Req_dec_T ?a ?b] =>
      no_comparison a; no_comparison b;
      first [ destruct (Req_dec_T a b); [|exfalso; lra]
            | destruct (Req_dec_T a b); [exfalso; lra|] ]
  end.

Ltac eval_R :=
  repeat (cbn; unfold Np.Rltb, Rmin, Rmax, Data.c_light; try decide_R).

(** Unfold the specification-level sums on concrete data. *)
Ltac eval_spec :=
  unfold Spec.ccf_value, Spec.ccf_error, Spec.f_l, Spec.f_r, Spec.i_l, Spec.i_r,
    Spec.wc_shift, Spec.Rsum, Spec.item, Data.c_light;
  cbn [map combine fst snd fold_right Np.searchsorted_right];
  repeat decide_R; cbn; cbv [Pos.to_nat Pos.iter_op Nat.add].

(* ------------------------------------------------------------------ *)
(** ** Facts about the numpy primitives *)

Section NumpyFacts.

Lemma Rltb_true (x y : R) : Np.Rltb x y = true <-> x < y.
Proof. unfold Np.Rltb. destruct (Rlt_dec x y); split; intros; auto; discriminate. Qed.

Lemma Rltb_false (x y : R) : Np.Rltb x y = false <-> y <= x.
Proof. unfold Np.Rltb. destruct (Rlt_dec x y); split; intros; auto; try discriminate; lra. Qed.

Lemma fold_min_le (t : list R) : forall x, fold_left Rmin t x <= x.
Proof.
  induction t as [|y t IH]; intros x; simpl; [lra|].
  eapply Rle_trans; [apply IH|apply Rmin_l].
Qed.

Lemma fold_min_lower (t : list R) : forall x z, In z t -> fold_left Rmin t x <= z.
Proof.
  induction t as [|y t IH]; intros x z Hin; simpl in *; [tauto|].
  destruct Hin as [->|Hin]; [|now apply IH].
  eapply Rle_trans; [apply fold_min_le|apply Rmin_r].
Qed.

Lemma fold_min_in (t : list R) : forall x, fold_left Rmin t x = x \/ In (fold_left Rmin t x) t.
Proof.
  induction t as [|y t IH]; intros x; simpl; [now left|].
  destruct (IH (Rmin x y)) as [H|H]; [|now right; right].
  rewrite H. unfold Rmin. destruct (Rle_dec x y); [now left|right; now left].
Qed.

Lemma fold_max_ge (t : list R) : forall x, x <= fold_left Rmax t x.
Proof.
  induction t as [|y t IH]; intros x; simpl; [lra|].
  eapply Rle_trans; [apply Rmax_l|apply IH].
Qed.

Lemma fold_max_upper (t : list R) : forall x z, In z t -> z <= fold_left Rmax t x.
Proof.
  induction t as [|y t IH]; intros x z Hin; simpl in *; [tauto|].
  destruct Hin as [->|Hin]; [|now apply IH].
  eapply Rle_trans; [apply Rmax_r|apply fold_max_ge].
Qed.

Lemma fold_max_in (t : list R) : forall x, fold_left Rmax t x = x \/ In (fold_left Rmax t x) t.
Proof.
  induction t as [|y t IH]; intros x; simpl; [now left|].
  destruct (IH (Rmax x y)) as [H|H]; [|now right; right].
  rewrite H. unfold Rmax. destruct (Rle_dec x y); [right; now left|now left].
Qed.

Lemma min_spec (a : list R) (m : R) :
  Np.min a = Ok m -> In m a /\ forall z, In z a -> m <= z.
Proof.
  destruct a as [|x t]; simpl; [discriminate|].
  intros H; injection H as <-. split.
  - destruct (fold_min_in t x) as [->|H]; [now left|now right].
  - intros z [->|Hz]; [apply fold_min_le|now apply fold_min_lower].
Qed.

Lemma max_spec (a : list R) (m : R) :
  Np.max a = Ok m -> In m a /\ forall z, In z a -> z <= m.
Proof.
  destruct a as [|x t]; simpl; [discriminate|].
  intros H; injection H as <-. split.
  - destruct (fold_max_in t x) as [->|H]; [now left|now right].
  - intros z [->|Hz]; [apply fold_max_ge|now apply fold_max_upper].
Qed.

Lemma select_filter {A : Type} (p : A -> bool) (a : list A) :
  Np.select a (map p a) = filter p a.
Proof.
  induction a as [|x a IH]; simpl; [reflexivity|].
  rewrite IH. reflexivity.
Qed.

Lemma map2_map {A B D E : Type} (f : B -> D -> E) (g : A -> B) (h : A -> D) (a : list A) :
  Np.map2 f (map g a) (map h a) = map (fun x => f (g x) (h x)) a.
Proof. induction a as [|x a IH]; simpl; [reflexivity|now rewrite IH]. Qed.

(** Right insertion index: bounds and bracketing. *)
Lemma searchsorted_right_lt (a : list R) (x z : R) :
  In z a -> x < z -> (Np.searchsorted_right a x < length a)%nat.
Proof.
  induction a as [|y t IH]; simpl; [tauto|].
  intros [Heq|Hin] Hlt; destruct (Rle_dec y x); try lia; try lra.
  specialize (IH Hin Hlt). lia.
Qed.

Lemma searchsorted_right_prefix (a : list R) (x : R) (k : nat) :
  (k < Np.searchsorted_right a x)%nat -> nth k a 0 <= x.
Proof.
  revert k; induction a as [|y t IH]; simpl; intros k Hk; [lia|].
  destruct (Rle_dec y x); [|lia].
  destruct k; [assumption|]. apply IH. lia.
Qed.

Lemma searchsorted_right_stop (a : list R) (x : R) :
  (Np.searchsorted_right a x < length a)%nat ->
  x < nth (Np.searchsorted_right a x) a 0.
Proof.
  induction a as [|y t IH]; simpl; [lia|].
  destruct (Rle_dec y x); intros H; [apply IH; lia|lra].
Qed.

Lemma sorted_nth_lt (a : list R) :
  StronglySorted Rlt a ->
  forall i j, (i < j < length a)%nat -> nth i a 0 < nth j a 0.
Proof.
  induction 1 as [|y t Hs IH Hall]; simpl; intros i j Hij; [lia|].
  destruct j; [lia|]. destruct i.
  - rewrite Forall_forall in Hall. apply Hall. apply nth_In. lia.
  - apply IH. lia.
Qed.

Lemma sorted_min_head (y : R) (t : list R) :
  StronglySorted Rlt (y :: t) -> fold_left Rmin t y = y.
Proof.
  intros Hs. apply StronglySorted_inv in Hs as [_ Hall].
  rewrite Forall_forall in Hall.
  destruct (fold_min_in t y) as [H|H]; [assumption|].
  pose proof (fold_min_le t y). specialize (Hall _ H). lra.
Qed.

Lemma get_nat (a : list R) (k : nat) :
  (k < length a)%nat -> Np.get a (Z.of_nat k) = Ok (nth k a 0).
Proof.
  intros H. unfold Np.get.
  replace ((0 <=? Z.of_nat k) && (Z.of_nat k <? Z.of_nat (length a)))%Z with true.
  - now rewrite Nat2Z.id.
  - symmetry. apply andb_true_iff. split; [apply Z.leb_le|apply Z.ltb_lt]; lia.
Qed.

Lemma get_pred (a : list R) (k : nat) :
  (1 <= k <= length a)%nat -> Np.get a (Z.of_nat k - 1) = Ok (nth (k - 1) a 0).
Proof.
  intros H. replace (Z.of_nat k - 1)%Z with (Z.of_nat (k - 1)) by lia.
  apply get_nat. lia.
Qed.

End NumpyFacts.

Section Doppler.

Lemma c_light_pos : 0 < Data.c_light.
Proof. unfold Data.c_light. lra. Qed.

Lemma shift_mono (c v1 v2 : R) :
  0 < c -> v1 <= v2 -> c * (1 + v1 / Data.c_light) <= c * (1 + v2 / Data.c_light).
Proof.
  intros Hc Hv. pose proof c_light_pos as Hl.
  assert (v1 / Data.c_light <= v2 / Data.c_light).
  { unfold Rdiv. apply Rmult_le_compat_r; [|assumption].
    left. now apply Rinv_0_lt_compat. }
  nra.
Qed.

End Doppler.

(* ------------------------------------------------------------------ *)
(** ** The pre-filter of the mask and the safety of the interpolation *)

Lemma bind_ok {A B : Type} (m : result A) (k : A -> result B) (b : B) :
  Py.bind m k = Ok b -> exists a, m = Ok a /\ k a = Ok b.
Proof. destruct m as [a|e]; simpl; [eauto|discriminate]. Qed.

Ltac inv_bind H :=
  let a := fresh "a" in
  let Ha := fresh "E" in
  apply bind_ok in H; destruct H as (a & Ha & H).

Lemma doppler_shift_ok (wc out : list R) (v : R) :
  Data.doppler_shift wc v = Ok out ->
  out = map (fun x => x * (1 + v / Data.c_light)) wc.
Proof. destruct wc; simpl; [discriminate|]. now intros [= <-]. Qed.

Lemma bool_index_ok {A : Type} (a out : list A) (idx : list bool) :
  Np.bool_index a idx = Ok out -> length a = length idx /\ out = Np.select a idx.
Proof.
  unfold Np.bool_index. destruct (Nat.eqb (length a) (length idx)) eqn:E; [|discriminate].
  intros [= <-]. apply Nat.eqb_eq in E. auto.
Qed.

Lemma prefilter_ok (wave vrads wc w wc' w' : list R) :
  Data.prefilter wave vrads wc w = Ok (wc', w') ->
  exists vmin vmax wave_min wave_max,
    Np.min vrads = Ok vmin /\ Np.max vrads = Ok vmax /\
    Np.min wave = Ok wave_min /\ Np.max wave = Ok wave_max /\
    wc' = filter (Spec.retained wave_min wave_max vmin vmax) wc /\
    length w = length wc /\
    let kept := Np.select w (map (Spec.retained wave_min wave_max vmin vmax) wc) in
    w' = map (fun x => x / Np.sum kept) kept.
Proof.
  unfold Data.prefilter. intros H.
  inv_bind H. inv_bind H. inv_bind H. inv_bind H. inv_bind H. inv_bind H.
  inv_bind H. inv_bind H. injection H as <- <-.
  apply doppler_shift_ok in E0, E3. subst a0 a3.
  rewrite !map_map, map2_map in E5, E6.
  apply bool_index_ok in E5 as [_ ->], E6 as [L6 ->].
  rewrite length_map in L6.
  exists a, a2, a1, a4. repeat split; try assumption.
  apply select_filter.
Qed.

(** Claim C9.  For a strictly increasing wavelength array and positive mask
    centres, every line the pre-filter retains has, at every velocity of the
    grid, a right-insertion index [i_r] with [1 <= i_r <= len(wave) - 1]
    that brackets the shifted centre; the interpolation denominator
    [wave[i_r] - wave[i_l]] is not zero and indexing an array as long as
    [wave] at [i_l = i_r - 1] and [i_r] succeeds without wrapping around. *)
Theorem ccf_interpolation_in_bounds (wave vrads wc w wc' w' : list R) (c v : R) :
  StronglySorted Rlt wave ->
  (forall x, In x wc -> 0 < x) ->
  Data.prefilter wave vrads wc w = Ok (wc', w') ->
  In c wc' -> In v vrads ->
  let x := c * (1 + v / Data.c_light) in
  let i_r := Np.searchsorted_right wave x in
  (1 <= i_r <= length wave - 1)%nat /\
  nth (i_r - 1) wave 0 <= x < nth i_r wave 0 /\
  nth i_r wave 0 - nth (i_r - 1) wave 0 <> 0 /\
  forall a, length a = length wave ->
    Np.get a (Z.of_nat i_r) = Ok (nth i_r a 0) /\
    Np.get a (Z.of_nat i_r - 1) = Ok (nth (i_r - 1) a 0).
Proof.
  intros Hs Hpos Hpre Hc Hv x i_r.
  apply prefilter_ok in Hpre
    as (vmin & vmax & wmin & wmax & Evmin & Evmax & Ewmin & Ewmax & -> & _ & _).
  apply filter_In in Hc as [Hin Hret].
  unfold Spec.retained in Hret. apply andb_true_iff in Hret as [Hlo Hhi].
  apply Rltb_true in Hlo, Hhi.
  apply min_spec in Evmin as [_ Hvmin]. apply max_spec in Evmax as [_ Hvmax].
  pose proof (shift_mono c vmin v (Hpos _ Hin) (Hvmin _ Hv)) as H1.
  pose proof (shift_mono c v vmax (Hpos _ Hin) (Hvmax _ Hv)) as H2.
  fold x in H1, H2.
  assert (Hup : (i_r < length wave)%nat).
  { apply max_spec in Ewmax as [Hmax _].
    apply (searchsorted_right_lt wave x wmax Hmax). lra. }
  assert (Hlow : (1 <= i_r)%nat).
  { destruct wave as [|y t]; [simpl in Hup; lia|].
    simpl in Ewmin. injection Ewmin as Ewmin.
    rewrite (sorted_min_head y t Hs) in Ewmin. subst wmin.
    unfold i_r. simpl. destruct (Rle_dec y x); [lia|lra]. }
  assert (Hbr : nth (i_r - 1) wave 0 <= x < nth i_r wave 0).
  { split.
    - apply searchsorted_right_prefix. fold i_r. lia.
    - now apply searchsorted_right_stop. }
  repeat split; try lia; try apply Hbr.
  - pose proof (sorted_nth_lt wave Hs (i_r - 1) i_r). lra.
  - apply get_nat. lia.
  - apply get_pred. lia.
Qed.

(** The pre-filter on the sample spectrum keeps the line at 5000. *)
Lemma demo_prefilter :
  Data.prefilter demo_wave demo_vrads [5000] [1] = Ok ([5000], [1 / (0 + 1)]).
Proof. unfold Data.prefilter, demo_wave, demo_vrads. eval_R. reflexivity. Qed.

(** On the sample spectrum, the line at 5000 at the highest velocity. *)
Lemma ccf_interpolation_in_bounds_witness :
  (1 <= Np.searchsorted_right demo_wave (5000 * (1 + 30 / Data.c_light))
     <= length demo_wave - 1)%nat.
Proof.
  apply (ccf_interpolation_in_bounds demo_wave demo_vrads [5000] [1]
           [5000] [1 / (0 + 1)] 5000 30).
  - unfold demo_wave. repeat constructor; lra.
  - intros x [<-|[]]. lra.
  - exact demo_prefilter.
  - now left.
  - unfold demo_vrads. simpl. auto.
Defined.

(* ------------------------------------------------------------------ *)
(** ** The cross-correlation function *)

Lemma fold_left_plus_acc (l : list R) : forall x, fold_left Rplus l x = x + fold_right Rplus 0 l.
Proof.
  induction l as [|y l IH]; intros x; simpl; [lra|]. rewrite IH. lra.
Qed.

Lemma sum_Rsum (l : list R) : Np.sum l = Spec.Rsum l.
Proof. unfold Np.sum, Spec.Rsum. rewrite fold_left_plus_acc. lra. Qed.

Lemma map2_map_combine {A B C D E : Type} (f : C -> D -> E) (g : A -> C) (h : B -> D)
    (a : list A) (b : list B) :
  Np.map2 f (map g a) (map h b) = map (fun p => f (g (fst p)) (h (snd p))) (combine a b).
Proof.
  revert b; induction a as [|x a IH]; intros [|y b]; simpl; try reflexivity.
  now rewrite IH.
Qed.

Lemma mapM_map {A B : Type} (f : A -> result B) (g : A -> B) (l : list A) :
  (forall x, In x l -> f x = Ok (g x)) -> mapM f l = Ok (map g l).
Proof.
  induction l as [|x l IH]; intros H; simpl; [reflexivity|].
  rewrite (H x (or_introl eq_refl)), IH; [reflexivity|].
  intros y Hy. apply H. now right.
Qed.

Lemma take_map {A : Type} (a : list R) (g : A -> Z) (l : list A) :
  (forall x, In x l -> Py.is_ok (Np.get a (g x)) = true) ->
  Np.take a (map g l) = Ok (map (fun x => Spec.item a (g x)) l).
Proof.
  intros H. unfold Np.take.
  induction l as [|x l IH]; simpl; [reflexivity|].
  pose proof (H x (or_introl eq_refl)) as Hx. unfold Spec.item.
  destruct (Np.get a (g x)) as [y|e]; [|discriminate].
  rewrite IH; [reflexivity|]. intros z Hz. apply H. now right.
Qed.

Lemma get_in_range (a : list R) (k : Z) :
  (- Z.of_nat (length a) <= k < Z.of_nat (length a))%Z -> Py.is_ok (Np.get a k) = true.
Proof.
  intros H. unfold Np.get.
  destruct ((0 <=? k) && (k <? Z.of_nat (length a)))%Z eqn:E1; [reflexivity|].
  destruct ((- Z.of_nat (length a) <=? k) && (k <? 0))%Z eqn:E2; [reflexivity|].
  apply andb_false_iff in E1, E2.
  destruct E1 as [E1|E1], E2 as [E2|E2];
    try apply Z.leb_gt in E1; try apply Z.ltb_ge in E1;
    try apply Z.leb_gt in E2; try apply Z.ltb_ge in E2; lia.
Qed.

Lemma nth_error_row (m : list (list R)) (i : nat) (r : list R) :
  nth_error m i = Some r -> Np.row m i = Ok r.
Proof. unfold Np.row. now intros ->. Qed.

(** One grid point. *)
Lemma ccf_point_ok (wave : list R) (flux_val flux_err : list (list R)) (i : nat)
    (wc w fv fe : list R) (v : R) :
  wc <> [] -> length w = length wc ->
  nth_error flux_val i = Some fv -> nth_error flux_err i = Some fe ->
  length fv = length wave -> length fe = length wave ->
  (forall c, In c wc ->
     (Np.searchsorted_right wave (c * (1 + v / Data.c_light)) < length wave)%nat) ->
  Data.ccf_point wave flux_val flux_err i wc w v =
  Ok (Spec.ccf_value wave fv (combine wc w) v,
      Spec.ccf_error wave fe (combine wc w) v).
Proof.
  intros Hne Hlen Hfv Hfe Lfv Lfe Hin.
  unfold Data.ccf_point.
  assert (Hshift : Data.doppler_shift wc v = Ok (map (fun c => Spec.wc_shift c v) wc)).
  { destruct wc; [congruence|reflexivity]. }
  rewrite Hshift. cbn [Py.bind]. rewrite !map_map.
  assert (Hr : forall a, length a = length wave -> forall c, In c wc ->
             Py.is_ok (Np.get a (Spec.i_r wave c v)) = true).
  { intros a La c Hc. apply get_in_range. unfold Spec.i_r, Spec.wc_shift.
    specialize (Hin c Hc). lia. }
  assert (Hl : forall a, length a = length wave -> forall c, In c wc ->
             Py.is_ok (Np.get a (Spec.i_l wave c v)) = true).
  { intros a La c Hc. apply get_in_range. unfold Spec.i_l, Spec.i_r, Spec.wc_shift.
    specialize (Hin c Hc). lia. }
  change (fun x : R => (Z.of_nat (Np.searchsorted_right wave (Spec.wc_shift x v)) - 1)%Z)
    with (fun x : R => Spec.i_l wave x v).
  change (fun x : R => Z.of_nat (Np.searchsorted_right wave (Spec.wc_shift x v)))
    with (fun x : R => Spec.i_r wave x v).
  rewrite (take_map wave _ wc (Hl wave eq_refl)),
          (take_map wave _ wc (Hr wave eq_refl)).
  cbn [Py.bind]. rewrite (nth_error_row _ _ _ Hfv). cbn [Py.bind].
  rewrite (take_map fv _ wc (Hl fv Lfv)), (take_map fv _ wc (Hr fv Lfv)).
  cbn [Py.bind]. rewrite (nth_error_row _ _ _ Hfe). cbn [Py.bind].
  rewrite (take_map fe _ wc (Hl fe Lfe)), (take_map fe _ wc (Hr fe Lfe)).
  cbn [Py.bind]. rewrite !map2_map, !map_map, !map2_map.
  rewrite <- (map_id w) at 1. rewrite !map2_map_combine, !sum_Rsum.
  unfold Spec.ccf_value, Spec.ccf_error. do 2 f_equal.
  - f_equal. apply map_ext. intros [c wt]. cbn [fst snd].
    unfold Spec.f_l, Spec.f_r. ring.
  - do 2 f_equal. apply map_ext. intros [c wt]. cbn [fst snd].
    unfold Spec.f_l, Spec.f_r. ring.
Qed.

Lemma select_length {A B : Type} (a : list A) (b : list B) (idx : list bool) :
  length a = length b -> length (Np.select a idx) = length (Np.select b idx).
Proof.
  revert b idx; induction a as [|x a IH]; intros [|y b] [|[] idx] H;
    simpl in *; try discriminate; auto.
Qed.

(** Claim C1.  Let [(wc, w)] be the mask the pre-filter returns, not empty,
    with every right-insertion index inside the wavelength array and the
    flux rows as long as it.  Then for epoch [i] and every velocity [v] of
    the grid the CCF value is the sum over the retained lines of
    [weight * (flux[i_l] * f_l + flux[i_r] * f_r)], where [i_r] is the
    right-insertion index of the shifted centre, [i_l = i_r - 1],
    [f_r = (wc_shift - wave[i_l]) / (wave[i_r] - wave[i_l])] and
    [f_l = 1 - f_r]; the CCF error is the square root of the sum of
    [weight ^ 2 * (flux_err[i_l] ^ 2 * f_l + flux_err[i_r] ^ 2 * f_r)], the
    fractions not squared.  The weights are the retained ones divided by
    their sum. *)
Theorem ccf_weighted_interpolation
    (wave : list R) (flux_val flux_err : list (list R)) (i : nat)
    (wc0 w0 wc w vrads fv fe : list R) :
  Data.prefilter wave vrads wc0 w0 = Ok (wc, w) ->
  wc <> [] ->
  nth_error flux_val i = Some fv -> nth_error flux_err i = Some fe ->
  length fv = length wave -> length fe = length wave ->
  (forall c v, In c wc -> In v vrads ->
     (Np.searchsorted_right wave (c * (1 + v / Data.c_light)) < length wave)%nat) ->
  Data.ccf_epoch wave flux_val flux_err i wc w vrads =
    Ok (map (Spec.ccf_value wave fv (combine wc w)) vrads,
        map (Spec.ccf_error wave fe (combine wc w)) vrads) /\
  length w = length wc /\
  exists kept, w = map (fun x => x / Spec.Rsum kept) kept.
Proof.
  intros Hpre Hne Hfv Hfe Lfv Lfe Hin.
  apply prefilter_ok in Hpre
    as (vmin & vmax & wmin & wmax & _ & _ & _ & _ & Hwc & Hlen & Hw).
  cbv zeta in Hw.
  assert (Hl : length w = length wc).
  { rewrite Hw, Hwc, length_map, <- select_filter. now apply select_length. }
  split; [|split; [assumption|]].
  - unfold Data.ccf_epoch.
    rewrite (mapM_map _ (fun v => (Spec.ccf_value wave fv (combine wc w) v,
                                   Spec.ccf_error wave fe (combine wc w) v))).
    + cbn [Py.bind]. now rewrite !map_map.
    + intros v Hv. apply ccf_point_ok; auto.
  - eexists. rewrite Hw, sum_Rsum. reflexivity.
Qed.

(** The right-insertion indices on the sample spectrum are inside it. *)
Lemma demo_in_bounds (c v : R) :
  In c [5000] -> In v demo_vrads ->
  (Np.searchsorted_right demo_wave (c * (1 + v / Data.c_light)) < length demo_wave)%nat.
Proof.
  unfold demo_vrads, demo_wave.
  intros [<-|[]] [<-|[<-|[<-|[]]]]; eval_R; lia.
Qed.

(** On the sample spectrum: a dip at 5000, one line, three velocities. *)
Lemma ccf_weighted_interpolation_witness :
  Data.ccf_epoch demo_wave demo_flux demo_ferr 0 [5000] [1 / (0 + 1)] demo_vrads =
  Ok (map (Spec.ccf_value demo_wave [1; 0.5; 1] (combine [5000] [1 / (0 + 1)]))
          demo_vrads,
      map (Spec.ccf_error demo_wave [0.1; 0.1; 0.1] (combine [5000] [1 / (0 + 1)]))
          demo_vrads).
Proof.
  apply (ccf_weighted_interpolation demo_wave demo_flux demo_ferr 0%nat
           [5000] [1] [5000] [1 / (0 + 1)] demo_vrads [1; 0.5; 1] [0.1; 0.1; 0.1]).
  - exact demo_prefilter.
  - discriminate.
  - reflexivity.
  - reflexivity.
  - reflexivity.
  - reflexivity.
  - exact demo_in_bounds.
Defined.

(* ------------------------------------------------------------------ *)
(** ** The initial guess of the Gaussian fit *)

Section InitialGuess.

Lemma argmin_from_spec (a : list R) :
  forall (pre : list R) (best : R) (besti : nat),
    (besti < length pre)%nat ->
    nth besti pre 0 = best ->
    (forall j, (j < length pre)%nat -> best <= nth j pre 0) ->
    (forall j, (j < besti)%nat -> best < nth j pre 0) ->
    let l := pre ++ a in
    let r := Np.argmin_from best besti (length pre) a in
    (r < length l)%nat /\
    (forall j, (j < length l)%nat -> nth r l 0 <= nth j l 0) /\
    (forall j, (j < r)%nat -> nth r l 0 < nth j l 0).
Proof.
  induction a as [|x t IH]; intros pre best besti Hb Hnth Hle Hlt; cbv zeta; simpl.
  - rewrite app_nil_r, Hnth. repeat split; auto.
  - replace (pre ++ x :: t) with ((pre ++ [x]) ++ t) by now rewrite <- app_assoc.
    replace (S (length pre)) with (length (pre ++ [x]))
      by (rewrite length_app; simpl; lia).
    assert (Hpre : forall j, (j < length pre)%nat -> nth j (pre ++ [x]) 0 = nth j pre 0)
      by (intros; now apply app_nth1).
    assert (Hlast : nth (length pre) (pre ++ [x]) 0 = x)
      by (rewrite app_nth2, Nat.sub_diag; [reflexivity|lia]).
    assert (Hcase : forall j, (j < length (pre ++ [x]))%nat ->
                      (j < length pre)%nat \/ j = length pre)
      by (intros j; rewrite length_app; simpl; lia).
    destruct (Rlt_dec x best) as [Hx|Hx]; apply IH.
    + rewrite length_app; simpl; lia.
    + assumption.
    + intros j Hj. destruct (Hcase j Hj) as [H | ->].
      * rewrite Hpre by assumption. specialize (Hle j H). lra.
      * rewrite Hlast. lra.
    + intros j Hj. rewrite Hpre by assumption. specialize (Hle j Hj). lra.
    + rewrite length_app; simpl; lia.
    + rewrite Hpre by assumption. assumption.
    + intros j Hj. destruct (Hcase j Hj) as [H | ->].
      * rewrite Hpre by assumption. auto.
      * rewrite Hlast. lra.
    + intros j Hj. rewrite Hpre by lia. auto.
Qed.

Lemma argmin_spec (a : list R) (k : nat) :
  Np.argmin a = Ok k ->
  (k < length a)%nat /\
  (forall j, (j < length a)%nat -> nth k a 0 <= nth j a 0) /\
  (forall j, (j < k)%nat -> nth k a 0 < nth j a 0).
Proof.
  destruct a as [|x t]; simpl; [discriminate|]. intros [= <-].
  apply (argmin_from_spec t [x] x 0%nat); simpl; try lia; try reflexivity.
  - intros [|j] Hj; [lra|lia].
Qed.

Lemma argmin_ok (a : list R) : a <> [] -> exists k, Np.argmin a = Ok k.
Proof. destruct a; [congruence|]. simpl. eauto. Qed.

(** [np.where(m)[0][0]]: the first true entry. *)
Lemma first_where_from (m : list bool) :
  forall i k,
    Np.first (Np.where_from i m) = Ok k ->
    (i <= k)%nat /\ nth (k - i) m false = true /\
    forall j, (j < k - i)%nat -> nth j m false = false.
Proof.
  induction m as [|b m IH]; intros i k; simpl; [discriminate|].
  destruct b.
  - simpl. intros [= <-]. rewrite Nat.sub_diag. repeat split; auto; lia.
  - intros H. apply IH in H as (Hi & Hk & Hj).
    replace (k - i)%nat with (S (k - S i)) by lia.
    repeat split; [lia|assumption|].
    intros [|j] Hlt; [reflexivity|]. apply Hj. lia.
Qed.

Lemma first_where_exists (m : list bool) :
  forall i, In true m -> exists k, Np.first (Np.where_from i m) = Ok k.
Proof.
  induction m as [|b m IH]; intros i Hin; simpl in *; [tauto|].
  destruct b; [simpl; eauto|].
  destruct Hin as [H|H]; [discriminate|]. now apply IH.
Qed.

Lemma first_where_none (m : list bool) :
  forall i, ~ In true m -> Np.first (Np.where_from i m) = Raise IndexError.
Proof.
  induction m as [|b m IH]; intros i Hin; simpl in *; [reflexivity|].
  destruct b; [tauto|]. apply IH. tauto.
Qed.

Lemma at_nat_ok (a : list R) (k : nat) :
  (k < length a)%nat -> Np.at_nat a k = Ok (nth k a 0).
Proof.
  intros H. unfold Np.at_nat.
  rewrite (nth_error_nth' a 0 H). reflexivity.
Qed.

End InitialGuess.

Lemma initial_guess_cases (vrads ccf_val : list R) (C0 lowest : R) :
  length vrads = length ccf_val ->
  Np.max ccf_val = Ok C0 -> Np.min ccf_val = Ok lowest ->
  (exists kmin k,
      Spec.first_index (fun x => x = lowest) ccf_val kmin /\
      Spec.first_index (Spec.below_half_depth C0 lowest) ccf_val k /\
      (k <= kmin)%nat /\
      Data.initial_guess vrads ccf_val =
        Ok (C0, C0 - lowest, nth kmin vrads 0,
            (nth kmin vrads 0 - nth k vrads 0) * 2)) \/
  ((forall x, In x ccf_val -> ~ Spec.below_half_depth C0 lowest x) /\
   Data.initial_guess vrads ccf_val = Raise IndexError).
Proof.
  intros Hlen Hmax Hmin. unfold Data.initial_guess.
  rewrite Hmax, Hmin. cbn [Py.bind].
  assert (Hne : ccf_val <> []) by (destruct ccf_val; [discriminate|congruence]).
  destruct (argmin_ok ccf_val Hne) as [kmin Ek]. rewrite Ek. cbn [Py.bind].
  pose proof (argmin_spec _ _ Ek) as (Hk1 & Hk2 & Hk3).
  pose proof (min_spec _ _ Hmin) as [Hmin_in Hmin_le].
  assert (Hval : nth kmin ccf_val 0 = lowest).
  { apply Rle_antisym.
    - destruct (In_nth _ _ 0 Hmin_in) as (j & Hj & <-). now apply Hk2.
    - apply Hmin_le. now apply nth_In. }
  rewrite at_nat_ok by lia. cbn [Py.bind].
  set (m := map (fun x => Np.Rltb x (C0 - (C0 - lowest) / 2)) ccf_val).
  destruct (in_dec bool_dec true m) as [Hin|Hnin].
  - left. destruct (first_where_exists m 0 Hin) as [k Ek2].
    unfold Np.where_true. rewrite Ek2. cbn [Py.bind].
    apply first_where_from in Ek2 as (_ & Hk & Hj). rewrite Nat.sub_0_r in Hk, Hj.
    assert (Hklen : (k < length ccf_val)%nat).
    { destruct (Nat.lt_ge_cases k (length ccf_val)) as [|Hge]; [assumption|].
      rewrite nth_overflow in Hk; [discriminate|]. unfold m. now rewrite length_map. }
    assert (Hnth : forall j, (j < length ccf_val)%nat ->
              nth j m false = Np.Rltb (nth j ccf_val 0) (C0 - (C0 - lowest) / 2)).
    { intros j Hjl. unfold m.
      rewrite (nth_indep _ false (Np.Rltb 0 (C0 - (C0 - lowest) / 2)))
        by now rewrite length_map.
      now rewrite (map_nth (fun x => Np.Rltb x (C0 - (C0 - lowest) / 2))). }
    assert (Hbelow : Spec.below_half_depth C0 lowest (nth k ccf_val 0)).
    { apply Rltb_true. now rewrite <- Hnth. }
    assert (Hkk : (k <= kmin)%nat).
    { destruct (Nat.le_gt_cases k kmin) as [|Hgt]; [assumption|exfalso].
      specialize (Hj kmin Hgt). rewrite Hnth in Hj by assumption.
      apply Rltb_false in Hj. rewrite Hval in Hj.
      unfold Spec.below_half_depth in Hbelow.
      specialize (Hmin_le _ (nth_In ccf_val 0 Hklen)). lra. }
    rewrite at_nat_ok by lia. cbn [Py.bind].
    exists kmin, k. repeat split; auto.
    + intros j Hjk Heq. specialize (Hk3 j Hjk). lra.
    + intros j Hjk Hb. specialize (Hj j Hjk). rewrite Hnth in Hj by lia.
      apply Rltb_false in Hj. unfold Spec.below_half_depth in Hb. lra.
  - right. split.
    + intros x Hx Hb. apply Hnin. unfold m. apply in_map_iff.
      exists x. split; [|assumption]. now apply Rltb_true.
    + unfold Np.where_true. now rewrite (first_where_none m 0 Hnin).
Qed.

Lemma max_of_is_max (a : list R) (m : R) : Spec.is_max a m -> Np.max a = Ok m.
Proof.
  intros [Hin Hle]. destruct (Np.max a) as [m'|e] eqn:E.
  - apply max_spec in E as [Hin' Hle']. f_equal.
    apply Rle_antisym; auto.
  - destruct a; [destruct Hin|discriminate].
Qed.

Lemma min_of_is_min (a : list R) (m : R) : Spec.is_min a m -> Np.min a = Ok m.
Proof.
  intros [Hin Hle]. destruct (Np.min a) as [m'|e] eqn:E.
  - apply min_spec in E as [Hin' Hle']. f_equal.
    apply Rle_antisym; auto.
  - destruct a; [destruct Hin|discriminate].
Qed.

(** Claim C3.  When some grid point has a CCF value below the half depth,
    the initial guess is exactly [C0 = max(ccf)], [a0 = C0 - min(ccf)],
    [b0] the grid velocity at the first index [kmin] of the minimum, and
    [c0 = 2 * (b0 - vrads[k])], where [k] is the first grid point whose CCF
    value is below [C0 - a0 / 2].  That point is never to the right of the
    minimum, and it is strictly to its left exactly when some point left of
    the minimum is below the half depth: [k] is then the first such point. *)
Theorem initial_guess_exact (vrads ccf_val : list R) (C0 lowest : R) :
  length vrads = length ccf_val ->
  Spec.is_max ccf_val C0 -> Spec.is_min ccf_val lowest ->
  (exists x, In x ccf_val /\ Spec.below_half_depth C0 lowest x) ->
  exists kmin k,
    Spec.first_index (fun x => x = lowest) ccf_val kmin /\
    Spec.first_index (Spec.below_half_depth C0 lowest) ccf_val k /\
    (k <= kmin)%nat /\
    ((k < kmin)%nat <->
     exists j, (j < kmin)%nat /\ Spec.below_half_depth C0 lowest (nth j ccf_val 0)) /\
    Data.initial_guess vrads ccf_val =
      Ok (C0, C0 - lowest, nth kmin vrads 0,
          2 * (nth kmin vrads 0 - nth k vrads 0)).
Proof.
  intros Hlen Hmax Hmin (x & Hx & Hb).
  destruct (initial_guess_cases vrads ccf_val C0 lowest Hlen
              (max_of_is_max _ _ Hmax) (min_of_is_min _ _ Hmin))
    as [(kmin & k & H1 & H2 & H3 & H4)|[Hnone _]].
  - exists kmin, k. split; [exact H1|]. split; [exact H2|]. split; [exact H3|].
    split.
    + destruct H2 as (Hk & Hbk & Hfirst). split.
      * intros Hlt. exists k. auto.
      * intros (j & Hj & Hbj).
        destruct (Nat.lt_ge_cases k kmin) as [|Hge]; [assumption|exfalso].
        apply (Hfirst j); [lia|assumption].
    + rewrite H4. do 2 f_equal. ring.
  - exfalso. exact (Hnone x Hx Hb).
Qed.

(** On a symmetric dip sampled at five velocities. *)
Lemma initial_guess_exact_witness :
  exists kmin k,
    Spec.first_index (fun x => x = 0) [1; 0.4; 0; 0.4; 1] kmin /\
    Spec.first_index (Spec.below_half_depth 1 0) [1; 0.4; 0; 0.4; 1] k /\
    (k <= kmin)%nat /\
    ((k < kmin)%nat <->
     exists j, (j < kmin)%nat /\
               Spec.below_half_depth 1 0 (nth j [1; 0.4; 0; 0.4; 1] 0)) /\
    Data.initial_guess [-2; -1; 0; 1; 2] [1; 0.4; 0; 0.4; 1] =
      Ok (1, 1 - 0, nth kmin [-2; -1; 0; 1; 2] 0,
          2 * (nth kmin [-2; -1; 0; 1; 2] 0 - nth k [-2; -1; 0; 1; 2] 0)).
Proof.
  apply (initial_guess_exact [-2; -1; 0; 1; 2] [1; 0.4; 0; 0.4; 1] 1 0).
  - reflexivity.
  - split; [simpl; auto|]. simpl. intros z [<-|[<-|[<-|[<-|[<-|[]]]]]]; lra.
  - split; [simpl; auto|]. simpl. intros z [<-|[<-|[<-|[<-|[<-|[]]]]]]; lra.
  - exists 0. split; [simpl; auto|]. unfold Spec.below_half_depth. lra.
Defined.

Section FitFacts.
Variable curve_fit :
  list R -> list R -> list R -> R * R * R * R ->
  result (R * R * R * R * list (list R)).

(** Claim C6.  The fit of one epoch (initial guess, then optimiser) fails
    exactly when no grid point has a CCF value below [C0 - a0 / 2], or the
    optimiser raises on the initial guess.  In the first case the exception
    is the [IndexError] of the half-depth lookup of line 223. *)
Theorem gaussian_fit_fails_iff (vrads ccf_val ccf_err : list R) (C0 lowest : R) :
  length vrads = length ccf_val ->
  Spec.is_max ccf_val C0 -> Spec.is_min ccf_val lowest ->
  ((exists e, Data.gaussian_fit curve_fit vrads ccf_val ccf_err = Raise e) <->
   ((forall x, In x ccf_val -> ~ Spec.below_half_depth C0 lowest x) \/
    (exists p0 e, Data.initial_guess vrads ccf_val = Ok p0 /\
                  curve_fit vrads ccf_val ccf_err p0 = Raise e))) /\
  ((forall x, In x ccf_val -> ~ Spec.below_half_depth C0 lowest x) ->
   Data.gaussian_fit curve_fit vrads ccf_val ccf_err = Raise IndexError).
Proof.
  intros Hlen Hmax Hmin. unfold Data.gaussian_fit.
  destruct (initial_guess_cases vrads ccf_val C0 lowest Hlen
              (max_of_is_max _ _ Hmax) (min_of_is_min _ _ Hmin))
    as [(kmin & k & H1 & H2 & H3 & H4)|[Hnone Hraise]].
  - rewrite H4. cbn [Py.bind]. split; [split|].
    + intros [e He]. right. eauto.
    + intros [Hnone|(p0 & e & Hp & He)].
      * exfalso. destruct H2 as (Hk & Hb & _).
        exact (Hnone _ (nth_In _ _ Hk) Hb).
      * injection Hp as <-. eauto.
    + intros Hnone. exfalso. destruct H2 as (Hk & Hb & _).
      exact (Hnone _ (nth_In _ _ Hk) Hb).
  - rewrite Hraise. cbn [Py.bind]. split; [split|]; eauto.
Qed.

End FitFacts.

(** On a flat CCF the fit fails whatever the optimiser does. *)
Lemma gaussian_fit_fails_iff_witness :
  Data.gaussian_fit (fun _ _ _ p0 => Ok (p0, [])) [-1; 0; 1] [1; 1; 1] [1; 1; 1]
    = Raise IndexError.
Proof.
  apply (gaussian_fit_fails_iff (fun _ _ _ p0 => Ok (p0, []))
           [-1; 0; 1] [1; 1; 1] [1; 1; 1] 1 1).
  - reflexivity.
  - split; [simpl; auto|]. simpl. intros z [<-|[<-|[<-|[]]]]; lra.
  - split; [simpl; auto|]. simpl. intros z [<-|[<-|[<-|[]]]]; lra.
  - simpl. unfold Spec.below_half_depth. intros z [<-|[<-|[<-|[]]]]; lra.
Defined.

(* ------------------------------------------------------------------ *)
(** ** The RV error *)

Lemma mapM_length {A B : Type} (f : A -> result B) (l : list A) :
  forall ys, mapM f l = Ok ys -> length ys = length l.
Proof.
  induction l as [|x l IH]; simpl; intros ys H.
  - now injection H as <-.
  - destruct (f x); [|discriminate]. destruct (mapM f l); [|discriminate].
    injection H as <-. simpl. f_equal. now apply IH.
Qed.

Lemma list_as_map {A : Type} (d : A) (l : list A) :
  l = map (fun j => nth j l d) (seq 0 (length l)).
Proof.
  induction l as [|x l IH]; simpl; [reflexivity|].
  f_equal. rewrite <- seq_shift, map_map. exact IH.
Qed.

Lemma map3_seq {A B C D : Type} (f : A -> B -> C) (g : C -> D)
    (a : nat -> A) (b : nat -> B) (l : list nat) :
  map g (Np.map2 f (map a l) (map b l)) = map (fun j => g (f (a j) (b j))) l.
Proof. now rewrite map2_map, map_map. Qed.

Lemma initial_guess_two_points (vrads ccf_val : list R) p0 :
  length vrads = length ccf_val ->
  Data.initial_guess vrads ccf_val = Ok p0 -> (2 <= length ccf_val)%nat.
Proof.
  intros Hlen H. destruct ccf_val as [|x [|y t]]; simpl; try lia; exfalso.
  - discriminate.
  - destruct vrads as [|v [|]]; try discriminate.
    revert H. unfold Data.initial_guess. cbn.
    unfold Np.Rltb. destruct (Rlt_dec x (x - (x - x) / 2)); [lra|discriminate].
Qed.

Lemma vrad_error_ok (vrads ccf_val ccf_err : list R) :
  length ccf_val = length vrads -> length ccf_err = length vrads ->
  (2 <= length vrads)%nat ->
  Data.vrad_error vrads ccf_val ccf_err = Ok (Spec.rv_error vrads ccf_val ccf_err).
Proof.
  intros L1 L2 Hn. unfold Data.vrad_error, Np.gradient.
  rewrite L1. destruct (Nat.ltb_spec (length vrads) 2) as [|_]; [lia|].
  cbn [Py.bind]. unfold Spec.rv_error. do 3 f_equal.
  rewrite (list_as_map 0 ccf_err) at 1. rewrite L2.
  rewrite map2_map, map3_seq, sum_Rsum. f_equal.
  apply map_ext. intros j. unfold Spec.dv_dccf, Rdiv.
  rewrite !Rmult_1_l, pow_inv. rewrite Rmult_assoc. reflexivity.
Qed.

Section EpochFacts.
Variable curve_fit :
  list R -> list R -> list R -> R * R * R * R ->
  result (R * R * R * R * list (list R)).

(** Claim C2.  Whenever the CCF of an epoch is computed and its fit
    succeeds, the reported RV error is
    [1 / sqrt (sum_j (1 / |ccf_err_j * dv_dccf_j|) ^ 2)], with [dv_dccf_j]
    the ratio of the finite-difference gradient of the velocity grid to that
    of the CCF values at [j].  The error depends neither on the fitted
    parameters nor on the covariance the optimiser returns: the statement
    holds for every optimiser [curve_fit]. *)
Theorem rv_error_inverse_quadrature
    (wave : list R) (flux_val flux_err : list (list R)) (wc w vrads : list R)
    (i : nat) (ccf_val ccf_err : list R)
    (popt : R * R * R * R) (pcov : list (list R)) :
  Data.ccf_epoch wave flux_val flux_err i wc w vrads = Ok (ccf_val, ccf_err) ->
  Data.gaussian_fit curve_fit vrads ccf_val ccf_err = Ok (popt, pcov) ->
  Data.process_epoch curve_fit wave flux_val flux_err wc w vrads i =
    Ok (snd (fst popt), Spec.rv_error vrads ccf_val ccf_err, snd popt).
Proof.
  intros Hccf Hfit. unfold Data.process_epoch. rewrite Hccf. cbn [Py.bind].
  rewrite Hfit. cbn [Py.bind].
  unfold Data.ccf_epoch in Hccf. inv_bind Hccf. injection Hccf as <- <-.
  apply mapM_length in E.
  assert (L1 : length (map fst a) = length vrads) by now rewrite length_map.
  assert (L2 : length (map snd a) = length vrads) by now rewrite length_map.
  unfold Data.gaussian_fit in Hfit. inv_bind Hfit.
  apply initial_guess_two_points in E0; [|now rewrite L1].
  rewrite vrad_error_ok; try assumption; [|lia].
  destruct popt as [[[C a1] b] c]. reflexivity.
Qed.

End EpochFacts.

Lemma ccf_epoch_ok (wave : list R) (flux_val flux_err : list (list R)) (i : nat)
    (wc w vrads fv fe : list R) :
  wc <> [] -> length w = length wc ->
  nth_error flux_val i = Some fv -> nth_error flux_err i = Some fe ->
  length fv = length wave -> length fe = length wave ->
  (forall c v, In c wc -> In v vrads ->
     (Np.searchsorted_right wave (c * (1 + v / Data.c_light)) < length wave)%nat) ->
  Data.ccf_epoch wave flux_val flux_err i wc w vrads =
    Ok (map (Spec.ccf_value wave fv (combine wc w)) vrads,
        map (Spec.ccf_error wave fe (combine wc w)) vrads).
Proof.
  intros Hne Hl Hfv Hfe Lfv Lfe Hin. unfold Data.ccf_epoch.
  rewrite (mapM_map _ (fun v => (Spec.ccf_value wave fv (combine wc w) v,
                                 Spec.ccf_error wave fe (combine wc w) v))).
  - cbn [Py.bind]. now rewrite !map_map.
  - intros v Hv. apply ccf_point_ok; auto.
Qed.

Lemma demo_dip :
  Spec.ccf_value demo_wave [1; 0.5; 1] (combine [5000] [1]) 0 <
  Spec.ccf_value demo_wave [1; 0.5; 1] (combine [5000] [1]) 30.
Proof.
  unfold demo_wave. eval_spec. lra.
Qed.

Lemma initial_guess_total (vrads ccf_val : list R) :
  length vrads = length ccf_val ->
  (exists x y, In x ccf_val /\ In y ccf_val /\ x < y) ->
  exists p0, Data.initial_guess vrads ccf_val = Ok p0.
Proof.
  intros Hlen (x & y & Hx & Hy & Hxy).
  destruct (Np.max ccf_val) as [C0|] eqn:Emax; [|destruct ccf_val; [destruct Hx|discriminate]].
  destruct (Np.min ccf_val) as [lowest|] eqn:Emin; [|destruct ccf_val; [destruct Hx|discriminate]].
  destruct (initial_guess_cases vrads ccf_val C0 lowest Hlen Emax Emin)
    as [(kmin & k & _ & _ & _ & H)|[Hnone _]]; [eauto|exfalso].
  apply max_spec in Emax as [_ Hmax]. apply min_spec in Emin as [Hin Hmin].
  apply (Hnone lowest Hin). unfold Spec.below_half_depth.
  specialize (Hmax y Hy). specialize (Hmin x Hx). lra.
Qed.

(** On the sample spectrum, with an optimiser that always succeeds. *)
Lemma rv_error_inverse_quadrature_witness :
  Data.process_epoch demo_fit demo_wave demo_flux demo_ferr [5000] [1] demo_vrads 0 =
  Ok (0,
      Spec.rv_error demo_vrads
        (map (Spec.ccf_value demo_wave [1; 0.5; 1] (combine [5000] [1])) demo_vrads)
        (map (Spec.ccf_error demo_wave [0.1; 0.1; 0.1] (combine [5000] [1])) demo_vrads),
      1).
Proof.
  apply (rv_error_inverse_quadrature demo_fit demo_wave demo_flux demo_ferr
           [5000] [1] demo_vrads 0%nat _ _ (1, 0.5, 0, 1) []).
  - apply ccf_epoch_ok; try reflexivity; [discriminate|apply demo_in_bounds].
  - unfold Data.gaussian_fit.
    destruct (initial_guess_total demo_vrads
                (map (Spec.ccf_value demo_wave [1; 0.5; 1] (combine [5000] [1])) demo_vrads))
      as [p0 ->].
    + reflexivity.
    + eexists _, _. split; [right; left; reflexivity|].
      split; [right; right; left; reflexivity|]. apply demo_dip.
    + reflexivity.
Defined.

(* ------------------------------------------------------------------ *)
(** ** The spectral input *)

Lemma truth_cases (flat : list R) :
  Np.truth flat = Ok true \/ Np.truth flat = Ok false \/ Np.truth flat = Raise ValueError.
Proof.
  destruct flat as [|x [|y t]]; simpl; auto.
  destruct (Req_dec_T x 0); auto.
Qed.

Lemma truth1_cases (v : option (list R)) :
  (Data.truth1 v = Ok true /\ v <> None) \/ Data.truth1 v = Ok false \/
  Data.truth1 v = Raise ValueError.
Proof.
  destruct v as [a|]; simpl; [|auto].
  destruct (truth_cases a) as [H|[H|H]]; rewrite H; auto.
  left. split; [reflexivity|discriminate].
Qed.

Lemma truth2_cases (v : option (list (list R))) :
  (Data.truth2 v = Ok true /\ v <> None) \/ Data.truth2 v = Ok false \/
  Data.truth2 v = Raise ValueError.
Proof.
  destruct v as [a|]; simpl; [|auto].
  destruct (truth_cases (concat a)) as [H|[H|H]]; rewrite H; auto.
  left. split; [reflexivity|discriminate].
Qed.

Lemma read_spec_absent (d : Data.spec_dict) :
  Spec.absent (Some d) -> Data.read_spec (Some d) = Raise ValueError.
Proof.
  simpl. intros H. unfold Data.read_spec, Data.and_then.
  destruct (truth1_cases (Data.time d)) as [[-> H1]|[->| ->]]; try reflexivity.
  cbn [Py.bind].
  destruct (truth1_cases (Data.wave d)) as [[-> H2]|[->| ->]]; try reflexivity.
  cbn [Py.bind].
  destruct (truth2_cases (Data.flux_val d)) as [[-> H3]|[->| ->]]; try reflexivity.
  cbn [Py.bind].
  destruct (truth2_cases (Data.flux_err d)) as [[-> H4]|[->| ->]]; try reflexivity.
  tauto.
Qed.

Section InputCheck.
Variable curve_fit :
  list R -> list R -> list R -> R * R * R * R ->
  result (R * R * R * R * list (list R)).

(** Claim C8.  If one of [time], [wave], [flux_val], [flux_err] is absent,
    [compute_vrad_ccf] raises whatever the mask and the grid are: [KeyError]
    when [add_spec] was never called (the dictionary is empty), [ValueError]
    when an entry is [None].  Nothing is computed from the arrays that are
    present. *)
Theorem absent_array_raises (spec : option Data.spec_dict) (wc w vrads : list R) :
  Spec.absent spec ->
  Data.compute_vrad_ccf curve_fit spec wc w vrads =
    Raise (match spec with None => KeyError | Some _ => ValueError end).
Proof.
  intros H. unfold Data.compute_vrad_ccf, Data.prepare. destruct spec as [d|].
  - now rewrite (read_spec_absent d H).
  - reflexivity.
Qed.

End InputCheck.

(** [add_spec] called without flux errors. *)
Lemma absent_array_raises_witness :
  Data.compute_vrad_ccf demo_fit
    (Data.add_spec (Some [1]) (Some [5000]) (Some [[1]]) None None None None)
    [5000] [1] demo_vrads = Raise ValueError.
Proof.
  apply (absent_array_raises demo_fit
           (Data.add_spec (Some [1]) (Some [5000]) (Some [[1]]) None None None None)).
  simpl. auto.
Defined.

(* ------------------------------------------------------------------ *)
(** ** An empty filtered mask *)

Lemma select_all_false {A : Type} (a : list A) (p : A -> bool) :
  (forall x, In x a -> p x = false) -> Np.select a (map p a) = [].
Proof.
  intros H. rewrite select_filter.
  induction a as [|x a IH]; simpl; [reflexivity|].
  rewrite (H x (or_introl eq_refl)). apply IH. intros y Hy. apply H. now right.
Qed.

Lemma select_nil_length {A B : Type} (a : list A) (b : list B) (idx : list bool) :
  length a = length b -> Np.select a idx = [] -> Np.select b idx = [].
Proof.
  intros H E. apply length_zero_iff_nil.
  rewrite <- (select_length a b idx H), E. reflexivity.
Qed.

Lemma doppler_shift_cons (c : R) (wc : list R) (v : R) :
  Data.doppler_shift (c :: wc) v =
  Ok (map (fun x => x * (1 + v / Data.c_light)) (c :: wc)).
Proof. reflexivity. Qed.

(** When no line passes the test of lines 171-172, the pre-filter either
    fails in the Doppler shift of an empty mask or returns the empty mask. *)
Lemma prefilter_empty (wave vrads wc w : list R) (vmin vmax wave_min wave_max : R) :
  Np.min vrads = Ok vmin -> Np.max vrads = Ok vmax ->
  Np.min wave = Ok wave_min -> Np.max wave = Ok wave_max ->
  length w = length wc ->
  (forall c, In c wc -> Spec.retained wave_min wave_max vmin vmax c = false) ->
  Data.prefilter wave vrads wc w =
    match wc with [] => Raise DomainError | _ :: _ => Ok ([], []) end.
Proof.
  intros Evmin Evmax Ewmin Ewmax Hlen Hout. unfold Data.prefilter.
  rewrite Evmin. cbn [Py.bind]. destruct wc as [|c0 wc']; [reflexivity|].
  rewrite doppler_shift_cons.
  cbn [Py.bind]. rewrite Ewmin, Evmax. cbn [Py.bind].
  rewrite doppler_shift_cons. cbn [Py.bind]. rewrite Ewmax. cbn [Py.bind].
  remember (c0 :: wc') as wc eqn:Ewc.
  rewrite !map_map, map2_map.
  change (fun x : R => Np.Rltb wave_min (x * (1 + vmin / Data.c_light)) &&
                       Np.Rltb (x * (1 + vmax / Data.c_light)) wave_max)
    with (Spec.retained wave_min wave_max vmin vmax).
  unfold Np.bool_index. rewrite length_map, Hlen, Nat.eqb_refl. cbn [Py.bind].
  rewrite (select_all_false wc _ Hout).
  rewrite (select_nil_length wc w _ (eq_sym Hlen) (select_all_false wc _ Hout)).
  subst wc. reflexivity.
Qed.

Lemma read_spec_one_epoch spec t wv fv fe tu :
  Data.read_spec spec = Ok (t, wv, fv, fe, tu) -> fv <> [] /\ wv <> [].
Proof.
  unfold Data.read_spec. destruct spec as [d|]; [|discriminate].
  intros H. inv_bind H.
  destruct a; simpl in H; [|discriminate].
  destruct (Data.time d) as [t'|], (Data.wave d) as [w'|],
    (Data.flux_val d) as [f'|], (Data.flux_err d) as [e'|]; try discriminate H.
  injection H as <- <- <- <- <-.
  unfold Data.and_then, Data.truth1, Data.truth2 in E.
  destruct (Np.truth t') as [[]|]; simpl in E; try discriminate.
  destruct (Np.truth w') as [[]|] eqn:Tw; simpl in E; try discriminate.
  destruct (Np.truth (concat f')) as [[]|] eqn:Tf; simpl in E; try discriminate.
  split; intros ->; simpl in *; discriminate.
Qed.

Section EmptyMask.
Variable curve_fit :
  list R -> list R -> list R -> R * R * R * R ->
  result (R * R * R * R * list (list R)).

(** Claim C5, as the code has it.  If no mask line has its shifted centre
    above [min(wave)] at the lowest grid velocity and below [max(wave)] at
    the highest, the filtering of lines 170-178 does not fail on a mask
    that is not empty: it returns the empty filtered mask, and nothing
    tests it before the loop over the epochs.  The processing of every
    epoch then raises [DomainError], at the Doppler shift of the empty mask
    for the first trial velocity (line 201).  Hence, whenever the spectral
    arrays are accepted by the input check of lines 99-119,
    [compute_vrad_ccf] raises [DomainError] and returns no radial
    velocity. *)
Theorem empty_filtered_mask_raises
    (wave : list R) (flux_val flux_err : list (list R)) (wc w vrads : list R)
    (vmin vmax wave_min wave_max : R) :
  length w = length wc ->
  Spec.is_min vrads vmin -> Spec.is_max vrads vmax ->
  Spec.is_min wave wave_min -> Spec.is_max wave wave_max ->
  (forall c, In c wc ->
     ~ (wave_min < c * (1 + vmin / Data.c_light) /\
        c * (1 + vmax / Data.c_light) < wave_max)) ->
  Data.prefilter wave vrads wc w =
    match wc with [] => Raise DomainError | _ :: _ => Ok ([], []) end /\
  (forall i, Data.process_epoch curve_fit wave flux_val flux_err [] [] vrads i =
             Raise DomainError) /\
  (forall spec t tu,
     Data.read_spec spec = Ok (t, wave, flux_val, flux_err, tu) ->
     Data.compute_vrad_ccf curve_fit spec wc w vrads = Raise DomainError /\
     (wc <> [] ->
      Data.prepare spec wc w vrads = Ok (t, wave, flux_val, flux_err, tu, [], []))).
Proof.
  intros Hlen Hvmin Hvmax Hwmin Hwmax Hout.
  assert (Hret : forall c, In c wc ->
            Spec.retained wave_min wave_max vmin vmax c = false).
  { intros c Hc. unfold Spec.retained. apply andb_false_iff.
    destruct (Rlt_dec wave_min (c * (1 + vmin / Data.c_light))) as [H1|H1].
    - right. apply Rltb_false. apply Rnot_lt_le. intros H2. apply (Hout c Hc). auto.
    - left. apply Rltb_false. now apply Rnot_lt_le. }
  pose proof (prefilter_empty wave vrads wc w vmin vmax wave_min wave_max
                (min_of_is_min _ _ Hvmin) (max_of_is_max _ _ Hvmax)
                (min_of_is_min _ _ Hwmin) (max_of_is_max _ _ Hwmax) Hlen Hret) as Hpre.
  assert (Hepoch : forall i,
            Data.process_epoch curve_fit wave flux_val flux_err [] [] vrads i =
            Raise DomainError).
  { intros i. destruct vrads as [|v vs]; [destruct Hvmin as [[] _]|]. reflexivity. }
  split; [exact Hpre|]. split; [exact Hepoch|].
  intros spec t tu Hspec.
  destruct (read_spec_one_epoch _ _ _ _ _ _ Hspec) as [Hfv _].
  unfold Data.compute_vrad_ccf, Data.prepare. rewrite Hspec. cbn [Py.bind].
  rewrite Hpre. destruct wc as [|c0 wc'].
  - split; [reflexivity|congruence].
  - cbn [Py.bind]. split; [|intros _; reflexivity].
    destruct flux_val as [|row rows]; [congruence|].
    cbn [length seq mapM]. now rewrite Hepoch.
Qed.

End EmptyMask.

(** On the one-pixel spectrum at 5000 with a single line at 6000. *)
Lemma empty_filtered_mask_raises_witness :
  Data.compute_vrad_ccf demo_fit demo_spec [6000] [1] demo_vrads = Raise DomainError.
Proof.
  refine (proj1 (proj2 (proj2
            (empty_filtered_mask_raises demo_fit [5000] [[1]] [[0.1]] [6000] [1]
               demo_vrads (-30) 30 5000 5000 _ _ _ _ _ _)) demo_spec [1] None _)).
  - reflexivity.
  - split; [simpl; auto|]. simpl. intros z [<-|[<-|[<-|[]]]]; lra.
  - split; [simpl; auto|]. simpl. intros z [<-|[<-|[<-|[]]]]; lra.
  - split; [simpl; auto|]. simpl. intros z [<-|[]]; lra.
  - split; [simpl; auto|]. simpl. intros z [<-|[]]; lra.
  - intros c [<-|[]] [H1 H2]. unfold Data.c_light in *. lra.
  - unfold Data.read_spec, Data.and_then. eval_R. reflexivity.
Defined.

(** Claim C5, as stated, fails.  The only line of the mask, at 6000, is
    outside the one-pixel spectrum at 5000 at both ends of the grid, the
    filtered mask is empty, and yet nothing is raised before the loop over
    the epochs: the preparation returns normally, and the exception comes
    out of the processing of the first epoch. *)
Lemma empty_mask_reaches_epoch_loop :
  (forall c, In c [6000] ->
     ~ (5000 < c * (1 + -30 / Data.c_light) /\ c * (1 + 30 / Data.c_light) < 5000)) /\
  Data.prepare demo_spec [6000] [1] demo_vrads =
    Ok ([1], [5000], [[1]], [[0.1]], None, [], []) /\
  ~ Spec.fails_before_epochs demo_spec [6000] [1] demo_vrads /\
  Data.process_epoch demo_fit [5000] [[1]] [[0.1]] [] [] demo_vrads 0 =
    Raise DomainError.
Proof.
  assert (Hprep : Data.prepare demo_spec [6000] [1] demo_vrads =
                  Ok ([1], [5000], [[1]], [[0.1]], None, [], [])).
  { unfold Data.prepare, Data.read_spec, Data.and_then, Data.prefilter, demo_vrads.
    eval_R. reflexivity. }
  split; [|split; [exact Hprep|split; [|reflexivity]]].
  - intros c [<-|[]] [H1 H2]. unfold Data.c_light in *. lra.
  - intros [e He]. rewrite Hprep in He. discriminate.
Qed.

(* ------------------------------------------------------------------ *)
(** ** The component models *)

Lemma Rsum_perm (l l' : list R) : Permutation l l' -> Spec.Rsum l = Spec.Rsum l'.
Proof.
  induction 1; simpl; lra.
Qed.

Lemma composite_perm (cs cs' : list Spec.component) (f : R) :
  Permutation cs cs' -> Spec.composite cs f = Spec.composite cs' f.
Proof. intros H. apply Rsum_perm. now apply Permutation_map. Qed.

Lemma component_step_entry (freq : list R) (g : R -> R) (cur : option Star.value)
    (c : Spec.component) :
  exists v,
    Star.component_step freq (map g freq, cur) (Spec.entry c) =
    Ok (map (fun f => g f + Spec.density c f) freq, Some v).
Proof.
  destruct c as [c0|c0 c1 c2|c0 c1 c2]; eexists; unfold Star.component_step;
    cbn; rewrite ?map_map, ?map2_map; reflexivity.
Qed.

Lemma component_loop_entries (freq : list R) (cs : list (string * Spec.component)) :
  forall (g : R -> R) (cur : option Star.value),
  exists cur',
    Star.component_loop freq (map g freq, cur) (Spec.entries cs) =
    Ok (map (fun f => g f + Spec.composite (map snd cs) f) freq, cur').
Proof.
  induction cs as [|[name c] cs IH]; intros g cur.
  - exists cur. simpl. f_equal. f_equal. apply map_ext. intros f.
    unfold Spec.composite. simpl. lra.
  - unfold Spec.entries. cbn [map Star.component_loop fst snd].
    fold (Spec.entries cs).
    destruct (component_step_entry freq g cur c) as [v ->]. cbn [Py.bind].
    destruct (IH (fun f => g f + Spec.density c f) (Some v)) as [cur' ->].
    exists cur'. do 2 f_equal. apply map_ext. intros f.
    unfold Spec.composite. simpl. lra.
Qed.

Lemma vpsd_tot_entries (freq : list R) (cs : list (string * Spec.component)) :
  Star.vpsd_tot freq (Spec.entries cs) =
  Ok (map (Spec.composite (map snd cs)) freq).
Proof.
  unfold Star.vpsd_tot.
  destruct (component_loop_entries freq cs (fun _ => 0) None) as [cur' ->].
  cbn. f_equal. apply map_ext. intros f. lra.
Qed.

(** The power of numpy against the real power. *)
Lemma Int_part_IZR (n : Z) : Int_part (IZR n) = n.
Proof.
  unfold Int_part.
  assert (H : (n + 1)%Z = up (IZR n)).
  { apply tech_up; rewrite plus_IZR; lra. }
  rewrite <- H. lia.
Qed.

Lemma power_pos (x y : R) : 0 < x -> Np.power x y = exp (y * ln x).
Proof.
  intros Hx. unfold Np.power. destruct (Req_dec_T y 0) as [->|_].
  - now rewrite Rmult_0_l, exp_0.
  - destruct (Rlt_dec 0 x); [reflexivity|contradiction].
Qed.

Lemma power_neg_int (x : R) (n : Z) : x < 0 -> Np.power x (IZR n) = powerRZ x n.
Proof.
  intros Hx. unfold Np.power. destruct (Req_dec_T (IZR n) 0) as [E|_].
  - apply eq_IZR_R0 in E. now subst n.
  - destruct (Rlt_dec 0 x); [lra|].
    destruct (Req_dec_T x 0); [lra|].
    rewrite Int_part_IZR.
    destruct (Req_dec_T (IZR n) (IZR n)); [reflexivity|contradiction].
Qed.

Lemma power_zero (y : R) : 0 < y -> Np.power 0 y = 0.
Proof.
  intros Hy. unfold Np.power. destruct (Req_dec_T y 0); [lra|].
  destruct (Rlt_dec 0 0); [lra|].
  destruct (Req_dec_T 0 0); [reflexivity|contradiction].
Qed.

(** Claim C7.  Wherever the formulas of the components have a value, the
    array [vpsd_tot] is at every frequency the sum of the densities of the
    listed components, and it does not depend on their order.  The density
    is [c0] for [Constant], [c0 * c1 ^ 2 / (c1 ^ 2 + (f - c2) ^ 2)] for
    [Lorentz] and [c0 / (1 + (c1 * f) ** c2)] for [Harvey], where the
    power is [exp (c2 * ln (c1 * f))] for a positive base, the integer
    power for a negative base with an integer exponent, and zero for the
    base zero with a positive exponent.  [Constant(2)] with
    [Lorentz(1, 1, 0)] gives [3] at [f = 0]. *)
Theorem composite_is_sum_of_components
    (freq : list R) (cs : list (string * Spec.component)) :
  (forall c f, In c (map snd cs) -> In f freq -> Spec.defined_at c f) ->
  Star.vpsd_tot freq (Spec.entries cs) =
    Ok (map (fun f => Spec.Rsum (map (fun c => Spec.density c f) (map snd cs))) freq) /\
  (forall cs', Permutation cs cs' ->
     Star.vpsd_tot freq (Spec.entries cs') = Star.vpsd_tot freq (Spec.entries cs)) /\
  (forall f c0 c1 c2,
     Spec.density (Spec.Constant c0) f = c0 /\
     Spec.density (Spec.Lorentz c0 c1 c2) f = c0 * c1 ^ 2 / (c1 ^ 2 + (f - c2) ^ 2) /\
     (0 < c1 * f ->
      Spec.density (Spec.Harvey c0 c1 c2) f = c0 / (1 + exp (c2 * ln (c1 * f)))) /\
     (forall n : Z, c1 * f < 0 ->
      Spec.density (Spec.Harvey c0 c1 (IZR n)) f = c0 / (1 + powerRZ (c1 * f) n)) /\
     (c1 * f = 0 -> 0 < c2 -> Spec.density (Spec.Harvey c0 c1 c2) f = c0 / (1 + 0))) /\
  Star.vpsd_tot [0]
    (Spec.entries [("white"%string, Spec.Constant 2);
                    ("peak"%string, Spec.Lorentz 1 1 0)]) = Ok [3].
Proof.
  intros _.
  split; [apply vpsd_tot_entries|]. split; [|split].
  - intros cs' Hp. rewrite !vpsd_tot_entries. f_equal. apply map_ext. intros f.
    apply composite_perm. apply Permutation_map. now apply Permutation_sym.
  - intros f c0 c1 c2. cbn [Spec.density].
    split; [reflexivity|]. split; [reflexivity|]. split; [|split].
    + intros Hpos. now rewrite (power_pos _ c2 Hpos).
    + intros n Hneg. now rewrite (power_neg_int _ n Hneg).
    + intros Hzero Hc2. now rewrite Hzero, (power_zero c2 Hc2).
  - rewrite vpsd_tot_entries. unfold Spec.composite. simpl. do 2 f_equal. field.
Qed.

(** A constant and a Harvey component whose base [c1 * f] is negative, with
    the exponent [2]. *)
Lemma composite_is_sum_of_components_witness :
  Star.vpsd_tot [2]
    (Spec.entries [("white"%string, Spec.Constant 2);
                   ("granulation"%string, Spec.Harvey 1 (-1) 2)]) =
  Ok (map (fun f => Spec.Rsum (map (fun c => Spec.density c f)
                                   [Spec.Constant 2; Spec.Harvey 1 (-1) 2])) [2]).
Proof.
  refine (proj1 (composite_is_sum_of_components [2]
                   [("white"%string, Spec.Constant 2);
                    ("granulation"%string, Spec.Harvey 1 (-1) 2)] _)).
  intros c f [<-|[<-|[]]] [<-|[]]; [exact I|].
  split.
  - right. right. right. split; [lra|].
    unfold Np.is_integer. now rewrite (Int_part_IZR 2).
  - rewrite (power_neg_int (-1 * 2) 2) by lra. simpl. lra.
Defined.

(* ------------------------------------------------------------------ *)
(** ** The logarithmic bins of [compute_vpsd] *)

Section Binning.

Lemma get_first (a : list R) : a <> [] -> Np.get a 0 = Ok (nth 0 a 0).
Proof.
  intros H. apply (get_nat a 0). destruct a; [congruence|simpl; lia].
Qed.

Lemma nth_last (a : list R) : nth (length a - 1) a 0 = last a 0.
Proof.
  induction a as [|x a IH]; [reflexivity|].
  destruct a as [|y a]; [reflexivity|].
  change (last (x :: y :: a) 0) with (last (y :: a) 0). rewrite <- IH.
  simpl. now rewrite Nat.sub_0_r.
Qed.

Lemma get_last (a : list R) : a <> [] -> Np.get a (-1) = Ok (last a 0).
Proof.
  intros H. unfold Np.get.
  assert (Hn : (0 < length a)%nat) by (destruct a; [congruence|simpl; lia]).
  replace ((0 <=? -1) && (-1 <? Z.of_nat (length a)))%Z with false by reflexivity.
  replace ((- Z.of_nat (length a) <=? -1) && (-1 <? 0))%Z with true.
  - f_equal. replace (Z.to_nat (-1 + Z.of_nat (length a))) with (length a - 1)%nat by lia.
    apply nth_last.
  - symmetry. apply andb_true_iff. split; [apply Z.leb_le; lia|reflexivity].
Qed.

Lemma map2_tl_removelast {A B : Type} (f : A -> A -> B) (d : A) (t : list A) :
  forall x,
    Np.map2 f (tl (x :: t)) (removelast (x :: t)) =
    map (fun i => f (nth (i + 1) (x :: t) d) (nth i (x :: t) d)) (seq 0 (length t)).
Proof.
  induction t as [|y t IH]; intros x; [reflexivity|].
  specialize (IH y).
  change (removelast (x :: y :: t)) with (x :: removelast (y :: t)).
  cbn [tl Np.map2 length seq map]. f_equal.
  rewrite <- seq_shift, map_map. simpl tl in IH. rewrite IH.
  apply map_ext. intros i. replace (S i + 1)%nat with (S (i + 1)) by lia.
  reflexivity.
Qed.

Lemma where_from_ge (m : list bool) : forall s k, In k (Np.where_from s m) -> (s <= k)%nat.
Proof.
  induction m as [|b m IH]; intros s k; simpl; [tauto|].
  destruct b; simpl; [intros [<-|H]|intros H]; try lia; apply IH in H; lia.
Qed.

Lemma existsb_eqb_In (k : nat) (l : list nat) : existsb (Nat.eqb k) l = true <-> In k l.
Proof.
  rewrite existsb_exists. split.
  - intros (x & Hx & E). apply Nat.eqb_eq in E. now subst.
  - intros H. exists k. split; [assumption|apply Nat.eqb_refl].
Qed.

Lemma delete_from_select {A : Type} (l : list A) :
  forall (m : list bool) (s : nat) (idxs : list nat),
    length l = length m ->
    (forall k, (s <= k)%nat -> (In k idxs <-> In k (Np.where_from s m))) ->
    map snd (filter (fun p => negb (existsb (Nat.eqb (fst p)) idxs))
                    (combine (seq s (length l)) l)) =
    Np.select l (map negb m).
Proof.
  induction l as [|x l IH]; intros [|b m] s idxs Hlen Hidx; simpl in *;
    try discriminate; [reflexivity|].
  assert (Hs : existsb (Nat.eqb s) idxs = b).
  { apply eq_true_iff_eq. rewrite existsb_eqb_In, (Hidx s (le_n s)).
    destruct b; simpl; split; auto; try discriminate.
    intros H. apply where_from_ge in H. lia. }
  rewrite Hs.
  assert (Hrest : map snd (filter (fun p => negb (existsb (Nat.eqb (fst p)) idxs))
                                  (combine (seq (S s) (length l)) l)) =
                  Np.select l (map negb m)).
  { apply IH; [lia|]. intros k Hk. rewrite (Hidx k) by lia.
    destruct b; simpl; [|tauto]. split; [intros [H|H]; [lia|assumption]|auto]. }
  destruct b; simpl; now rewrite Hrest.
Qed.

Lemma delete_where {A : Type} (l : list A) (m : list bool) :
  length l = length m ->
  Np.delete l (Np.where_true m) = Np.select l (map negb m).
Proof.
  intros H. unfold Np.delete, Np.where_true.
  apply delete_from_select; [assumption|tauto].
Qed.

Lemma select_map {A B : Type} (F : A -> B) (p : A -> bool) (s : list A) :
  Np.select (map F s) (map p s) = map F (filter p s).
Proof.
  induction s as [|x s IH]; simpl; [reflexivity|].
  destruct (p x); simpl; now rewrite IH.
Qed.

Lemma bin_mask_length (freq : list R) (lo hi : R) :
  length (Star.bin_mask freq lo hi) = length freq.
Proof. apply length_map. Qed.

(** Boolean indexing with the mask of a bin keeps the powers whose frequency
    lies strictly between the two edges. *)
Lemma select_bin_mask (freq vps : list R) (lo hi : R) :
  length vps = length freq ->
  Np.select vps (Star.bin_mask freq lo hi) =
  map snd (filter (fun fp => Spec.inside lo hi (fst fp)) (combine freq vps)).
Proof.
  revert vps; induction freq as [|f freq IH]; intros [|p vps] H; simpl in *;
    try discriminate; [reflexivity|].
  injection H as H. rewrite (IH vps H).
  unfold Np.Rltb, Spec.inside.
  destruct (Rlt_dec lo f), (Rlt_dec f hi); reflexivity.
Qed.

Lemma inside_iff (lo hi f : R) : Spec.inside lo hi f = true <-> lo < f < hi.
Proof.
  unfold Spec.inside. destruct (Rlt_dec lo f), (Rlt_dec f hi); split;
    try discriminate; try tauto; intros [? ?]; contradiction.
Qed.

(** A bin is not empty exactly when some frequency lies strictly between
    its edges. *)
Lemma bin_nonempty_iff (e : nat -> R) (freq vps : list R) (i : nat) :
  length vps = length freq ->
  (Spec.bin e freq vps i <> [] <->
   exists k, (k < length freq)%nat /\ e i < nth k freq 0 < e (i + 1)%nat).
Proof.
  intros Hlen. unfold Spec.bin. split.
  - intros H.
    destruct (filter _ (combine freq vps)) as [|[f p] t] eqn:E; [now elim H|].
    assert (Hin : In (f, p) (filter (fun fp => Spec.inside (e i) (e (i + 1)%nat) (fst fp))
                               (combine freq vps))) by (rewrite E; now left).
    apply filter_In in Hin as [Hin Hf]. apply in_combine_l in Hin.
    destruct (In_nth _ _ 0 Hin) as (k & Hk & Ek).
    exists k. split; [assumption|]. rewrite Ek. now apply inside_iff.
  - intros (k & Hk & Hin) E. apply map_eq_nil in E.
    assert (Hmem : In (nth k freq 0, nth k vps 0)
                      (filter (fun fp => Spec.inside (e i) (e (i + 1)%nat) (fst fp))
                              (combine freq vps))).
    { apply filter_In. split; [|now apply inside_iff].
      rewrite <- combine_nth by (symmetry; exact Hlen).
      apply nth_In. rewrite length_combine. lia. }
    rewrite E in Hmem. destruct Hmem.
Qed.

End Binning.

Section Vpsd.

Variable log10 : R -> R.
Variable pow10 : R -> R.

Lemma edges_length (f0 fN : R) : length (Star.freq_bin log10 pow10 f0 fN) = 51%nat.
Proof.
  unfold Star.freq_bin, Np.linspace.
  rewrite length_map, length_app, length_map, length_seq. reflexivity.
Qed.

(** Edge [i] of the bins, [i <= 50]. *)
Lemma nth_freq_bin (f0 fN : R) (i : nat) :
  (i <= 50)%nat ->
  nth i (Star.freq_bin log10 pow10 f0 fN) 0 = Spec.edge log10 pow10 f0 fN i.
Proof.
  intros Hi. unfold Star.freq_bin, Spec.edge.
  rewrite (nth_indep _ 0 (pow10 0))
    by (fold (Star.freq_bin log10 pow10 f0 fN); rewrite edges_length; lia).
  rewrite map_nth. f_equal. unfold Np.linspace.
  change (INR (51 - 1)) with (INR 50).
  assert (H50 : INR 50 = 50) by (simpl; lra).
  destruct (Nat.eq_dec i 50) as [->|Hne].
  - rewrite app_nth2; rewrite length_map, length_seq; [|lia].
    simpl nth. rewrite H50. field.
  - rewrite app_nth1 by (rewrite length_map, length_seq; lia).
    rewrite (nth_indep _ 0 ((fun k => INR k * ((log10 fN - log10 f0) / INR 50)
                                      + log10 f0) 0%nat))
      by (rewrite length_map, length_seq; lia).
    rewrite (map_nth (fun k => INR k * ((log10 fN - log10 f0) / INR 50)
                               + log10 f0)).
    rewrite seq_nth by lia. rewrite H50. simpl. ring.
Qed.

Lemma vps_avg_ok (freq vps edges : list R) (e : nat -> R) (l : list nat) :
  length vps = length freq ->
  (forall i, In i l -> nth i edges 0 = e i /\ nth (i + 1) edges 0 = e (i + 1)%nat) ->
  mapM (Star.vps_avg_at freq vps edges) l = Ok (map (Spec.bin_average e freq vps) l).
Proof.
  intros H He. apply mapM_map. intros i Hi.
  unfold Star.vps_avg_at, Np.bool_index.
  rewrite bin_mask_length, H, Nat.eqb_refl. cbn [Py.bind].
  destruct (He i Hi) as [-> ->]. rewrite select_bin_mask by assumption.
  fold (Spec.bin e freq vps i). unfold Spec.bin_average.
  destruct (Spec.bin e freq vps i) as [|p b]; [reflexivity|].
  cbn [length Nat.eqb]. do 2 f_equal.
  unfold Np.mean, Spec.average. now rewrite sum_Rsum.
Qed.

Lemma map2_adjacent {A B : Type} (f : A -> A -> B) (d : A) (e : list A) (n : nat) :
  length e = S n ->
  Np.map2 f (tl e) (removelast e) =
  map (fun i => f (nth (i + 1) e d) (nth i e d)) (seq 0 n).
Proof.
  destruct e as [|x t]; [discriminate|]. intros [= <-].
  apply map2_tl_removelast.
Qed.

Lemma valid_bin_nonempty (e : nat -> R) (freq vps : list R) (i : nat) :
  In i (Spec.valid_bins e freq vps) <->
  (i < 50)%nat /\ Spec.bin e freq vps i <> [].
Proof.
  unfold Spec.valid_bins. rewrite filter_In, in_seq.
  destruct (Spec.bin e freq vps i); split.
  - intros [_ H]. discriminate.
  - intros [_ H]. now elim H.
  - intros [H _]. split; [lia|discriminate].
  - intros [H _]. split; [lia|reflexivity].
Qed.

Lemma compute_vpsd_ok (freq vps phi : list R) (win_area : R) :
  freq <> [] -> length vps = length freq ->
  let e := Spec.edge log10 pow10 (nth 0 freq 0) (last freq 0) in
  Star.compute_vpsd log10 pow10 freq vps phi win_area =
    Ok {| Star.freq := freq; Star.vps := vps;
          Star.vpsd := map (fun p => p / win_area) vps;
          Star.phase := phi;
          Star.freq_avg := map (Spec.midpoint e) (Spec.valid_bins e freq vps);
          Star.vps_avg :=
            map (fun i => Some (Spec.average (Spec.bin e freq vps i)))
                (Spec.valid_bins e freq vps);
          Star.vpsd_avg :=
            map (fun i => Some (Spec.average (Spec.bin e freq vps i) / win_area))
                (Spec.valid_bins e freq vps) |}.
Proof.
  intros Hne Hlen e. unfold Star.compute_vpsd.
  rewrite (get_first freq Hne). cbn [Py.bind].
  rewrite (get_last freq Hne). cbn [Py.bind]. cbv zeta.
  set (fb := Star.freq_bin log10 pow10 (nth 0 freq 0) (last freq 0)).
  rewrite (map2_adjacent _ 0 fb 50) by apply edges_length.
  rewrite length_map, length_seq.
  assert (Hnth : forall i, In i (seq 0 50) ->
            nth i fb 0 = e i /\ nth (i + 1) fb 0 = e (i + 1)%nat).
  { intros i Hi. apply in_seq in Hi. unfold fb, e.
    rewrite !nth_freq_bin by lia. auto. }
  rewrite (vps_avg_ok freq vps fb e _ Hlen Hnth). cbn [Py.bind].
  rewrite !delete_where by (now rewrite !length_map).
  rewrite !map_map, !select_map.
  assert (Hvalid : filter (fun x => negb (Star.isnan (Spec.bin_average e freq vps x)))
                     (seq 0 50) = Spec.valid_bins e freq vps).
  { unfold Spec.valid_bins. apply filter_ext. intros i.
    unfold Spec.bin_average. destruct (Spec.bin e freq vps i); reflexivity. }
  rewrite Hvalid.
  assert (Hmid : map (fun i => (nth (i + 1) fb 0 + nth i fb 0) / 2)
                     (Spec.valid_bins e freq vps) =
                 map (Spec.midpoint e) (Spec.valid_bins e freq vps)).
  { apply map_ext_in. intros i Hi. apply valid_bin_nonempty in Hi as [Hi _].
    destruct (Hnth i ltac:(apply in_seq; lia)) as [-> ->].
    unfold Spec.midpoint. lra. }
  assert (Havg : map (Spec.bin_average e freq vps) (Spec.valid_bins e freq vps) =
                 map (fun i => Some (Spec.average (Spec.bin e freq vps i)))
                     (Spec.valid_bins e freq vps)).
  { apply map_ext_in. intros i Hi. apply valid_bin_nonempty in Hi as [_ Hb].
    unfold Spec.bin_average.
    destruct (Spec.bin e freq vps i); [congruence|reflexivity]. }
  rewrite Hmid, Havg, map_map. reflexivity.
Qed.

End Vpsd.

Lemma nth_bin_mask (freq : list R) (lo hi : R) (k : nat) :
  (k < length freq)%nat ->
  nth k (Star.bin_mask freq lo hi) false =
  Np.Rltb lo (nth k freq 0) && Np.Rltb (nth k freq 0) hi.
Proof.
  intros Hk. unfold Star.bin_mask.
  rewrite (nth_indep _ false ((fun f => Np.Rltb lo f && Np.Rltb f hi) 0))
    by now rewrite length_map.
  now rewrite (map_nth (fun f => Np.Rltb lo f && Np.Rltb f hi)).
Qed.

(** In an increasing array the first element is the smallest and the last
    one the largest. *)
Lemma sorted_ends (a : list R) :
  a <> [] -> StronglySorted Rlt a ->
  Spec.is_min a (nth 0 a 0) /\ Spec.is_max a (last a 0).
Proof.
  intros Hne Hs.
  assert (Hn : (0 < length a)%nat) by (destruct a; [congruence|simpl; lia]).
  pose proof (sorted_nth_lt a Hs) as Hlt.
  rewrite <- nth_last. split; (split; [apply nth_In; lia|]);
    intros z Hz; destruct (In_nth _ _ 0 Hz) as (j & Hj & <-).
  - destruct j; [lra|]. left. apply Hlt. lia.
  - destruct (Nat.eq_dec j (length a - 1)) as [->|Hne']; [lra|].
    left. apply Hlt. lia.
Qed.

Section LogBins.

Variable log10 : R -> R.
Variable pow10 : R -> R.

(** Claim C4.  [compute_vpsd] builds 51 edges, equally spaced in the
    logarithm from the first to the last frequency of the periodogram (the
    smallest and the largest one of an increasing array): edge [i] is
    [10 ** (log10 f0 + i * (log10 fN - log10 f0) / 50)].  For positive
    frequencies it returns the full-resolution power divided by the window
    area and, for the bins that hold some frequency strictly between their
    edges only, and in the same order in the three arrays, the midpoint of
    the bin, the mean of the powers of the bin and that mean divided by the
    window area.  At most 50 bins are returned and every returned frequency
    lies strictly between the edges of its bin. *)
Theorem vpsd_log_binning (freq vps phi : list R) (win_area : R) :
  freq <> [] -> length vps = length freq ->
  0 < nth 0 freq 0 -> 0 < last freq 0 ->
  let fb := Star.freq_bin log10 pow10 (nth 0 freq 0) (last freq 0) in
  let e := Spec.edge log10 pow10 (nth 0 freq 0) (last freq 0) in
  let valid := Spec.valid_bins e freq vps in
  length fb = 51%nat /\
  (forall i, (i <= 50)%nat ->
     nth i fb 0 =
     pow10 (log10 (nth 0 freq 0) +
            INR i * ((log10 (last freq 0) - log10 (nth 0 freq 0)) / 50))) /\
  (nth 0 fb 0 = pow10 (log10 (nth 0 freq 0)) /\
   nth 50 fb 0 = pow10 (log10 (last freq 0))) /\
  (StronglySorted Rlt freq ->
   Spec.is_min freq (nth 0 freq 0) /\ Spec.is_max freq (last freq 0)) /\
  Star.compute_vpsd log10 pow10 freq vps phi win_area =
    Ok {| Star.freq := freq; Star.vps := vps;
          Star.vpsd := map (fun p => p / win_area) vps;
          Star.phase := phi;
          Star.freq_avg := map (Spec.midpoint e) valid;
          Star.vps_avg := map (fun i => Some (Spec.average (Spec.bin e freq vps i))) valid;
          Star.vpsd_avg :=
            map (fun i => Some (Spec.average (Spec.bin e freq vps i) / win_area)) valid |} /\
  (length valid <= 50)%nat /\
  (forall i, In i valid <->
     (i < 50)%nat /\
     exists k, (k < length freq)%nat /\ e i < nth k freq 0 < e (i + 1)%nat) /\
  (forall i, In i valid ->
     Spec.bin e freq vps i <> [] /\ e i < Spec.midpoint e i < e (i + 1)%nat).
Proof.
  intros Hne Hlen _ _ fb e valid.
  assert (Hedge : forall i, (i <= 50)%nat -> nth i fb 0 = e i)
    by (intros i Hi; now apply nth_freq_bin).
  split; [apply edges_length|].
  split; [exact Hedge|].
  split.
  { rewrite !Hedge by lia. unfold e, Spec.edge. split; f_equal.
    - simpl. ring.
    - replace (INR 50) with 50 by (simpl; lra). field. }
  split; [now apply sorted_ends|].
  split; [now apply compute_vpsd_ok|].
  assert (Hvalid : forall i, In i valid <->
            (i < 50)%nat /\
            exists k, (k < length freq)%nat /\ e i < nth k freq 0 < e (i + 1)%nat).
  { intros i. unfold valid. rewrite valid_bin_nonempty.
    now rewrite (bin_nonempty_iff e freq vps i Hlen). }
  split; [|split; [exact Hvalid|]].
  - unfold valid, Spec.valid_bins.
    etransitivity; [apply filter_length_le|]. now rewrite length_seq.
  - intros i Hi. split.
    + apply valid_bin_nonempty in Hi. tauto.
    + apply Hvalid in Hi as (_ & k & _ & Hk). unfold Spec.midpoint. lra.
Qed.

Section MonotonePower.

(** The float64 power of ten does not decrease when its exponent grows. *)
Hypothesis pow10_monotone : forall x y, x <= y -> pow10 x <= pow10 y.

(** With a monotone power the edges are monotone in the bin index. *)
Lemma edge_le_up (lo hi : R) (i j : nat) :
  0 <= (log10 hi - log10 lo) / 50 -> (i <= j)%nat ->
  Spec.edge log10 pow10 lo hi i <= Spec.edge log10 pow10 lo hi j.
Proof.
  intros Hs Hij. apply pow10_monotone. apply le_INR in Hij. nra.
Qed.

Lemma edge_le_down (lo hi : R) (i j : nat) :
  (log10 hi - log10 lo) / 50 <= 0 -> (i <= j)%nat ->
  Spec.edge log10 pow10 lo hi j <= Spec.edge log10 pow10 lo hi i.
Proof.
  intros Hs Hij. apply pow10_monotone. apply le_INR in Hij. nra.
Qed.

(** A value equal to an edge lies strictly inside no bin. *)
Lemma edge_in_no_bin (lo hi : R) (m i : nat) :
  ~ (Spec.edge log10 pow10 lo hi i < Spec.edge log10 pow10 lo hi m <
     Spec.edge log10 pow10 lo hi (i + 1)).
Proof.
  intros [H1 H2]. destruct (Rle_dec 0 ((log10 hi - log10 lo) / 50)) as [Hs|Hs].
  - destruct (Nat.le_gt_cases m i) as [Hmi|Hmi].
    + pose proof (edge_le_up lo hi m i Hs Hmi). lra.
    + assert (Him : (i + 1 <= m)%nat) by lia.
      pose proof (edge_le_up lo hi (i + 1) m Hs Him). lra.
  - assert (Hs' : (log10 hi - log10 lo) / 50 <= 0) by lra.
    assert (Hii : (i <= i + 1)%nat) by lia.
    pose proof (edge_le_down lo hi i (i + 1) Hs' Hii). lra.
Qed.

(** Claim C10, as the code has it.  A frequency belongs to bin [i] only
    when it is strictly between the edges [i] and [i + 1], so that, the
    power of ten being monotone, a frequency equal to any of the 51 edges
    belongs to no bin.  The outermost edges are [10 ** log10] of the first
    and of the last frequency.  Where this round trip gives the frequency
    back, the frequency is an edge and belongs to no bin; where it falls
    below the first frequency, the first frequency belongs to bin 0 as
    soon as it is below edge 1, and where it falls above the last
    frequency, the last frequency belongs to bin 49 as soon as it is above
    edge 49. *)
Theorem bin_edges_excluded (freq : list R) (i k : nat) :
  (i < 50)%nat -> (k < length freq)%nat ->
  let fb := Star.freq_bin log10 pow10 (nth 0 freq 0) (last freq 0) in
  let mask j := Star.bin_mask freq (nth j fb 0) (nth (j + 1) fb 0) in
  (nth k (mask i) false = true <-> nth i fb 0 < nth k freq 0 < nth (i + 1) fb 0) /\
  ((exists m, (m <= 50)%nat /\ nth k freq 0 = nth m fb 0) ->
   nth k (mask i) false = false) /\
  (nth 0 fb 0 = pow10 (log10 (nth 0 freq 0)) /\
   nth 50 fb 0 = pow10 (log10 (last freq 0))) /\
  (pow10 (log10 (nth 0 freq 0)) = nth 0 freq 0 -> nth 0 (mask i) false = false) /\
  (pow10 (log10 (last freq 0)) = last freq 0 ->
   nth (length freq - 1) (mask i) false = false) /\
  (pow10 (log10 (nth 0 freq 0)) < nth 0 freq 0 -> nth 0 freq 0 < nth 1 fb 0 ->
   nth 0 (mask 0%nat) false = true) /\
  (last freq 0 < pow10 (log10 (last freq 0)) -> nth 49 fb 0 < last freq 0 ->
   nth (length freq - 1) (mask 49%nat) false = true).
Proof.
  intros Hi Hk fb mask.
  assert (Hiff : forall i' j, (j < length freq)%nat ->
            (nth j (mask i') false = true <->
             nth i' fb 0 < nth j freq 0 < nth (i' + 1) fb 0)).
  { intros i' j Hj. unfold mask. rewrite nth_bin_mask by assumption.
    rewrite andb_true_iff, !Rltb_true. tauto. }
  assert (Hedge : forall j, (j < length freq)%nat ->
            (exists m, (m <= 50)%nat /\ nth j freq 0 = nth m fb 0) ->
            nth j (mask i) false = false).
  { intros j Hj (m & Hm & Heq). apply not_true_is_false. intros Ht.
    apply Hiff in Ht; [|assumption]. rewrite Heq in Ht. unfold fb in Ht.
    rewrite !nth_freq_bin in Ht by lia.
    exact (edge_in_no_bin _ _ m i Ht). }
  assert (Hends : nth 0 fb 0 = pow10 (log10 (nth 0 freq 0)) /\
                  nth 50 fb 0 = pow10 (log10 (last freq 0))).
  { unfold fb. rewrite !nth_freq_bin by lia. unfold Spec.edge. split; f_equal.
    - simpl. ring.
    - replace (INR 50) with 50 by (simpl; lra). field. }
  destruct Hends as [E0 E50].
  split; [now apply Hiff|]. split; [now apply Hedge|]. split; [now split|].
  split; [|split; [|split]].
  - intros Hexact. apply Hedge; [lia|]. exists 0%nat. split; [lia|].
    now rewrite E0, Hexact.
  - intros Hexact. apply Hedge; [lia|]. exists 50%nat. split; [lia|].
    now rewrite nth_last, E50, Hexact.
  - intros Hbelow H1. apply Hiff; [lia|]. change (0 + 1)%nat with 1%nat.
    rewrite E0. split; assumption.
  - intros Habove H49. apply Hiff; [lia|]. rewrite nth_last.
    change (49 + 1)%nat with 50%nat. rewrite E50. split; assumption.
Qed.

End MonotonePower.

End LogBins.

(* ------------------------------------------------------------------ *)
(** ** The exact logarithm and power of ten *)

Lemma ln_10_pos : 0 < ln 10.
Proof. rewrite <- ln_1. apply ln_increasing; lra. Qed.

Lemma power_10 (y : R) : Np.power 10 y = Rpower 10 y.
Proof.
  unfold Np.power. destruct (Req_dec_T y 0) as [->|_].
  - rewrite Rpower_O; lra.
  - destruct (Rlt_dec 0 10); [reflexivity|lra].
Qed.

Lemma Rpower_10_log10 (x : R) : 0 < x -> Rpower 10 (Np.log10 x) = x.
Proof.
  intros H. unfold Np.log10, Rpower.
  replace (ln x / ln 10 * ln 10) with (ln x)
    by (field; pose proof ln_10_pos; lra).
  now apply exp_ln.
Qed.

(** Over the reals the round trip [10 ** log10 x] is exact. *)
Lemma power_10_log10 (x : R) : 0 < x -> Np.power 10 (Np.log10 x) = x.
Proof. intros H. rewrite power_10. now apply Rpower_10_log10. Qed.

Lemma Rpower_10_lt (x y : R) : x < y -> Rpower 10 x < Rpower 10 y.
Proof. intros H. apply Rpower_lt; lra. Qed.

Lemma Rpower_10_le (x y : R) : x <= y -> Rpower 10 x <= Rpower 10 y.
Proof. intros H. apply Rle_Rpower; lra. Qed.

Lemma power_10_monotone (x y : R) : x <= y -> Np.power 10 x <= Np.power 10 y.
Proof. intros H. rewrite !power_10. now apply Rpower_10_le. Qed.

Lemma log10_lt (x y : R) : 0 < x -> x < y -> Np.log10 x < Np.log10 y.
Proof.
  intros Hx Hxy. unfold Np.log10, Rdiv.
  apply Rmult_lt_compat_r; [apply Rinv_0_lt_compat, ln_10_pos|].
  now apply ln_increasing.
Qed.

Lemma log10_1 : Np.log10 1 = 0.
Proof. unfold Np.log10. rewrite ln_1. field. pose proof ln_10_pos. lra. Qed.

Lemma log10_100 : Np.log10 100 = 2.
Proof.
  unfold Np.log10. replace 100 with (10 * 10) by lra.
  rewrite ln_mult by lra. field. pose proof ln_10_pos. lra.
Qed.

(** Rational powers against integer powers. *)
Lemma Rpower_below (a b : R) (p q : nat) :
  0 < a -> 0 < b -> (0 < q)%nat -> a ^ p < b ^ q -> Rpower a (INR p / INR q) < b.
Proof.
  intros Ha Hb Hq H. unfold Rpower.
  rewrite <- (exp_ln b Hb). apply exp_increasing.
  assert (Hq' : 0 < INR q) by now apply lt_0_INR.
  assert (Hln : INR p * ln a < INR q * ln b).
  { rewrite <- !ln_pow by assumption. apply ln_increasing; [|assumption].
    now apply pow_lt. }
  apply Rmult_lt_reg_l with (INR q); [assumption|].
  replace (INR q * (INR p / INR q * ln a)) with (INR p * ln a) by (field; lra).
  exact Hln.
Qed.

Lemma Rpower_above (a b : R) (p q : nat) :
  0 < a -> 0 < b -> (0 < q)%nat -> b ^ q < a ^ p -> b < Rpower a (INR p / INR q).
Proof.
  intros Ha Hb Hq H. unfold Rpower.
  rewrite <- (exp_ln b Hb). apply exp_increasing.
  assert (Hq' : 0 < INR q) by now apply lt_0_INR.
  assert (Hln : INR q * ln b < INR p * ln a).
  { rewrite <- !ln_pow by assumption. apply ln_increasing; [|assumption].
    now apply pow_lt. }
  apply Rmult_lt_reg_l with (INR q); [assumption|].
  replace (INR q * (INR p / INR q * ln a)) with (INR p * ln a) by (field; lra).
  exact Hln.
Qed.

(* ------------------------------------------------------------------ *)
(** ** A periodogram of the frequencies 1, 3 and 100, in exact arithmetic *)

Lemma exact_edge (i : nat) :
  Spec.edge Np.log10 (Np.power 10) 1 100 i = Rpower 10 (INR i / 25).
Proof.
  unfold Spec.edge. rewrite power_10, log10_1, log10_100. f_equal. field.
Qed.

Lemma exact_edge_lt (i j : nat) :
  (i < j)%nat ->
  Spec.edge Np.log10 (Np.power 10) 1 100 i < Spec.edge Np.log10 (Np.power 10) 1 100 j.
Proof.
  intros H. rewrite !exact_edge. apply Rpower_10_lt. apply lt_INR in H. lra.
Qed.

Lemma exact_edge_0 : Spec.edge Np.log10 (Np.power 10) 1 100 0 = 1.
Proof.
  rewrite exact_edge. replace (INR 0 / 25) with 0 by (simpl; lra).
  apply Rpower_O. lra.
Qed.

Lemma exact_edge_50 : Spec.edge Np.log10 (Np.power 10) 1 100 50 = 100.
Proof.
  rewrite exact_edge. replace (INR 50 / 25) with (INR 2) by (simpl; lra).
  rewrite Rpower_pow by lra. simpl. lra.
Qed.

Lemma pow_10_11_lt_3_25 : 10 ^ 11 < 3 ^ 25.
Proof. simpl. lra. Qed.

Lemma pow_3_25_lt_10_12 : 3 ^ 25 < 10 ^ 12.
Proof. simpl. lra. Qed.

(** The frequency 3 lies in bin 11. *)
Lemma exact_edge_11_12 :
  Spec.edge Np.log10 (Np.power 10) 1 100 11 < 3 <
  Spec.edge Np.log10 (Np.power 10) 1 100 12.
Proof.
  rewrite !exact_edge. split.
  - replace (INR 11 / 25) with (INR 11 / INR 25) by (simpl; lra).
    apply Rpower_below; [lra|lra|lia|apply pow_10_11_lt_3_25].
  - replace (INR 12 / 25) with (INR 12 / INR 25) by (simpl; lra).
    apply Rpower_above; [lra|lra|lia|apply pow_3_25_lt_10_12].
Qed.

(** The periodogram of the frequencies 1, 3 and 100: bin 11 is valid. *)
Lemma vpsd_log_binning_witness :
  In 11%nat (Spec.valid_bins (Spec.edge Np.log10 (Np.power 10) 1 100)
                             [1; 3; 100] [3; 5; 7]).
Proof.
  refine (proj2 (proj1 (proj2 (proj2 (proj2 (proj2 (proj2 (proj2
            (vpsd_log_binning Np.log10 (Np.power 10) [1; 3; 100] [3; 5; 7] [0; 0; 0] 2
               _ _ _ _))))))) 11%nat) _).
  - discriminate.
  - reflexivity.
  - simpl. lra.
  - simpl. lra.
  - split; [lia|]. exists 1%nat. split; [simpl; lia|]. exact exact_edge_11_12.
Defined.

(** The first of the frequencies 1, 3 and 100 is in the mask of no bin when
    the round trip is exact. *)
Lemma bin_edges_excluded_witness :
  nth 0 (Star.bin_mask [1; 3; 100]
           (nth 0 (Star.freq_bin Np.log10 (Np.power 10) 1 100) 0)
           (nth (0 + 1) (Star.freq_bin Np.log10 (Np.power 10) 1 100) 0)) false = false.
Proof.
  refine (proj1 (proj2 (proj2 (proj2
            (bin_edges_excluded Np.log10 (Np.power 10) power_10_monotone
               [1; 3; 100] 0 0 _ _)))) _).
  - lia.
  - simpl. lia.
  - apply power_10_log10. simpl. lra.
Defined.

(* ------------------------------------------------------------------ *)
(** ** The frequencies 8 and 20, with the rounded power of ten *)

Lemma log10_8_lt_20 : Np.log10 8 < Np.log10 20.
Proof. apply log10_lt; lra. Qed.

Lemma demo_pow10_monotone (x y : R) : x <= y -> demo_pow10 x <= demo_pow10 y.
Proof.
  intros Hxy. pose proof log10_8_lt_20 as Hl.
  pose proof (Rpower_10_log10 8 ltac:(lra)) as E8.
  pose proof (Rpower_10_log10 20 ltac:(lra)) as E20.
  pose proof (Rpower_10_le x y Hxy) as Hp.
  unfold demo_pow10.
  destruct (Rle_dec x (Np.log10 8)) as [Hx|Hx];
    destruct (Rle_dec y (Np.log10 8)) as [Hy|Hy]; try lra.
  - unfold Rmin. destruct (Rle_dec (Rpower 10 x) _), (Rle_dec (Rpower 10 y) _); lra.
  - assert (H8 : 8 < Rpower 10 y) by (rewrite <- E8; apply Rpower_10_lt; lra).
    pose proof (Rmin_r (Rpower 10 x) 7.999999999999999).
    destruct (Rlt_dec y (Np.log10 20)); [lra|].
    pose proof (Rmax_l (Rpower 10 y) 20.000000000000004). lra.
  - destruct (Rlt_dec x (Np.log10 20)) as [Hx2|Hx2];
      destruct (Rlt_dec y (Np.log10 20)) as [Hy2|Hy2]; try lra.
    + assert (H20 : Rpower 10 x < 20) by (rewrite <- E20; apply Rpower_10_lt; lra).
      pose proof (Rmax_r (Rpower 10 y) 20.000000000000004). lra.
    + unfold Rmax. destruct (Rle_dec (Rpower 10 x) _), (Rle_dec (Rpower 10 y) _); lra.
Qed.

Lemma demo_edge_0 : Spec.edge Np.log10 demo_pow10 8 20 0 = 7.999999999999999.
Proof.
  unfold Spec.edge.
  replace (Np.log10 8 + INR 0 * ((Np.log10 20 - Np.log10 8) / 50)) with (Np.log10 8)
    by (simpl; ring).
  unfold demo_pow10. destruct (Rle_dec (Np.log10 8) (Np.log10 8)); [|lra].
  rewrite (Rpower_10_log10 8) by lra. unfold Rmin.
  destruct (Rle_dec 8 7.999999999999999); lra.
Qed.

Lemma demo_edge_50 : Spec.edge Np.log10 demo_pow10 8 20 50 = 20.000000000000004.
Proof.
  unfold Spec.edge.
  replace (Np.log10 8 + INR 50 * ((Np.log10 20 - Np.log10 8) / 50)) with (Np.log10 20)
    by (replace (INR 50) with 50 by (simpl; lra); field).
  pose proof log10_8_lt_20.
  unfold demo_pow10. destruct (Rle_dec (Np.log10 20) (Np.log10 8)); [lra|].
  destruct (Rlt_dec (Np.log10 20) (Np.log10 20)); [lra|].
  rewrite (Rpower_10_log10 20) by lra. unfold Rmax.
  destruct (Rle_dec 20 20.000000000000004); lra.
Qed.

(** The inner edges are exact and lie strictly between 8 and 20. *)
Lemma demo_edge_inner (i : nat) :
  (0 < i < 50)%nat -> 8 < Spec.edge Np.log10 demo_pow10 8 20 i < 20.
Proof.
  intros [H0 H50]. pose proof log10_8_lt_20 as Hl.
  apply lt_INR in H0, H50. simpl INR at 1 in H0.
  replace (INR 50) with 50 in H50 by (simpl; lra).
  unfold Spec.edge.
  set (y := Np.log10 8 + INR i * ((Np.log10 20 - Np.log10 8) / 50)).
  assert (Hy : Np.log10 8 < y < Np.log10 20) by (unfold y; split; nra).
  unfold demo_pow10. destruct (Rle_dec y (Np.log10 8)); [lra|].
  destruct (Rlt_dec y (Np.log10 20)); [|lra].
  pose proof (Rpower_10_log10 8 ltac:(lra)) as E8.
  pose proof (Rpower_10_log10 20 ltac:(lra)) as E20.
  pose proof (Rpower_10_lt (Np.log10 8) y ltac:(lra)).
  pose proof (Rpower_10_lt y (Np.log10 20) ltac:(lra)). lra.
Qed.

(** Claim C10, as stated, fails.  On the frequencies 8 and 20 the outermost
    edges are [7.999999999999999] and [20.000000000000004], the values
    float64 gives to [10 ** log10(8.0)] and [10 ** log10(20.0)]: the first
    frequency is in the mask of bin 0 and the last one in the mask of bin
    49, although the power of ten in use is monotone. *)
Lemma end_frequencies_are_binned :
  let fb := Star.freq_bin Np.log10 demo_pow10 8 20 in
  (forall x y, x <= y -> demo_pow10 x <= demo_pow10 y) /\
  nth 0 fb 0 = 7.999999999999999 /\
  nth 50 fb 0 = 20.000000000000004 /\
  nth 0 (Star.bin_mask [8; 20] (nth 0 fb 0) (nth 1 fb 0)) false = true /\
  nth 1 (Star.bin_mask [8; 20] (nth 49 fb 0) (nth 50 fb 0)) false = true.
Proof.
  intros fb. unfold fb. rewrite !nth_freq_bin by lia.
  rewrite demo_edge_0, demo_edge_50.
  pose proof (demo_edge_inner 1 ltac:(lia)) as H1.
  pose proof (demo_edge_inner 49 ltac:(lia)) as H49.
  split; [exact demo_pow10_monotone|]. split; [reflexivity|]. split; [reflexivity|].
  split; rewrite nth_bin_mask by (simpl; lia); simpl nth;
    apply andb_true_iff; split; apply Rltb_true; lra.
Qed.

Lemma exact_edge_le (i j : nat) :
  (i <= j)%nat ->
  Spec.edge Np.log10 (Np.power 10) 1 100 i <= Spec.edge Np.log10 (Np.power 10) 1 100 j.
Proof.
  intros H. destruct (Nat.eq_dec i j) as [->|Hne]; [lra|].
  left. apply exact_edge_lt. lia.
Qed.

Lemma exact_valid_bins :
  Spec.valid_bins (Spec.edge Np.log10 (Np.power 10) 1 100) [1; 3; 100] [3; 5; 7] =
  [11%nat].
Proof.
  unfold Spec.valid_bins.
  rewrite (filter_ext_in _ (fun i => Nat.eqb i 11)); [reflexivity|].
  intros i Hi. apply in_seq in Hi.
  set (e := Spec.edge Np.log10 (Np.power 10) 1 100).
  pose proof exact_edge_11_12 as [H11 H12]. fold e in H11, H12.
  destruct (Nat.eqb_spec i 11) as [->|Hne].
  - assert (Hb : Spec.bin e [1; 3; 100] [3; 5; 7] 11 <> []).
    { apply bin_nonempty_iff; [reflexivity|]. exists 1%nat.
      split; [simpl; lia|]. simpl nth. split; assumption. }
    destruct (Spec.bin e [1; 3; 100] [3; 5; 7] 11); [now elim Hb|reflexivity].
  - destruct (Spec.bin e [1; 3; 100] [3; 5; 7] i) eqn:E; [reflexivity|]. exfalso.
    assert (Hb : Spec.bin e [1; 3; 100] [3; 5; 7] i <> []) by (rewrite E; discriminate).
    apply bin_nonempty_iff in Hb as (k & Hk & Hlo & Hhi); [|reflexivity].
    simpl in Hk. destruct k as [|[|[|k]]]; simpl nth in Hlo, Hhi; try lia.
    + pose proof (exact_edge_le 0 i ltac:(lia)) as H. fold e in H.
      unfold e in H at 1. rewrite exact_edge_0 in H. lra.
    + destruct (Nat.lt_ge_cases i 11) as [Hlt|Hge].
      * pose proof (exact_edge_le (i + 1) 11 ltac:(lia)) as H. fold e in H. lra.
      * pose proof (exact_edge_le 12 i ltac:(lia)) as H. fold e in H. lra.
    + pose proof (exact_edge_le (i + 1) 50 ltac:(lia)) as H. fold e in H.
      unfold e in H at 2. rewrite exact_edge_50 in H. lra.
Qed.

Lemma inside_true (lo hi f : R) : lo < f < hi -> Spec.inside lo hi f = true.
Proof. apply inside_iff. Qed.

Lemma inside_false (lo hi f : R) : ~ lo < f < hi -> Spec.inside lo hi f = false.
Proof.
  intros H. apply not_true_is_false. intros E. apply H. now apply inside_iff.
Qed.

(** In exact arithmetic the periodogram of the frequencies 1, 3 and 100 has
    one averaged point, in bin 11: the two end frequencies are edges. *)
Example three_frequencies :
  Star.compute_vpsd Np.log10 (Np.power 10) [1; 3; 100] [3; 5; 7] [0; 0; 0] 2 =
  Ok {| Star.freq := [1; 3; 100]; Star.vps := [3; 5; 7];
        Star.vpsd := [3 / 2; 5 / 2; 7 / 2]; Star.phase := [0; 0; 0];
        Star.freq_avg := [(Rpower 10 (11 / 25) + Rpower 10 (12 / 25)) / 2];
        Star.vps_avg := [Some 5]; Star.vpsd_avg := [Some (5 / 2)] |}.
Proof.
  rewrite compute_vpsd_ok by (discriminate || reflexivity). cbv zeta.
  change (nth 0 [1; 3; 100] 0) with 1. change (last [1; 3; 100] 0) with 100.
  rewrite exact_valid_bins. cbn [map].
  set (e := Spec.edge Np.log10 (Np.power 10) 1 100).
  pose proof exact_edge_11_12 as [H11 H12]. fold e in H11, H12.
  assert (Hbin : Spec.bin e [1; 3; 100] [3; 5; 7] 11 = [5]).
  { unfold Spec.bin. cbn [combine filter fst].
    change (11 + 1)%nat with 12%nat.
    pose proof (exact_edge_le 0 11 ltac:(lia)) as H0. fold e in H0.
    unfold e in H0 at 1. rewrite exact_edge_0 in H0.
    pose proof (exact_edge_le 12 50 ltac:(lia)) as H50. fold e in H50.
    unfold e in H50 at 2. rewrite exact_edge_50 in H50.
    rewrite (inside_false _ _ 1) by lra.
    rewrite (inside_true _ _ 3) by lra.
    rewrite (inside_false _ _ 100) by lra. reflexivity. }
  rewrite Hbin. unfold Spec.midpoint. change (11 + 1)%nat with 12%nat.
  unfold e. rewrite !exact_edge.
  replace (INR 11 / 25) with (11 / 25) by (simpl; lra).
  replace (INR 12 / 25) with (12 / 25) by (simpl; lra).
  unfold Spec.average, Spec.Rsum. cbn [fold_right length INR].
  replace ((5 + 0) / 1) with 5 by lra. reflexivity.
Qed.

Lemma demo_valid_bins :
  Spec.valid_bins (Spec.edge Np.log10 demo_pow10 8 20) [8; 20] [3; 5] =
  [0%nat; 49%nat].
Proof.
  unfold Spec.valid_bins.
  rewrite (filter_ext_in _ (fun i => Nat.eqb i 0 || Nat.eqb i 49)); [reflexivity|].
  intros i Hi. apply in_seq in Hi.
  set (e := Spec.edge Np.log10 demo_pow10 8 20).
  pose proof demo_edge_0 as E0. pose proof demo_edge_50 as E50. fold e in E0, E50.
  destruct (Nat.eqb_spec i 0) as [->|Hne0]; [|destruct (Nat.eqb_spec i 49) as [->|Hne49]].
  - assert (Hb : Spec.bin e [8; 20] [3; 5] 0 <> []).
    { apply bin_nonempty_iff; [reflexivity|]. exists 0%nat.
      split; [simpl; lia|]. simpl nth.
      pose proof (demo_edge_inner 1 ltac:(lia)) as H1. fold e in H1.
      change (0 + 1)%nat with 1%nat. lra. }
    destruct (Spec.bin e [8; 20] [3; 5] 0); [now elim Hb|reflexivity].
  - assert (Hb : Spec.bin e [8; 20] [3; 5] 49 <> []).
    { apply bin_nonempty_iff; [reflexivity|]. exists 1%nat.
      split; [simpl; lia|]. simpl nth.
      pose proof (demo_edge_inner 49 ltac:(lia)) as H49. fold e in H49.
      change (49 + 1)%nat with 50%nat. lra. }
    destruct (Spec.bin e [8; 20] [3; 5] 49); [now elim Hb|reflexivity].
  - destruct (Spec.bin e [8; 20] [3; 5] i) eqn:E; [reflexivity|]. exfalso.
    assert (Hb : Spec.bin e [8; 20] [3; 5] i <> []) by (rewrite E; discriminate).
    apply bin_nonempty_iff in Hb as (k & Hk & Hlo & Hhi); [|reflexivity].
    simpl in Hk. destruct k as [|[|k]]; simpl nth in Hlo, Hhi; try lia.
    + pose proof (demo_edge_inner i ltac:(lia)) as H. fold e in H. lra.
    + pose proof (demo_edge_inner (i + 1) ltac:(lia)) as H. fold e in H. lra.
Qed.

(** With the rounded power of ten the periodogram of the frequencies 8 and
    20 has two averaged points: the first frequency is averaged into bin 0
    and the last one into bin 49. *)
Example rounded_end_frequencies :
  Star.compute_vpsd Np.log10 demo_pow10 [8; 20] [3; 5] [0; 0] 1 =
  Ok {| Star.freq := [8; 20]; Star.vps := [3; 5];
        Star.vpsd := [3 / 1; 5 / 1]; Star.phase := [0; 0];
        Star.freq_avg :=
          map (Spec.midpoint (Spec.edge Np.log10 demo_pow10 8 20)) [0%nat; 49%nat];
        Star.vps_avg := [Some 3; Some 5];
        Star.vpsd_avg := [Some (3 / 1); Some (5 / 1)] |}.
Proof.
  rewrite compute_vpsd_ok by (discriminate || reflexivity). cbv zeta.
  change (nth 0 [8; 20] 0) with 8. change (last [8; 20] 0) with 20.
  rewrite demo_valid_bins. cbn [map].
  set (e := Spec.edge Np.log10 demo_pow10 8 20).
  pose proof demo_edge_0 as E0. pose proof demo_edge_50 as E50. fold e in E0, E50.
  pose proof (demo_edge_inner 1 ltac:(lia)) as H1. fold e in H1.
  pose proof (demo_edge_inner 49 ltac:(lia)) as H49. fold e in H49.
  assert (Hbin0 : Spec.bin e [8; 20] [3; 5] 0 = [3]).
  { unfold Spec.bin. cbn [combine filter fst]. change (0 + 1)%nat with 1%nat.
    rewrite (inside_true _ _ 8) by lra.
    rewrite (inside_false _ _ 20) by lra. reflexivity. }
  assert (Hbin49 : Spec.bin e [8; 20] [3; 5] 49 = [5]).
  { unfold Spec.bin. cbn [combine filter fst]. change (49 + 1)%nat with 50%nat.
    rewrite (inside_false _ _ 8) by lra.
    rewrite (inside_true _ _ 20) by lra. reflexivity. }
  rewrite Hbin0, Hbin49.
  unfold Spec.average, Spec.Rsum. cbn [fold_right length INR].
  replace ((3 + 0) / 1) with 3 by lra. replace ((5 + 0) / 1) with 5 by lra.
  reflexivity.
Qed.

(* ------------------------------------------------------------------ *)
(** ** Worked examples *)

(** [compute_vrad_ccf] on a fresh [Data] object: the lookup of line 101
    fails before the test of line 105 is reached. *)
Example add_spec_never_called :
  Data.compute_vrad_ccf demo_fit None [5000] [1] demo_vrads = Raise KeyError.
Proof. reflexivity. Qed.

(** The test of line 105 takes the truth value of each array, which numpy
    refuses for an array of several elements. *)
Example several_pixels_raise :
  Data.read_spec
    (Data.add_spec (Some [1]) (Some demo_wave) (Some demo_flux) (Some demo_ferr)
                   None None None) = Raise ValueError.
Proof. unfold Data.read_spec, Data.and_then, demo_wave. eval_R. reflexivity. Qed.

(** A flat CCF has no point below the half depth. *)
Example flat_ccf_has_no_crossing :
  Data.initial_guess demo_vrads [1; 1; 1] = Raise IndexError.
Proof. unfold Data.initial_guess, demo_vrads. eval_R. reflexivity. Qed.

(** A dip with a two-pixel left flank: the guess is centred on the minimum
    and twice as wide as the distance to the first point below the half
    depth. *)
Example left_flank :
  Data.initial_guess [-2; -1; 0] [1; 0.4; 0] = Ok (1, 1 - 0, 0, (0 - -1) * 2).
Proof. unfold Data.initial_guess. eval_R. reflexivity. Qed.

(** A dip one pixel wide: the first point below the half depth is the
    minimum itself and the guessed width is zero. *)
Example one_pixel_dip :
  Data.initial_guess [0; 1; 2] [1; 0; 1] = Ok (1, 1 - 0, 1, (1 - 1) * 2).
Proof. unfold Data.initial_guess. eval_R. reflexivity. Qed.

(** The pre-filter keeps a line inside the overlap and normalises its
    weight. *)
Example prefilter_keeps_line :
  Data.prefilter demo_wave demo_vrads [5000; 6000] [2; 3] =
  Ok ([5000], [2 / (0 + 2)]).
Proof. unfold Data.prefilter, demo_wave, demo_vrads. eval_R. reflexivity. Qed.

(** A component of an unknown type leaves [vpsd_comp] unbound. *)
Example unknown_type_raises :
  Star.vpsd_tot [0] [("x"%string, {| Star.type := "Gauss"; Star.coef_val := [1] |})]
  = Raise NameError.
Proof. reflexivity. Qed.

(** The same line against the three-pixel spectrum: the filter returns the
    empty mask and each epoch fails at the first trial velocity. *)
Example empty_mask_three_pixels :
  Data.prefilter demo_wave demo_vrads [6000] [1] = Ok ([], []) /\
  Data.process_epoch demo_fit demo_wave demo_flux demo_ferr [] [] demo_vrads 0 =
    Raise DomainError.
Proof.
  split; [|reflexivity].
  unfold Data.prefilter, demo_wave, demo_vrads. eval_R. reflexivity.
Qed.

(** A Harvey component whose base [c1 * f] is negative, with the exponent
    [2]: the power is [(-2) ^ 2]. *)
Example harvey_negative_base :
  Star.vpsd_tot [2] (Spec.entries [("granulation"%string, Spec.Harvey 1 (-1) 2)]) =
  Ok [0.2].
Proof.
  rewrite vpsd_tot_entries. unfold Spec.composite, Spec.Rsum.
  cbn [map snd fold_right Spec.density].
  rewrite (power_neg_int (-1 * 2) 2) by lra. simpl. do 2 f_equal. lra.
Qed.

(* ================================================================== *)
(** * Further facts about the code *)

(* ------------------------------------------------------------------ *)
(** ** The spectral input: what the test of line 105 accepts *)

Lemma truth_true (flat : list R) :
  Np.truth flat = Ok true <-> exists x, flat = [x] /\ x <> 0.
Proof.
  destruct flat as [|x [|y t]]; simpl.
  - split; [discriminate|intros (x & H & _); discriminate].
  - destruct (Req_dec_T x 0) as [E|E]; split.
    + discriminate.
    + intros (y & [= <-] & H). contradiction.
    + intros _. eauto.
    + reflexivity.
  - split; [discriminate|intros (z & H & _); discriminate].
Qed.

Lemma and_then_true (x y : result bool) :
  Data.and_then x y = Ok true <-> x = Ok true /\ y = Ok true.
Proof.
  unfold Data.and_then. destruct x as [[]|e]; simpl; split;
    try tauto; try discriminate; intros [H _]; discriminate.
Qed.

(** [read_spec] accepts the spectral data exactly when each of the four
    arrays holds one single, non-zero number. *)
Theorem read_spec_accepts_iff (spec : option Data.spec_dict)
    (t wv : list R) (fv fe : list (list R)) (tu : option string) :
  Data.read_spec spec = Ok (t, wv, fv, fe, tu) <->
  exists d,
    spec = Some d /\
    Data.time d = Some t /\ Data.wave d = Some wv /\
    Data.flux_val d = Some fv /\ Data.flux_err d = Some fe /\
    Data.time_unit d = tu /\
    (exists a, t = [a] /\ a <> 0) /\ (exists b, wv = [b] /\ b <> 0) /\
    (exists c, concat fv = [c] /\ c <> 0) /\ (exists e, concat fe = [e] /\ e <> 0).
Proof.
  split.
  - destruct spec as [d|]; [|discriminate]. unfold Data.read_spec. intros H.
    inv_bind H. destruct a; simpl in H; [|discriminate].
    apply and_then_true in E as [E1 E]. apply and_then_true in E as [E2 E].
    apply and_then_true in E as [E3 E4].
    destruct (Data.time d) as [t'|] eqn:Ht, (Data.wave d) as [w'|] eqn:Hw,
      (Data.flux_val d) as [f'|] eqn:Hf, (Data.flux_err d) as [e'|] eqn:He;
      try discriminate.
    injection H as <- <- <- <- <-.
    exists d. simpl in E1, E2, E3, E4.
    apply truth_true in E1, E2, E3, E4. repeat split; auto.
  - intros (d & -> & Ht & Hw & Hf & He & Hu & H1 & H2 & H3 & H4).
    unfold Data.read_spec. rewrite Ht, Hw, Hf, He, Hu.
    apply truth_true in H1, H2, H3, H4.
    unfold Data.and_then, Data.truth1, Data.truth2. rewrite H1, H2, H3, H4.
    reflexivity.
Qed.

(** A wavelength array of more than one pixel is refused with
    [ValueError], whatever the other arrays are. *)
Theorem several_pixels_refused (d : Data.spec_dict) (wv : list R) :
  Data.wave d = Some wv -> (2 <= length wv)%nat ->
  Data.read_spec (Some d) = Raise ValueError.
Proof.
  intros Hw Hlen.
  unfold Data.read_spec, Data.and_then. rewrite Hw.
  assert (Hwv : Data.truth1 (Some wv) = Raise ValueError).
  { destruct wv as [|x [|y t]]; simpl in *; try lia. reflexivity. }
  destruct (truth1_cases (Data.time d)) as [[-> _]|[->| ->]]; try reflexivity.
  cbn [Py.bind]. rewrite Hwv. reflexivity.
Qed.

Lemma several_pixels_refused_witness :
  Data.read_spec
    (Some {| Data.time := Some [1]; Data.wave := Some demo_wave;
             Data.flux_val := Some demo_flux; Data.flux_err := Some demo_ferr;
             Data.time_unit := None; Data.wave_unit := None;
             Data.flux_unit := None |}) = Raise ValueError.
Proof.
  apply (several_pixels_refused
           {| Data.time := Some [1]; Data.wave := Some demo_wave;
              Data.flux_val := Some demo_flux; Data.flux_err := Some demo_ferr;
              Data.time_unit := None; Data.wave_unit := None;
              Data.flux_unit := None |} demo_wave).
  - reflexivity.
  - simpl. lia.
Defined.

(* ------------------------------------------------------------------ *)
(** ** No call of [compute_vrad_ccf] returns *)

Lemma mapM_raises {A B : Type} (f : A -> result B) (l : list A) (x : A) :
  In x l -> (exists e, f x = Raise e) -> exists e, mapM f l = Raise e.
Proof.
  induction l as [|y l IH]; intros Hin Hx; [destruct Hin|].
  simpl. destruct (f y) as [b|e] eqn:Ey; [|eauto].
  destruct Hin as [->|Hin].
  - destruct Hx as [e He]. congruence.
  - destruct (IH Hin Hx) as [e ->]. eauto.
Qed.

Lemma bind_raises {A B : Type} (m : result A) (k : A -> result B) :
  (forall a, m = Ok a -> exists e, k a = Raise e) ->
  exists e, Py.bind m k = Raise e.
Proof. destruct m as [a|e]; simpl; eauto. Qed.

(** On a spectrum of one pixel, a trial velocity that puts a line above the
    pixel makes the right-hand index run past the end of [wave]. *)
Lemma ccf_point_one_pixel (b : R) (flux_val flux_err : list (list R)) (i : nat)
    (c : R) (wc w : list R) (v : R) :
  b < c * (1 + v / Data.c_light) ->
  exists e, Data.ccf_point [b] flux_val flux_err i (c :: wc) w v = Raise e.
Proof.
  intros Hc. unfold Data.ccf_point. rewrite doppler_shift_cons. cbn [Py.bind].
  apply bind_raises. intros wave_l _. apply bind_raises. intros wave_r Hr.
  exfalso. revert Hr. cbn [map Np.take mapM Np.searchsorted_right].
  destruct (Rle_dec b (c * (1 + v / Data.c_light))) as [_|Hn]; [|lra].
  cbn. discriminate.
Qed.

Lemma ccf_point_no_line (wave : list R) (flux_val flux_err : list (list R))
    (i : nat) (w : list R) (v : R) :
  Data.ccf_point wave flux_val flux_err i [] w v = Raise DomainError.
Proof. reflexivity. Qed.

Lemma read_spec_one_pixel (spec : option Data.spec_dict)
    (t wv : list R) (fv fe : list (list R)) (tu : option string) :
  Data.read_spec spec = Ok (t, wv, fv, fe, tu) ->
  (exists b, wv = [b]) /\ fv <> [].
Proof.
  unfold Data.read_spec. destruct spec as [d|]; [|discriminate]. intros H.
  inv_bind H. destruct a; simpl in H; [|discriminate].
  apply and_then_true in E as [_ E]. apply and_then_true in E as [E2 E].
  apply and_then_true in E as [E3 _].
  destruct (Data.time d), (Data.wave d) as [w'|], (Data.flux_val d) as [f'|],
    (Data.flux_err d); try discriminate.
  injection H as <- <- <- <- <-. simpl in E2, E3.
  apply truth_true in E2 as (b & -> & _), E3 as (c & Hc & _).
  split; [eauto|]. intros ->. discriminate.
Qed.

Section NoReturn.
Variable curve_fit :
  list R -> list R -> list R -> R * R * R * R ->
  result (R * R * R * R * list (list R)).

(** [compute_vrad_ccf] raises on every input.  The test of line 105 lets
    through one-pixel spectra only; on such a spectrum a mask line that
    passes the pre-filter lies above the pixel at the lowest velocity of the
    grid, where [wave[i_r]] is out of bounds, and an empty filtered mask
    stops the first Doppler shift. *)
Theorem compute_vrad_ccf_always_raises
    (spec : option Data.spec_dict) (wc w vrads : list R) :
  exists e, Data.compute_vrad_ccf curve_fit spec wc w vrads = Raise e.
Proof.
  unfold Data.compute_vrad_ccf, Data.prepare.
  destruct (Data.read_spec spec) as [[[[[t wv] fv] fe] tu]|e] eqn:Hspec;
    [|cbn; eauto].
  cbn [Py.bind].
  destruct (Data.prefilter wv vrads wc w) as [[wc' w']|e] eqn:Hpre; [|cbn; eauto].
  cbn [Py.bind].
  destruct (read_spec_one_pixel _ _ _ _ _ _ Hspec) as [[b ->] Hfv].
  apply prefilter_ok in Hpre
    as (vmin & vmax & wmin & wmax & Evmin & _ & Ewmin & _ & Hwc & _ & _).
  injection Ewmin as <-.
  apply min_spec in Evmin as [Hvin _].
  apply bind_raises. intros rs Hrs. exfalso.
  destruct fv as [|row rows]; [congruence|].
  cbn [length seq mapM] in Hrs.
  assert (Hepoch : exists e,
            Data.process_epoch curve_fit [b] (row :: rows) fe wc' w' vrads 0 = Raise e).
  { unfold Data.process_epoch, Data.ccf_epoch.
    apply bind_raises. intros p Hp. exfalso.
    apply bind_ok in Hp as (pts & Hpts & _).
    assert (Hraise : exists e,
              mapM (Data.ccf_point [b] (row :: rows) fe 0 wc' w') vrads = Raise e).
    { apply (mapM_raises _ _ vmin Hvin).
      destruct wc' as [|c wc'']; [rewrite ccf_point_no_line; eauto|].
      apply ccf_point_one_pixel.
      assert (Hc : In c (filter (Spec.retained b wmax vmin vmax) wc))
        by (rewrite <- Hwc; now left).
      apply filter_In in Hc as [_ Hc]. unfold Spec.retained in Hc.
      apply andb_true_iff in Hc as [Hc _]. now apply Rltb_true in Hc. }
    destruct Hraise as [e He]. congruence. }
  destruct Hepoch as [e He]. rewrite He in Hrs. discriminate.
Qed.

End NoReturn.

(* ------------------------------------------------------------------ *)
(** ** The pre-filter: failures, pairing and normalisation *)

Lemma min_ok (a : list R) : a <> [] -> exists m, Np.min a = Ok m.
Proof. destruct a; [congruence|simpl; eauto]. Qed.

Lemma max_ok (a : list R) : a <> [] -> exists m, Np.max a = Ok m.
Proof. destruct a; [congruence|simpl; eauto]. Qed.

Lemma prefilter_eval (wave vrads wc w : list R) (vmin vmax wmin wmax : R) :
  Np.min vrads = Ok vmin -> Np.max vrads = Ok vmax ->
  Np.min wave = Ok wmin -> Np.max wave = Ok wmax -> wc <> [] ->
  Data.prefilter wave vrads wc w =
    if Nat.eqb (length w) (length wc) then
      let kept := Np.select w (map (Spec.retained wmin wmax vmin vmax) wc) in
      Ok (Np.select wc (map (Spec.retained wmin wmax vmin vmax) wc),
          map (fun x => x / Np.sum kept) kept)
    else Raise IndexError.
Proof.
  intros Evmin Evmax Ewmin Ewmax Hwc. unfold Data.prefilter.
  destruct wc as [|c wc']; [congruence|].
  rewrite Evmin. cbn [Py.bind]. rewrite doppler_shift_cons. cbn [Py.bind].
  rewrite Ewmin, Evmax. cbn [Py.bind]. rewrite doppler_shift_cons. cbn [Py.bind].
  rewrite Ewmax. cbn [Py.bind]. remember (c :: wc') as wc eqn:E.
  rewrite !map_map, map2_map.
  change (fun x : R => Np.Rltb wmin (x * (1 + vmin / Data.c_light)) &&
                       Np.Rltb (x * (1 + vmax / Data.c_light)) wmax)
    with (Spec.retained wmin wmax vmin vmax).
  unfold Np.bool_index. rewrite !length_map, Nat.eqb_refl. cbn [Py.bind].
  destruct (Nat.eqb (length w) (length wc)); reflexivity.
Qed.

(** The pre-filter returns exactly when the grid, the mask and the
    wavelength array are not empty and the weights are as many as the
    lines; each other case has its own exception. *)
Theorem prefilter_failures (wave vrads wc w : list R) :
  (vrads = [] -> Data.prefilter wave vrads wc w = Raise ValueError) /\
  (vrads <> [] -> wc = [] -> Data.prefilter wave vrads wc w = Raise DomainError) /\
  (vrads <> [] -> wc <> [] -> wave = [] ->
   Data.prefilter wave vrads wc w = Raise ValueError) /\
  (vrads <> [] -> wc <> [] -> wave <> [] -> length w <> length wc ->
   Data.prefilter wave vrads wc w = Raise IndexError) /\
  (vrads <> [] -> wc <> [] -> wave <> [] -> length w = length wc ->
   exists wc' w', Data.prefilter wave vrads wc w = Ok (wc', w')).
Proof.
  split; [intros ->; reflexivity|].
  split; [intros Hv ->; unfold Data.prefilter;
          destruct (min_ok vrads Hv) as [m ->]; reflexivity|].
  split; [intros Hv Hwc ->; unfold Data.prefilter;
          destruct (min_ok vrads Hv) as [m ->];
          destruct wc; [congruence|reflexivity]|].
  split; intros Hv Hwc Hwave Hlen;
    destruct (min_ok vrads Hv) as [vmin Evmin], (max_ok vrads Hv) as [vmax Evmax],
             (min_ok wave Hwave) as [wmin Ewmin], (max_ok wave Hwave) as [wmax Ewmax];
    rewrite (prefilter_eval _ _ _ _ _ _ _ _ Evmin Evmax Ewmin Ewmax Hwc).
  - destruct (Nat.eqb_spec (length w) (length wc)); [congruence|reflexivity].
  - rewrite Hlen, Nat.eqb_refl. eauto.
Qed.

Lemma prefilter_failures_witness :
  Data.prefilter demo_wave demo_vrads [5000; 6000] [1] = Raise IndexError.
Proof.
  apply (prefilter_failures demo_wave demo_vrads [5000; 6000] [1]);
    simpl; discriminate || lia.
Defined.

Lemma select_combine {A B : Type} (a : list A) (b : list B) (p : A -> bool) :
  length b = length a ->
  combine (Np.select a (map p a)) (Np.select b (map p a)) =
  filter (fun x => p (fst x)) (combine a b).
Proof.
  revert b; induction a as [|x a IH]; intros [|y b] H; simpl in *;
    try discriminate; [reflexivity|].
  destruct (p x); simpl; rewrite IH by lia; reflexivity.
Qed.

Lemma combine_map_r {A B C : Type} (f : B -> C) (a : list A) (b : list B) :
  combine a (map f b) = map (fun x => (fst x, f (snd x))) (combine a b).
Proof.
  revert b; induction a as [|x a IH]; intros [|y b]; simpl; try reflexivity.
  now rewrite IH.
Qed.

Lemma map_snd_combine_eq {A B : Type} (a : list A) (b : list B) :
  length a = length b -> map snd (combine a b) = b.
Proof.
  revert b; induction a as [|x a IH]; intros [|y b] H; simpl in *;
    try discriminate; [reflexivity|]. f_equal. apply IH. lia.
Qed.

Lemma Rsum_scale (k : R) (l : list R) :
  Spec.Rsum (map (fun x => x * k) l) = Spec.Rsum l * k.
Proof. induction l as [|x l IH]; simpl; [lra|]. rewrite IH. lra. Qed.

Lemma Rsum_pos (l : list R) :
  l <> [] -> (forall x, In x l -> 0 < x) -> 0 < Spec.Rsum l.
Proof.
  induction l as [|x l IH]; intros Hne Hpos; [congruence|]. simpl.
  pose proof (Hpos x (or_introl eq_refl)).
  destruct l as [|y l]; [simpl; lra|].
  assert (0 < Spec.Rsum (y :: l)).
  { apply IH; [discriminate|]. intros z Hz. apply Hpos. now right. }
  lra.
Qed.

Lemma select_In {A : Type} (a : list A) (idx : list bool) (x : A) :
  In x (Np.select a idx) -> In x a.
Proof.
  revert idx; induction a as [|y a IH]; intros [|b idx]; simpl; try tauto.
  destruct b; simpl; intros H; [destruct H as [->|H]|]; eauto.
Qed.

(** The pre-filter keeps each line together with its weight, in the order
    of the mask, and divides the kept weights by their sum. *)
Theorem prefilter_keeps_pairs (wave vrads wc w wc' w' : list R) :
  Data.prefilter wave vrads wc w = Ok (wc', w') ->
  exists vmin vmax wave_min wave_max,
    Spec.is_min vrads vmin /\ Spec.is_max vrads vmax /\
    Spec.is_min wave wave_min /\ Spec.is_max wave wave_max /\
    let kept := filter (fun l => Spec.retained wave_min wave_max vmin vmax (fst l))
                       (combine wc w) in
    combine wc' w' =
      map (fun l => (fst l, snd l / Spec.Rsum (map snd kept))) kept /\
    length w' = length wc'.
Proof.
  intros H. apply prefilter_ok in H
    as (vmin & vmax & wmin & wmax & Evmin & Evmax & Ewmin & Ewmax & Hwc & Hlen & Hw).
  cbv zeta in Hw. exists vmin, vmax, wmin, wmax.
  repeat split; try (now apply min_spec); try (now apply max_spec);
    try (apply (proj2 (min_spec _ _ Evmin))); try (apply (proj2 (max_spec _ _ Evmax)));
    try (apply (proj2 (min_spec _ _ Ewmin))); try (apply (proj2 (max_spec _ _ Ewmax))).
  - rewrite Hw, Hwc, <- select_filter, combine_map_r, select_combine by assumption.
    rewrite sum_Rsum.
    replace (Np.select w (map (Spec.retained wmin wmax vmin vmax) wc))
      with (map snd (filter (fun l => Spec.retained wmin wmax vmin vmax (fst l))
                            (combine wc w))); [reflexivity|].
    rewrite <- select_combine by assumption.
    apply map_snd_combine_eq.
    now apply select_length.
  - rewrite Hw, Hwc, length_map, <- select_filter. now apply select_length.
Qed.

(** With positive weights and at least one line kept, the weights the
    pre-filter returns are positive and sum to one. *)
Theorem prefilter_weights_sum_to_one (wave vrads wc w wc' w' : list R) :
  Data.prefilter wave vrads wc w = Ok (wc', w') ->
  wc' <> [] -> (forall x, In x w -> 0 < x) ->
  Np.sum w' = 1 /\ forall x, In x w' -> 0 < x.
Proof.
  intros H Hne Hpos. apply prefilter_ok in H
    as (vmin & vmax & wmin & wmax & _ & _ & _ & _ & Hwc & Hlen & Hw).
  cbv zeta in Hw.
  set (kept := Np.select w (map (Spec.retained wmin wmax vmin vmax) wc)) in *.
  assert (Hk : kept <> []).
  { intros E. apply Hne. apply length_zero_iff_nil.
    rewrite Hwc, <- select_filter.
    rewrite (select_length wc w _ (eq_sym Hlen)). fold kept. now rewrite E. }
  assert (Hkpos : forall x, In x kept -> 0 < x).
  { intros x Hx. apply Hpos. eapply select_In. exact Hx. }
  pose proof (Rsum_pos kept Hk Hkpos) as Htot.
  rewrite Hw, !sum_Rsum. split.
  - unfold Rdiv. rewrite Rsum_scale. field. lra.
  - intros x Hx. apply in_map_iff in Hx as (y & <- & Hy).
    apply Rdiv_lt_0_compat; auto.
Qed.

Lemma prefilter_weights_sum_to_one_witness :
  Np.sum [1 / (0 + 1)] = 1.
Proof.
  apply (prefilter_weights_sum_to_one demo_wave demo_vrads [5000] [1]
           [5000] [1 / (0 + 1)]).
  - exact demo_prefilter.
  - discriminate.
  - intros x [<-|[]]. lra.
Defined.
Lemma prefilter_keeps_pairs_witness :
  exists vmin vmax wave_min wave_max,
    Spec.is_min demo_vrads vmin /\ Spec.is_max demo_vrads vmax /\
    Spec.is_min demo_wave wave_min /\ Spec.is_max demo_wave wave_max /\
    let kept := filter (fun l => Spec.retained wave_min wave_max vmin vmax (fst l))
                       (combine [5000] [1]) in
    combine [5000] [1 / (0 + 1)] =
      map (fun l => (fst l, snd l / Spec.Rsum (map snd kept))) kept /\
    length [1 / (0 + 1)] = length [5000].
Proof.
  exact (prefilter_keeps_pairs demo_wave demo_vrads [5000] [1] [5000] [1 / (0 + 1)]
           demo_prefilter).
Defined.

(* ------------------------------------------------------------------ *)
(** ** The CCF of particular spectra *)

Lemma item_in_range (a : list R) (k : Z) :
  (- Z.of_nat (length a) <= k < Z.of_nat (length a))%Z ->
  Np.get a k = Ok (Spec.item a k).
Proof.
  intros H. pose proof (get_in_range a k H) as Hok. unfold Spec.item.
  destruct (Np.get a k); [reflexivity|discriminate].
Qed.


Lemma Rsum_map_ext_in {A : Type} (f g : A -> R) (l : list A) :
  (forall x, In x l -> f x = g x) -> Spec.Rsum (map f l) = Spec.Rsum (map g l).
Proof. intros H. f_equal. now apply map_ext_in. Qed.




(* ------------------------------------------------------------------ *)
(** ** Lines on a pixel and lines outside the spectrum *)

Lemma searchsorted_right_above (a : list R) (x : R) :
  (forall z, In z a -> x < z) -> Np.searchsorted_right a x = 0%nat.
Proof.
  destruct a as [|y t]; intros H; simpl; [reflexivity|].
  destruct (Rle_dec y x) as [Hle|]; [|reflexivity].
  specialize (H y (or_introl eq_refl)). lra.
Qed.

Lemma searchsorted_right_all (a : list R) (x : R) :
  (forall z, In z a -> z <= x) -> Np.searchsorted_right a x = length a.
Proof.
  induction a as [|y t IH]; intros H; simpl; [reflexivity|].
  destruct (Rle_dec y x) as [_|Hn].
  - f_equal. apply IH. intros z Hz. apply H. now right.
  - exfalso. apply Hn. apply H. now left.
Qed.

Lemma searchsorted_right_pixel (a : list R) :
  StronglySorted Rlt a ->
  forall k, (k < length a)%nat -> Np.searchsorted_right a (nth k a 0) = S k.
Proof.
  induction 1 as [|y t Hs IH Hall]; intros k Hk; simpl in *; [lia|].
  rewrite Forall_forall in Hall. destruct k as [|k].
  - destruct (Rle_dec y y) as [_|Hn]; [|lra].
    f_equal. now apply searchsorted_right_above.
  - assert (Hlt : y < nth k t 0) by (apply Hall, nth_In; lia).
    destruct (Rle_dec y (nth k t 0)) as [_|Hn]; [|lra].
    f_equal. apply IH. lia.
Qed.

Lemma item_nat (a : list R) (k : nat) :
  (k < length a)%nat -> Spec.item a (Z.of_nat k) = nth k a 0.
Proof. intros H. unfold Spec.item. now rewrite get_nat. Qed.

(** A single line whose shifted centre falls exactly on pixel [k], not the
    last one, picks the flux and the error of that pixel: with
    [side="right"] the pixel is the left neighbour and its fraction is one. *)
Theorem line_on_pixel
    (wave : list R) (flux_val flux_err : list (list R)) (i k : nat)
    (c x v : R) (fv fe : list R) :
  StronglySorted Rlt wave -> (S k < length wave)%nat ->
  c * (1 + v / Data.c_light) = nth k wave 0 ->
  nth_error flux_val i = Some fv -> nth_error flux_err i = Some fe ->
  length fv = length wave -> length fe = length wave ->
  Data.ccf_point wave flux_val flux_err i [c] [x] v =
    Ok (x * nth k fv 0, Rabs (x * nth k fe 0)).
Proof.
  intros Hs Hk Hc Hfv Hfe Lfv Lfe.
  assert (Hss : Np.searchsorted_right wave (c * (1 + v / Data.c_light)) = S k).
  { rewrite Hc. apply searchsorted_right_pixel; [assumption|lia]. }
  rewrite (ccf_point_ok wave flux_val flux_err i [c] [x] fv fe v);
    try assumption; try reflexivity; try discriminate.
  - assert (Hir : Spec.i_r wave c v = Z.of_nat (S k))
      by (unfold Spec.i_r, Spec.wc_shift; now rewrite Hss).
    assert (Hil : Spec.i_l wave c v = Z.of_nat k)
      by (unfold Spec.i_l; rewrite Hir; lia).
    assert (Hfr : Spec.f_r wave c v = 0).
    { unfold Spec.f_r. rewrite Hil, Hir, !item_nat by lia.
      unfold Spec.wc_shift. rewrite Hc. unfold Rdiv. ring. }
    unfold Spec.ccf_value, Spec.ccf_error, Spec.f_l. cbn [combine map fst snd Spec.Rsum fold_right].
    rewrite Hfr, Hil, Hir, !item_nat by lia. f_equal. f_equal.
    + ring.
    + replace (x ^ 2 * (nth k fe 0 ^ 2 * (1 - 0) + nth (S k) fe 0 ^ 2 * 0) + 0)
        with (Rsqr (x * nth k fe 0)) by (unfold Rsqr; ring).
      apply sqrt_Rsqr_abs.
  - intros c' [<-|[]]. rewrite Hss. lia.
Qed.

Lemma line_on_pixel_witness :
  Data.ccf_point demo_wave demo_flux demo_ferr 0 [5000] [1] 0 =
    Ok (1 * nth 1 [1; 0.5; 1] 0, Rabs (1 * nth 1 [0.1; 0.1; 0.1] 0)).
Proof.
  apply (line_on_pixel demo_wave demo_flux demo_ferr 0 1 5000 1 0).
  - unfold demo_wave. repeat constructor; lra.
  - simpl. lia.
  - unfold Data.c_light. simpl. lra.
  - reflexivity.
  - reflexivity.
  - reflexivity.
  - reflexivity.
Defined.

Lemma take_raises_IndexError (a : list R) (ks : list Z) (e : exn) :
  Np.take a ks = Raise e -> e = IndexError.
Proof.
  unfold Np.take. induction ks as [|k ks IH]; simpl; [discriminate|].
  destruct (Np.get a k) as [y|e'] eqn:Ek.
  - destruct (mapM (Np.get a) ks); [discriminate|]. intros [= <-]. now apply IH.
  - intros [= <-]. unfold Np.get in Ek.
    destruct ((0 <=? k) && (k <? Z.of_nat (length a)))%Z; [discriminate|].
    destruct ((- Z.of_nat (length a) <=? k) && (k <? 0))%Z; [discriminate|].
    now injection Ek.
Qed.

Lemma take_out_of_range {A : Type} (a : list R) (g : A -> Z) (l : list A) (x : A) :
  In x l -> (Z.of_nat (length a) <= g x)%Z ->
  Np.take a (map g l) = Raise IndexError.
Proof.
  intros Hin Hx.
  destruct (mapM_raises (Np.get a) (map g l) (g x)) as [e He].
  - now apply in_map.
  - exists IndexError. unfold Np.get.
    destruct ((0 <=? g x) && (g x <? Z.of_nat (length a)))%Z eqn:E1.
    + apply andb_true_iff in E1 as [_ E1]. apply Z.ltb_lt in E1. lia.
    + destruct ((- Z.of_nat (length a) <=? g x) && (g x <? 0))%Z eqn:E2; [|reflexivity].
      apply andb_true_iff in E2 as [_ E2]. apply Z.ltb_lt in E2. lia.
  - unfold Np.take in *. rewrite He. f_equal. now apply (take_raises_IndexError a (map g l)).
Qed.

(** A line whose shifted centre is at or beyond the last pixel (no pixel is
    above it) makes [wave[i_r]] fail: the loop body raises [IndexError]. *)
Theorem line_beyond_spectrum_raises
    (wave : list R) (flux_val flux_err : list (list R)) (i : nat)
    (wc w : list R) (c v : R) :
  In c wc ->
  (forall z, In z wave -> z <= c * (1 + v / Data.c_light)) ->
  Data.ccf_point wave flux_val flux_err i wc w v = Raise IndexError.
Proof.
  intros Hc Hall. unfold Data.ccf_point.
  assert (Hshift : Data.doppler_shift wc v =
                   Ok (map (fun c => c * (1 + v / Data.c_light)) wc)).
  { destruct wc; [destruct Hc|reflexivity]. }
  rewrite Hshift. cbn [Py.bind]. rewrite !map_map.
  destruct (Np.take wave _) as [wl|e] eqn:El.
  - cbn [Py.bind].
    rewrite (take_out_of_range wave
               (fun x => Z.of_nat (Np.searchsorted_right wave (x * (1 + v / Data.c_light))))
               wc c Hc); [reflexivity|].
    rewrite (searchsorted_right_all wave _ Hall). lia.
  - cbn [Py.bind]. f_equal. eapply take_raises_IndexError. exact El.
Qed.

Lemma line_beyond_spectrum_raises_witness :
  Data.ccf_point demo_wave demo_flux demo_ferr 0 [5001] [1] 0 = Raise IndexError.
Proof.
  apply (line_beyond_spectrum_raises demo_wave demo_flux demo_ferr 0 [5001] [1] 5001 0).
  - now left.
  - unfold demo_wave, Data.c_light. intros z [<-|[<-|[<-|[]]]]; lra.
Defined.

(** A line whose shifted centre is below the first pixel raises nothing:
    its left index is [-1], which numpy reads as the last pixel, and the
    interpolation runs between the last and the first pixel (which differ,
    so that the denominator is not zero). *)
Theorem line_below_spectrum_wraps
    (wave : list R) (flux_val flux_err : list (list R)) (i : nat)
    (c x v : R) (fv fe : list R) :
  wave <> [] -> nth 0 wave 0 <> last wave 0 ->
  (forall z, In z wave -> c * (1 + v / Data.c_light) < z) ->
  nth_error flux_val i = Some fv -> nth_error flux_err i = Some fe ->
  length fv = length wave -> length fe = length wave ->
  let f_r := (c * (1 + v / Data.c_light) - last wave 0) / (nth 0 wave 0 - last wave 0) in
  Data.ccf_point wave flux_val flux_err i [c] [x] v =
    Ok (x * (last fv 0 * (1 - f_r) + nth 0 fv 0 * f_r),
        sqrt (x ^ 2 * (last fe 0 ^ 2 * (1 - f_r) + nth 0 fe 0 ^ 2 * f_r))).
Proof.
  intros Hne _ Hall Hfv Hfe Lfv Lfe f_r.
  assert (Hn : (0 < length wave)%nat) by (destruct wave; [congruence|simpl; lia]).
  assert (Hss : Np.searchsorted_right wave (c * (1 + v / Data.c_light)) = 0%nat)
    by now apply searchsorted_right_above.
  assert (Hlast : forall a, length a = length wave -> Spec.item a (-1) = last a 0).
  { intros a La. unfold Spec.item. rewrite get_last; [reflexivity|].
    intros ->. simpl in La. lia. }
  assert (Hfirst : forall a, length a = length wave -> Spec.item a 0 = nth 0 a 0).
  { intros a La. apply (item_nat a 0). lia. }
  rewrite (ccf_point_ok wave flux_val flux_err i [c] [x] fv fe v);
    try assumption; try reflexivity; try discriminate.
  - assert (Hir : Spec.i_r wave c v = 0%Z)
      by (unfold Spec.i_r, Spec.wc_shift; now rewrite Hss).
    assert (Hil : Spec.i_l wave c v = (-1)%Z) by (unfold Spec.i_l; now rewrite Hir).
    assert (Hfr : Spec.f_r wave c v = f_r).
    { unfold Spec.f_r. rewrite Hil, Hir, (Hlast wave eq_refl), (Hfirst wave eq_refl).
      reflexivity. }
    unfold Spec.ccf_value, Spec.ccf_error, Spec.f_l.
    cbn [combine map fst snd Spec.Rsum fold_right].
    rewrite Hfr, Hil, Hir, !Hlast, !Hfirst by assumption.
    do 2 f_equal; [ring|f_equal; ring].
  - intros c' [<-|[]]. rewrite Hss. lia.
Qed.

Lemma line_below_spectrum_wraps_witness :
  Data.ccf_point demo_wave demo_flux demo_ferr 0 [4998] [1] 0 =
    Ok (1 * (last [1; 0.5; 1] 0 *
               (1 - (4998 * (1 + 0 / Data.c_light) - last demo_wave 0) /
                    (nth 0 demo_wave 0 - last demo_wave 0)) +
             nth 0 [1; 0.5; 1] 0 *
               ((4998 * (1 + 0 / Data.c_light) - last demo_wave 0) /
                (nth 0 demo_wave 0 - last demo_wave 0))),
        sqrt (1 ^ 2 *
              (last [0.1; 0.1; 0.1] 0 ^ 2 *
                 (1 - (4998 * (1 + 0 / Data.c_light) - last demo_wave 0) /
                      (nth 0 demo_wave 0 - last demo_wave 0)) +
               nth 0 [0.1; 0.1; 0.1] 0 ^ 2 *
                 ((4998 * (1 + 0 / Data.c_light) - last demo_wave 0) /
                  (nth 0 demo_wave 0 - last demo_wave 0))))).
Proof.
  apply (line_below_spectrum_wraps demo_wave demo_flux demo_ferr 0 4998 1 0).
  - discriminate.
  - unfold demo_wave. simpl. lra.
  - unfold demo_wave, Data.c_light. intros z [<-|[<-|[<-|[]]]]; lra.
  - reflexivity.
  - reflexivity.
  - reflexivity.
  - reflexivity.
Defined.

(* ------------------------------------------------------------------ *)
(** ** The CCF is a weighted mean of the flux *)

Lemma Rsum_weighted_bounds {A : Type} (wt g : A -> R) (m M : R) (l : list A) :
  (forall x, In x l -> 0 <= wt x /\ m <= g x <= M) ->
  m * Spec.Rsum (map wt l) <= Spec.Rsum (map (fun x => wt x * g x) l)
    <= M * Spec.Rsum (map wt l).
Proof.
  induction l as [|x l IH]; intros H; simpl; [lra|].
  destruct (H x (or_introl eq_refl)) as [Hw Hg].
  assert (IH' := IH (fun y Hy => H y (or_intror Hy))). nra.
Qed.

(** The interpolation fraction of a bracketed line lies in [0, 1). *)
Lemma f_r_range (wave : list R) (c v : R) :
  StronglySorted Rlt wave ->
  (1 <= Np.searchsorted_right wave (c * (1 + v / Data.c_light)) < length wave)%nat ->
  0 <= Spec.f_r wave c v < 1.
Proof.
  intros Hs Hr.
  assert (Hir : Spec.i_r wave c v =
                Z.of_nat (Np.searchsorted_right wave (c * (1 + v / Data.c_light))))
    by reflexivity.
  assert (Hlo : forall j, (j < Np.searchsorted_right wave (c * (1 + v / Data.c_light)))%nat ->
                  nth j wave 0 <= c * (1 + v / Data.c_light))
    by (intros j; apply searchsorted_right_prefix).
  assert (Hhi : c * (1 + v / Data.c_light) <
                nth (Np.searchsorted_right wave (c * (1 + v / Data.c_light))) wave 0)
    by (apply searchsorted_right_stop; lia).
  unfold Spec.f_r, Spec.i_l. rewrite Hir. unfold Spec.wc_shift.
  remember (c * (1 + v / Data.c_light)) as x eqn:Ex.
  remember (Np.searchsorted_right wave x) as k eqn:Ek.
  replace (Z.of_nat k - 1)%Z with (Z.of_nat (k - 1)) by lia.
  rewrite !item_nat by lia.
  specialize (Hlo (k - 1)%nat ltac:(lia)).
  assert (Hd : 0 < nth k wave 0 - nth (k - 1) wave 0) by lra.
  split.
  - apply Rmult_le_pos; [lra|]. left. now apply Rinv_0_lt_compat.
  - apply (Rmult_lt_reg_r (nth k wave 0 - nth (k - 1) wave 0)); [assumption|].
    unfold Rdiv. rewrite Rmult_assoc, Rinv_l by lra. lra.
Qed.

(** For a sorted wavelength array, non-negative weights and lines that are
    all bracketed by two pixels, the CCF value at a velocity lies between
    the smallest and the largest flux of the epoch, each multiplied by the
    sum of the weights. *)
Theorem ccf_value_between_flux_extremes
    (wave : list R) (flux_val flux_err : list (list R)) (i : nat)
    (wc w fv fe : list R) (v m M : R) :
  StronglySorted Rlt wave ->
  wc <> [] -> length w = length wc ->
  nth_error flux_val i = Some fv -> nth_error flux_err i = Some fe ->
  length fv = length wave -> length fe = length wave ->
  (forall c, In c wc ->
     (1 <= Np.searchsorted_right wave (c * (1 + v / Data.c_light)) < length wave)%nat) ->
  (forall x, In x w -> 0 <= x) ->
  (forall y, In y fv -> m <= y <= M) ->
  exists val err,
    Data.ccf_point wave flux_val flux_err i wc w v = Ok (val, err) /\
    m * Spec.Rsum w <= val <= M * Spec.Rsum w.
Proof.
  intros Hs Hwc Hlen Hfv Hfe Lfv Lfe Hin Hw Hflux.
  eexists _, _. split.
  - apply (ccf_point_ok wave flux_val flux_err i wc w fv fe v); auto.
    intros c Hc. specialize (Hin c Hc). lia.
  - unfold Spec.ccf_value.
    replace (Spec.Rsum w) with (Spec.Rsum (map snd (combine wc w)))
      by (now rewrite map_snd_combine_eq).
    apply (Rsum_weighted_bounds snd
             (fun l => Spec.item fv (Spec.i_l wave (fst l) v) * Spec.f_l wave (fst l) v +
                       Spec.item fv (Spec.i_r wave (fst l) v) * Spec.f_r wave (fst l) v)).
    intros [c x] Hl. cbn [fst snd].
    assert (Hc : In c wc) by (eapply in_combine_l; exact Hl).
    assert (Hx : In x w) by (eapply in_combine_r; exact Hl).
    split; [now apply Hw|].
    specialize (Hin c Hc). pose proof (f_r_range wave c v Hs Hin) as Hfr.
    assert (Hir : Spec.i_r wave c v =
                  Z.of_nat (Np.searchsorted_right wave (c * (1 + v / Data.c_light))))
      by reflexivity.
    unfold Spec.i_l. rewrite Hir.
    remember (Np.searchsorted_right wave (c * (1 + v / Data.c_light))) as k eqn:Ek.
    replace (Z.of_nat k - 1)%Z with (Z.of_nat (k - 1)) by lia.
    rewrite !item_nat by lia. unfold Spec.f_l.
    assert (H1 : m <= nth (k - 1) fv 0 <= M) by (apply Hflux, nth_In; lia).
    assert (H2 : m <= nth k fv 0 <= M) by (apply Hflux, nth_In; lia).
    nra.
Qed.

Lemma ccf_value_between_flux_extremes_witness :
  exists val err,
    Data.ccf_point demo_wave demo_flux demo_ferr 0 [5000] [1] 30 = Ok (val, err) /\
    0.5 * Spec.Rsum [1] <= val <= 1 * Spec.Rsum [1].
Proof.
  apply (ccf_value_between_flux_extremes demo_wave demo_flux demo_ferr 0 [5000] [1]
           [1; 0.5; 1] [0.1; 0.1; 0.1] 30 0.5 1).
  - unfold demo_wave. repeat constructor; lra.
  - discriminate.
  - reflexivity.
  - reflexivity.
  - reflexivity.
  - reflexivity.
  - reflexivity.
  - intros c [<-|[]]. unfold demo_wave. eval_R. simpl. lia.
  - intros x [<-|[]]. lra.
  - intros y [<-|[<-|[<-|[]]]]; lra.
Defined.

(* ------------------------------------------------------------------ *)
(** ** Signs of the initial guess *)

Lemma nondecreasing_nth (a : list R) :
  StronglySorted Rle a ->
  forall i j, (i <= j < length a)%nat -> nth i a 0 <= nth j a 0.
Proof.
  induction 1 as [|y t Hs IH Hall]; simpl; intros i j Hij; [lia|].
  destruct j; [destruct i; [lra|lia]|]. destruct i.
  - rewrite Forall_forall in Hall. apply Hall. apply nth_In. lia.
  - apply IH. lia.
Qed.

(** Whenever the initial guess exists, its depth [a0] is positive and its
    centre [b0] is a velocity of the grid; on a non-decreasing grid its
    width [c0] is not negative. *)
Theorem initial_guess_signs (vrads ccf_val : list R) (C0 a0 b0 c0 : R) :
  length vrads = length ccf_val ->
  Data.initial_guess vrads ccf_val = Ok (C0, a0, b0, c0) ->
  0 < a0 /\ In b0 vrads /\ (StronglySorted Rle vrads -> 0 <= c0).
Proof.
  intros Hlen H.
  destruct (Np.max ccf_val) as [C|] eqn:Emax;
    [|unfold Data.initial_guess in H; rewrite Emax in H; discriminate].
  destruct (Np.min ccf_val) as [lowest|] eqn:Emin;
    [|unfold Data.initial_guess in H; rewrite Emax, Emin in H; discriminate].
  destruct (initial_guess_cases vrads ccf_val C lowest Hlen Emax Emin)
    as [(kmin & k & (Hkm & _) & (Hk & Hb & _) & Hle & Heq)|[_ Hr]];
    [|rewrite Hr in H; discriminate].
  rewrite Heq in H. injection H as <- <- <- <-.
  apply min_spec in Emin as [_ Hmin].
  unfold Spec.below_half_depth in Hb.
  specialize (Hmin _ (nth_In ccf_val 0 Hk)).
  split; [lra|]. split; [apply nth_In; lia|].
  intros Hs. pose proof (nondecreasing_nth vrads Hs k kmin ltac:(lia)). lra.
Qed.

Lemma initial_guess_signs_witness :
  0 < 1 - 0 /\ In 0 [-2; -1; 0] /\
  (StronglySorted Rle [-2; -1; 0] -> 0 <= (0 - -1) * 2).
Proof.
  apply (initial_guess_signs [-2; -1; 0] [1; 0.4; 0] 1).
  - reflexivity.
  - exact left_flank.
Defined.

(* ------------------------------------------------------------------ *)
(** ** The velocity grid *)

Lemma ceil_half (n : nat) : Np.ceil (INR n + / 2) = Z.of_nat (S n).
Proof.
  unfold Np.ceil, Int_part.
  rewrite <- (tech_up (- (INR n + / 2)) (- Z.of_nat n)).
  - lia.
  - rewrite opp_IZR, <- INR_IZR_INZ. lra.
  - rewrite opp_IZR, <- INR_IZR_INZ. lra.
Qed.

Lemma ceil_lt (x : R) : IZR (Np.ceil x) < x + 1.
Proof.
  unfold Np.ceil. rewrite opp_IZR.
  destruct (base_Int_part (- x)) as [_ H]. lra.
Qed.

Lemma nth_even_grid (start step : R) (n j : nat) :
  (j < n)%nat ->
  nth j (map (fun i => start + INR i * step) (seq 0 n)) 0 = start + INR j * step.
Proof.
  intros H.
  rewrite (nth_indep _ 0 ((fun i => start + INR i * step) 0%nat))
    by (rewrite length_map, length_seq; lia).
  rewrite (map_nth (fun i => start + INR i * step)), seq_nth by lia.
  reflexivity.
Qed.

(** When the span of [vgrid] is a whole number [n] of positive steps, the
    grid has [n + 1] evenly spaced points and its last point is the stop
    value itself. *)
Theorem velocity_grid_includes_stop (start step : R) (n : nat) :
  0 < step ->
  let vrads := map (fun i => start + INR i * step) (seq 0 (S n)) in
  Data.velocity_grid [start; start + INR n * step; step] = Ok vrads /\
  length vrads = S n /\ nth 0 vrads 0 = start /\ last vrads 0 = start + INR n * step.
Proof.
  intros Hstep vrads. split; [|split; [|split]].
  - unfold Data.velocity_grid. cbn [Np.at_nat nth_error Py.bind]. unfold Np.arange.
    replace ((start + INR n * step + step / 2 - start) / step) with (INR n + / 2)
      by (field; lra).
    rewrite ceil_half, Nat2Z.id. reflexivity.
  - unfold vrads. now rewrite length_map, length_seq.
  - unfold vrads. rewrite nth_even_grid by lia. simpl. lra.
  - rewrite <- nth_last. unfold vrads at 1. rewrite length_map, length_seq.
    unfold vrads. rewrite nth_even_grid by lia.
    replace (S n - 1)%nat with n by lia. reflexivity.
Qed.

Lemma velocity_grid_includes_stop_witness :
  Data.velocity_grid [-30; -30 + INR 2 * 30; 30] =
  Ok (map (fun i => -30 + INR i * 30) (seq 0 3)).
Proof.
  apply (velocity_grid_includes_stop (-30) 30 2). lra.
Defined.

(** For a positive step every grid velocity lies between the start and the
    stop plus half a step, and a [vgrid] of fewer than three numbers raises
    [IndexError]. *)
Theorem velocity_grid_range (vgrid : list R) :
  ((length vgrid < 3)%nat -> Data.velocity_grid vgrid = Raise IndexError) /\
  (forall start stop step rest vrads v,
     vgrid = start :: stop :: step :: rest -> 0 < step ->
     Data.velocity_grid vgrid = Ok vrads -> In v vrads ->
     start <= v < stop + step / 2).
Proof.
  split.
  - destruct vgrid as [|a [|b [|c t]]]; simpl; try lia; reflexivity.
  - intros start stop step rest vrads v -> Hstep H Hv.
    unfold Data.velocity_grid in H. cbn [Np.at_nat nth_error Py.bind] in H.
    injection H as <-. unfold Np.arange in Hv.
    apply in_map_iff in Hv as (i & <- & Hi). apply in_seq in Hi.
    set (y := (stop + step / 2 - start) / step) in *.
    assert (Hi' : INR i < y).
    { assert (Hz : (Z.of_nat i < Np.ceil y)%Z) by lia.
      apply IZR_lt in Hz. rewrite <- INR_IZR_INZ in Hz.
      assert (Hz' : INR i + 1 <= IZR (Np.ceil y)).
      { rewrite INR_IZR_INZ, <- plus_IZR. apply IZR_le. lia. }
      pose proof (ceil_lt y). lra. }
    pose proof (pos_INR i). split; [nra|].
    assert (Hy : y * step = stop + step / 2 - start) by (unfold y; field; lra).
    nra.
Qed.

Lemma velocity_grid_range_witness :
  Data.velocity_grid [-30; 30] = Raise IndexError.
Proof.
  apply (velocity_grid_range [-30; 30]). simpl. lia.
Defined.

(* ------------------------------------------------------------------ *)
(** ** The RV error on an evenly spaced grid *)

Lemma gradient_even_grid (start step : R) (n j : nat) :
  (2 <= n)%nat -> (j < n)%nat ->
  Np.gradient_at (map (fun i => start + INR i * step) (seq 0 n)) j = step.
Proof.
  intros Hn Hj. unfold Np.gradient_at. rewrite length_map, length_seq.
  destruct (Nat.eqb_spec j 0) as [->|H0].
  - rewrite !nth_even_grid by lia. simpl. lra.
  - destruct (Nat.eqb_spec j (n - 1)) as [->|Hl].
    + rewrite !nth_even_grid by lia.
      replace (n - 1)%nat with (S (n - 2)) by lia. rewrite S_INR. lra.
    + rewrite !nth_even_grid by lia.
      replace (j + 1)%nat with (S (S (j - 1))) by lia. rewrite !S_INR. lra.
Qed.

(** On an evenly spaced grid of positive step, with CCF errors and CCF
    gradients that are not zero, the RV error is the step divided by the
    root of the sum of the squared ratios of the CCF gradient to the CCF
    error. *)
Theorem rv_error_on_even_grid (start step : R) (n : nat) (ccf_val ccf_err : list R) :
  0 < step -> (2 <= n)%nat -> length ccf_val = n -> length ccf_err = n ->
  (forall j, (j < n)%nat ->
     nth j ccf_err 0 <> 0 /\ Np.gradient_at ccf_val j <> 0) ->
  Data.vrad_error (map (fun i => start + INR i * step) (seq 0 n)) ccf_val ccf_err =
    Ok (step / sqrt (Spec.Rsum
                       (map (fun j => (Np.gradient_at ccf_val j / nth j ccf_err 0) ^ 2)
                            (seq 0 n)))).
Proof.
  intros Hstep Hn L1 L2 _.
  rewrite vrad_error_ok by (rewrite ?length_map, ?length_seq; lia).
  f_equal. unfold Spec.rv_error. rewrite length_map, length_seq.
  assert (Hsum : Spec.Rsum
            (map (fun j => (1 / Rabs (nth j ccf_err 0 *
                     Spec.dv_dccf (map (fun i => start + INR i * step) (seq 0 n))
                                  ccf_val j)) ^ 2) (seq 0 n)) =
          Spec.Rsum (map (fun j => (Np.gradient_at ccf_val j / nth j ccf_err 0) ^ 2)
                         (seq 0 n)) * (/ step) ^ 2).
  { rewrite <- Rsum_scale, map_map. apply Rsum_map_ext_in. intros j Hj.
    apply in_seq in Hj. unfold Spec.dv_dccf. rewrite gradient_even_grid by lia.
    unfold Rdiv. rewrite Rmult_1_l, !Rabs_mult, Rabs_inv, !Rinv_mult, Rinv_inv.
    rewrite <- !Rabs_inv, !Rpow_mult_distr, !pow2_abs. ring. }
  rewrite Hsum, Rmult_comm, sqrt_mult_alt by apply pow2_ge_0.
  rewrite sqrt_pow2 by (left; now apply Rinv_0_lt_compat).
  unfold Rdiv. rewrite Rmult_1_l, Rinv_mult, Rinv_inv. reflexivity.
Qed.

Lemma rv_error_on_even_grid_witness :
  Data.vrad_error (map (fun i => -30 + INR i * 30) (seq 0 3)) [1; 0.5; 0.2]
                  [0.1; 0.1; 0.1] =
    Ok (30 / sqrt (Spec.Rsum
                     (map (fun j => (Np.gradient_at [1; 0.5; 0.2] j /
                                     nth j [0.1; 0.1; 0.1] 0) ^ 2)
                          (seq 0 3)))).
Proof.
  apply (rv_error_on_even_grid (-30) 30 3 [1; 0.5; 0.2] [0.1; 0.1; 0.1]);
    try reflexivity; try lra; try lia.
  intros [|[|[|j]]] Hj; try lia; unfold Np.gradient_at; simpl; split; lra.
Defined.

(* ------------------------------------------------------------------ *)
(** ** The columns of the mask and the criteria *)

Lemma nth_map_default {A B : Type} (f : A -> B) (l : list A) (j : nat) (da : A) (db : B) :
  (j < length l)%nat -> nth j (map f l) db = f (nth j l da).
Proof.
  intros H. rewrite (nth_indep _ db (f da)) by (now rewrite length_map).
  apply map_nth.
Qed.









(* ------------------------------------------------------------------ *)
(** ** The choice of the mask *)

Section MaskChoiceFacts.
Variable sptype_to_num : string -> R.

(** The mask chosen is a [.csv] name of the listing whose spectral type,
    read before the first underscore, is numerically closest to the star's;
    a listing without any [.csv] name raises [ValueError]. *)
Theorem closest_mask_is_closest (listing : list string) (sptype : string) :
  ((forall name, In name listing -> Data.endswith name ".csv" = false) ->
   Data.closest_mask sptype_to_num listing sptype = Raise ValueError) /\
  (forall chosen,
     Data.closest_mask sptype_to_num listing sptype = Ok chosen ->
     In chosen listing /\ Data.endswith chosen ".csv" = true /\
     forall name, In name listing -> Data.endswith name ".csv" = true ->
       Rabs (sptype_to_num sptype - sptype_to_num (Data.before_underscore chosen)) <=
       Rabs (sptype_to_num sptype - sptype_to_num (Data.before_underscore name))).
Proof.
  unfold Data.closest_mask. split.
  - intros H.
    assert (E : filter (fun mask => Data.endswith mask ".csv") listing = []).
    { induction listing as [|x l IH]; [reflexivity|]. simpl.
      rewrite (H x (or_introl eq_refl)). apply IH. intros n Hn. apply H. now right. }
    rewrite E. reflexivity.
  - intros chosen H. cbv zeta in H. rewrite !map_map in H. inv_bind H.
    injection H as <-.
    set (masks := filter (fun mask => Data.endswith mask ".csv") listing) in *.
    set (dist := fun m => Rabs (sptype_to_num sptype -
                                sptype_to_num (Data.before_underscore m))) in *.
    apply argmin_spec in E as (Hk & Hmin & _). rewrite length_map in Hk, Hmin.
    assert (Hin : In (nth a masks EmptyString) masks) by now apply nth_In.
    apply filter_In in Hin as [Hin1 Hin2]. repeat split; auto.
    intros name Hn Hcsv.
    assert (Hm : In name masks) by (apply filter_In; auto).
    destruct (In_nth _ _ EmptyString Hm) as (j & Hj & <-).
    specialize (Hmin j Hj).
    rewrite !(nth_map_default dist masks _ EmptyString 0) in Hmin by assumption.
    exact Hmin.
Qed.

End MaskChoiceFacts.

Lemma closest_mask_is_closest_witness :
  Data.closest_mask (fun s => INR (String.length s))
    ["readme.txt"%string; "notes"%string] "G2"%string = Raise ValueError.
Proof.
  apply (closest_mask_is_closest (fun s => INR (String.length s))
           ["readme.txt"%string; "notes"%string] "G2"%string).
  intros name [<-|[<-|[]]]; reflexivity.
Defined.

(* ------------------------------------------------------------------ *)
(** ** The binned periodogram: failures, order and bounds *)

Lemma get_nil (k : Z) : Np.get [] k = Raise IndexError.
Proof.
  unfold Np.get. simpl.
  destruct ((0 <=? k)%Z && (k <? 0)%Z) eqn:E.
  - apply andb_true_iff in E as [H1 H2]. apply Z.leb_le in H1. apply Z.ltb_lt in H2. lia.
  - destruct ((- 0 <=? k)%Z && (k <? 0)%Z) eqn:E'; [|reflexivity].
    apply andb_true_iff in E' as [H1 H2]. apply Z.leb_le in H1. apply Z.ltb_lt in H2. lia.
Qed.

Lemma mapM_head_raises {A B : Type} (f : A -> result B) (x : A) (l : list A) (e : exn) :
  f x = Raise e -> mapM f (x :: l) = Raise e.
Proof. intros H. simpl. now rewrite H. Qed.

Section VpsdFacts.

Variable log10 : R -> R.
Variable pow10 : R -> R.

(** [compute_vpsd] fails exactly on an empty frequency array and on a power
    array whose length differs from that of the frequencies, in both cases
    with [IndexError]; the length of the phase array plays no role. *)
Theorem compute_vpsd_fails_iff (freq vps phi : list R) (win_area : R) :
  (Star.compute_vpsd log10 pow10 freq vps phi win_area = Raise IndexError <->
   freq = [] \/ length vps <> length freq) /\
  (forall e, Star.compute_vpsd log10 pow10 freq vps phi win_area = Raise e ->
             e = IndexError).
Proof.
  assert (Hbad : freq = [] \/ length vps <> length freq ->
                 Star.compute_vpsd log10 pow10 freq vps phi win_area = Raise IndexError).
  { intros H. destruct (list_eq_dec Req_dec_T freq []) as [->|Hne].
    - unfold Star.compute_vpsd. now rewrite get_nil.
    - destruct H as [H|H]; [contradiction|].
      unfold Star.compute_vpsd.
      rewrite (get_first freq Hne). cbn [Py.bind].
      rewrite (get_last freq Hne). cbn [Py.bind]. cbv zeta.
      set (fb := Star.freq_bin log10 pow10 (nth 0 freq 0) (last freq 0)).
      rewrite (map2_adjacent _ 0 fb 50) by apply edges_length.
      rewrite length_map, length_seq.
      change (seq 0 50) with (0%nat :: seq 1 49).
      rewrite (mapM_head_raises _ _ _ IndexError); [reflexivity|].
      unfold Star.vps_avg_at, Np.bool_index.
      rewrite bin_mask_length.
      destruct (Nat.eqb (length vps) (length freq)) eqn:E; [|reflexivity].
      apply Nat.eqb_eq in E. congruence. }
  destruct (list_eq_dec Req_dec_T freq []) as [E|Hne];
    [|destruct (Nat.eq_dec (length vps) (length freq)) as [Hl|Hl]].
  - split; [split; auto|]. intros e He. rewrite Hbad in He by auto. congruence.
  - rewrite (compute_vpsd_ok log10 pow10 freq vps phi win_area Hne Hl). split.
    + split; [discriminate|]. intros [H|H]; congruence.
    + discriminate.
  - split; [split; auto|]. intros e He. rewrite Hbad in He by auto. congruence.
Qed.

End VpsdFacts.

Lemma sorted_map_filter_seq {B : Type} (rel : B -> B -> Prop) (f : nat -> B)
    (p : nat -> bool) (n : nat) :
  forall a,
    (forall i j, In i (filter p (seq a n)) -> In j (filter p (seq a n)) ->
                 (i < j)%nat -> rel (f i) (f j)) ->
    StronglySorted rel (map f (filter p (seq a n))).
Proof.
  induction n as [|n IH]; intros a H; [constructor|].
  cbn [seq filter] in *. destruct (p a) eqn:Ea.
  - cbn [map]. constructor.
    + apply IH. intros i j Hi Hj. apply H; now right.
    + apply Forall_forall. intros y Hy.
      apply in_map_iff in Hy as (j & <- & Hj).
      apply H; [now left|now right|].
      apply filter_In in Hj as [Hj _]. apply in_seq in Hj. lia.
  - apply IH. exact H.
Qed.

Lemma sorted_map_valid_bins {B : Type} (rel : B -> B -> Prop) (f : nat -> B)
    (e : nat -> R) (freq vps : list R) :
  (forall i j, In i (Spec.valid_bins e freq vps) -> In j (Spec.valid_bins e freq vps) ->
               (i < j)%nat -> rel (f i) (f j)) ->
  StronglySorted rel (map f (Spec.valid_bins e freq vps)).
Proof.
  unfold Spec.valid_bins. intros H. apply sorted_map_filter_seq. exact H.
Qed.

Section VpsdOrder.

Variable log10 : R -> R.
Variable pow10 : R -> R.

(** The float64 power of ten does not decrease when its exponent grows. *)
Hypothesis pow10_monotone : forall x y, x <= y -> pow10 x <= pow10 y.

(** A bin with room between its edges shows that the edges do not
    decrease. *)
Lemma edges_nondecreasing (lo hi : R) (i j k : nat) :
  Spec.edge log10 pow10 lo hi i < Spec.edge log10 pow10 lo hi (i + 1) ->
  (j <= k)%nat ->
  Spec.edge log10 pow10 lo hi j <= Spec.edge log10 pow10 lo hi k.
Proof.
  intros H Hjk.
  destruct (Rle_dec 0 ((log10 hi - log10 lo) / 50)) as [Hs|Hs].
  - now apply edge_le_up.
  - assert (Hs' : (log10 hi - log10 lo) / 50 <= 0) by lra.
    assert (Hii : (i <= i + 1)%nat) by lia.
    pose proof (edge_le_down log10 pow10 pow10_monotone lo hi i (i + 1) Hs' Hii). lra.
Qed.

(** The bins do not overlap: a frequency is in the mask of at most one
    bin.  A frequency strictly between the outermost edges that equals no
    edge is in the mask of one bin. *)
Theorem each_frequency_in_one_bin (freq : list R) (k : nat) :
  (k < length freq)%nat ->
  let fb := Star.freq_bin log10 pow10 (nth 0 freq 0) (last freq 0) in
  let member i :=
    nth k (Star.bin_mask freq (nth i fb 0) (nth (i + 1) fb 0)) false = true in
  (forall i j, (i < 50)%nat -> (j < 50)%nat -> member i -> member j -> i = j) /\
  (nth 0 fb 0 < nth k freq 0 < nth 50 fb 0 ->
   (forall m, (m <= 50)%nat -> nth k freq 0 <> nth m fb 0) ->
   exists i, (i < 50)%nat /\ member i).
Proof.
  intros Hk fb member.
  set (e := Spec.edge log10 pow10 (nth 0 freq 0) (last freq 0)).
  assert (Hfb : forall i, (i <= 50)%nat -> nth i fb 0 = e i)
    by (intros i Hi; now apply nth_freq_bin).
  assert (Hiff : forall i, (i < 50)%nat ->
            (member i <-> e i < nth k freq 0 < e (i + 1)%nat)).
  { intros i Hi. unfold member. rewrite nth_bin_mask by assumption.
    rewrite andb_true_iff, !Rltb_true, !Hfb by lia. tauto. }
  split.
  - assert (Hlt : forall i j, (i < 50)%nat -> (j < 50)%nat -> member i -> member j ->
                    ~ (i < j)%nat).
    { intros i j Hi Hj Mi Mj Hij. apply Hiff in Mi, Mj; try assumption.
      assert (Hstep : e i < e (i + 1)%nat) by lra.
      pose proof (edges_nondecreasing _ _ i (i + 1) j Hstep ltac:(lia)) as H.
      fold e in H. lra. }
    intros i j Hi Hj Mi Mj.
    destruct (Nat.lt_trichotomy i j) as [H|[H|H]]; [|assumption|].
    + exfalso. exact (Hlt i j Hi Hj Mi Mj H).
    + exfalso. exact (Hlt j i Hj Hi Mj Mi H).
  - rewrite !Hfb by lia. intros [Hlo Hhi] Hedge.
    assert (Hfind : forall m, (m <= 50)%nat -> ~ e m < nth k freq 0 ->
              exists i, (i < m)%nat /\ e i < nth k freq 0 /\
                        ~ e (i + 1)%nat < nth k freq 0).
    { induction m as [|m IH]; intros Hm Hnot; [contradiction|].
      destruct (Rlt_dec (e m) (nth k freq 0)) as [H|H].
      - exists m. replace (m + 1)%nat with (S m) by lia. auto.
      - destruct (IH ltac:(lia) H) as (i & Hi & Hrest). exists i. split; [lia|assumption]. }
    destruct (Hfind 50%nat (le_n _) ltac:(lra)) as (i & Hi & H1 & H2).
    exists i. split; [assumption|]. apply Hiff; [assumption|].
    pose proof (Hedge (i + 1)%nat ltac:(lia)) as Hne. rewrite Hfb in Hne by lia. lra.
Qed.

(** The averaged frequencies that [compute_vpsd] returns are strictly
    increasing, whatever the order of the input frequencies. *)
Theorem freq_avg_increasing (freq vps phi : list R) (win_area : R) :
  freq <> [] -> length vps = length freq ->
  exists r, Star.compute_vpsd log10 pow10 freq vps phi win_area = Ok r /\
            StronglySorted Rlt (Star.freq_avg r).
Proof.
  intros Hne Hlen. eexists. split; [now apply compute_vpsd_ok|].
  cbn [Star.freq_avg].
  set (e := Spec.edge log10 pow10 (nth 0 freq 0) (last freq 0)).
  apply sorted_map_valid_bins. intros i j Vi Vj Hij.
  apply valid_bin_nonempty in Vi as [Hi Bi]. apply valid_bin_nonempty in Vj as [Hj Bj].
  apply (bin_nonempty_iff e freq vps i Hlen) in Bi as (k & _ & Hk).
  apply (bin_nonempty_iff e freq vps j Hlen) in Bj as (k' & _ & Hk').
  assert (Hstep : e i < e (i + 1)%nat) by lra.
  pose proof (edges_nondecreasing _ _ i (i + 1) j Hstep ltac:(lia)) as H.
  fold e in H. unfold Spec.midpoint. lra.
Qed.

End VpsdOrder.

(** The frequency 3 of the periodogram 1, 3, 100 is in the mask of a bin. *)
Lemma each_frequency_in_one_bin_witness :
  exists i, (i < 50)%nat /\
    nth 1 (Star.bin_mask [1; 3; 100]
             (nth i (Star.freq_bin Np.log10 (Np.power 10) 1 100) 0)
             (nth (i + 1) (Star.freq_bin Np.log10 (Np.power 10) 1 100) 0)) false = true.
Proof.
  refine (proj2 (each_frequency_in_one_bin Np.log10 (Np.power 10) power_10_monotone
                   [1; 3; 100] 1 _) _ _).
  - simpl. lia.
  - change (nth 0 [1; 3; 100] 0) with 1. change (last [1; 3; 100] 0) with 100.
    change (nth 1 [1; 3; 100] 0) with 3.
    rewrite !nth_freq_bin by lia. rewrite exact_edge_0, exact_edge_50. lra.
  - intros m Hm.
    change (nth 0 [1; 3; 100] 0) with 1. change (last [1; 3; 100] 0) with 100.
    change (nth 1 [1; 3; 100] 0) with 3.
    rewrite nth_freq_bin by assumption.
    pose proof exact_edge_11_12 as [H11 H12].
    destruct (Nat.le_gt_cases m 11) as [H|H].
    + pose proof (exact_edge_le m 11 H). lra.
    + pose proof (exact_edge_le 12 m H). lra.
Defined.

Lemma freq_avg_increasing_witness :
  exists r, Star.compute_vpsd Np.log10 (Np.power 10) [1; 3; 100] [3; 5; 7] [0; 0; 0] 2
            = Ok r /\
            StronglySorted Rlt (Star.freq_avg r).
Proof.
  refine (freq_avg_increasing Np.log10 (Np.power 10) power_10_monotone
            [1; 3; 100] [3; 5; 7] [0; 0; 0] 2 _ _).
  - discriminate.
  - reflexivity.
Defined.

Lemma average_bounds (b : list R) (lo hi : R) :
  b <> [] -> (forall p, In p b -> lo <= p <= hi) -> lo <= Spec.average b <= hi.
Proof.
  intros Hne H. unfold Spec.average.
  assert (Hn : 0 < INR (length b)).
  { apply lt_0_INR. destruct b; [congruence|simpl; lia]. }
  assert (Hs : lo * INR (length b) <= Spec.Rsum b <= hi * INR (length b)).
  { clear Hne Hn. induction b as [|x b IH]; [simpl; lra|].
    change (length (x :: b)) with (S (length b)). rewrite S_INR.
    change (Spec.Rsum (x :: b)) with (x + Spec.Rsum b).
    pose proof (H x (or_introl eq_refl)).
    pose proof (IH (fun p Hp => H p (or_intror Hp))). lra. }
  split; apply Rmult_le_reg_r with (INR (length b)); try assumption;
    replace (Spec.Rsum b / INR (length b) * INR (length b)) with (Spec.Rsum b)
      by (field; lra); lra.
Qed.

Lemma div_bounds (lo hi p a : R) :
  0 < a -> lo <= p <= hi -> lo / a <= p / a <= hi / a.
Proof.
  intros Ha [H1 H2]. unfold Rdiv.
  assert (0 < / a) by now apply Rinv_0_lt_compat.
  split; apply Rmult_le_compat_r; lra.
Qed.

Lemma bin_subset (e : nat -> R) (freq vps : list R) (i : nat) (p : R) :
  In p (Spec.bin e freq vps i) -> In p vps.
Proof.
  unfold Spec.bin. intros H. apply in_map_iff in H as ([f q] & <- & Hin).
  apply filter_In in Hin as [Hin _]. now apply in_combine_r in Hin.
Qed.

Section VpsdBounds.

Variable log10 : R -> R.
Variable pow10 : R -> R.

(** No [nan] is left in the averaged arrays, the three averaged arrays have
    the same length, and when every power lies between [lo] and [hi] (for
    instance [0 <= p]) and the window area is positive, so does every
    averaged power, and every density lies between [lo / area] and
    [hi / area]. *)
Theorem averaged_power_within_bounds (freq vps phi : list R) (win_area lo hi : R) :
  freq <> [] -> length vps = length freq -> 0 < win_area ->
  (forall p, In p vps -> lo <= p <= hi) ->
  exists r, Star.compute_vpsd log10 pow10 freq vps phi win_area = Ok r /\
    length (Star.vps_avg r) = length (Star.freq_avg r) /\
    length (Star.vpsd_avg r) = length (Star.freq_avg r) /\
    (forall x, In x (Star.vps_avg r) -> exists m, x = Some m /\ lo <= m <= hi) /\
    (forall x, In x (Star.vpsd_avg r) ->
       exists m, x = Some m /\ lo / win_area <= m <= hi / win_area) /\
    (forall p, In p (Star.vpsd r) -> lo / win_area <= p <= hi / win_area).
Proof.
  intros Hne Hlen Ha Hb. eexists. split; [now apply compute_vpsd_ok|].
  cbn [Star.freq_avg Star.vps_avg Star.vpsd_avg Star.vpsd].
  set (e := Spec.edge log10 pow10 (nth 0 freq 0) (last freq 0)).
  rewrite !length_map.
  assert (Hmean : forall i, In i (Spec.valid_bins e freq vps) ->
            lo <= Spec.average (Spec.bin e freq vps i) <= hi).
  { intros i Hi. apply valid_bin_nonempty in Hi as [_ Hi].
    apply average_bounds; [assumption|]. intros p Hp. apply Hb.
    now apply bin_subset in Hp. }
  split; [reflexivity|]. split; [reflexivity|]. split; [|split].
  - intros x Hx. apply in_map_iff in Hx as (i & <- & Hi). eauto.
  - intros x Hx. apply in_map_iff in Hx as (i & <- & Hi).
    eexists. split; [reflexivity|]. apply div_bounds; auto.
  - intros p Hp. apply in_map_iff in Hp as (q & <- & Hq). apply div_bounds; auto.
Qed.

End VpsdBounds.

Lemma averaged_power_within_bounds_witness :
  exists r, Star.compute_vpsd Np.log10 (Np.power 10) [1; 3; 100] [3; 5; 7] [0; 0; 0] 2
            = Ok r /\
    length (Star.vps_avg r) = length (Star.freq_avg r) /\
    length (Star.vpsd_avg r) = length (Star.freq_avg r) /\
    (forall x, In x (Star.vps_avg r) -> exists m, x = Some m /\ 0 <= m <= 7) /\
    (forall x, In x (Star.vpsd_avg r) -> exists m, x = Some m /\ 0 / 2 <= m <= 7 / 2) /\
    (forall p, In p (Star.vpsd r) -> 0 / 2 <= p <= 7 / 2).
Proof.
  refine (averaged_power_within_bounds Np.log10 (Np.power 10)
            [1; 3; 100] [3; 5; 7] [0; 0; 0] 2 0 7 _ _ _ _).
  - discriminate.
  - reflexivity.
  - lra.
  - intros p [<-|[<-|[<-|[]]]]; lra.
Defined.

(** In exact arithmetic the 51 edges of [compute_vpsd] form a geometric
    progression from the first to the last frequency: edge [i] is
    [f0 * (fN / f0) ** (i / 50)], so that consecutive edges have the
    constant ratio [(fN / f0) ** (1 / 50)] and the outermost edges are [f0]
    and [fN]. *)
Theorem exact_edges_are_geometric (f0 fN : R) (i : nat) :
  0 < f0 -> 0 < fN -> (i <= 50)%nat ->
  nth i (Star.freq_bin Np.log10 (Np.power 10) f0 fN) 0 =
    f0 * Rpower (fN / f0) (INR i / 50) /\
  nth 0 (Star.freq_bin Np.log10 (Np.power 10) f0 fN) 0 = f0 /\
  nth 50 (Star.freq_bin Np.log10 (Np.power 10) f0 fN) 0 = fN /\
  ((i < 50)%nat ->
   nth (i + 1) (Star.freq_bin Np.log10 (Np.power 10) f0 fN) 0 =
   nth i (Star.freq_bin Np.log10 (Np.power 10) f0 fN) 0 * Rpower (fN / f0) (1 / 50)).
Proof.
  intros H0 HN Hi. pose proof ln_10_pos as Hln.
  assert (Hq : 0 < fN / f0) by (apply Rdiv_lt_0_compat; assumption).
  assert (Hform : forall j, (j <= 50)%nat ->
            nth j (Star.freq_bin Np.log10 (Np.power 10) f0 fN) 0 =
            f0 * Rpower (fN / f0) (INR j / 50)).
  { intros j Hj. rewrite nth_freq_bin by assumption. unfold Spec.edge.
    rewrite power_10, Rpower_plus, (Rpower_10_log10 f0 H0). f_equal.
    unfold Rpower, Np.log10. f_equal.
    assert (Hd : ln (fN / f0) = ln fN - ln f0).
    { unfold Rdiv. rewrite ln_mult, ln_Rinv; try assumption; [lra|].
      now apply Rinv_0_lt_compat. }
    rewrite Hd. field. lra. }
  split; [now apply Hform|]. split; [|split].
  - rewrite Hform by lia. replace (INR 0 / 50) with 0 by (simpl; lra).
    rewrite Rpower_O by assumption. ring.
  - rewrite Hform by lia. replace (INR 50 / 50) with 1 by (simpl; lra).
    rewrite Rpower_1 by assumption. field. lra.
  - intros Hlt. rewrite !Hform by lia. rewrite Rmult_assoc, <- Rpower_plus.
    do 2 f_equal. rewrite Nat.add_1_r, S_INR. field.
Qed.

Lemma exact_edges_are_geometric_witness :
  nth 50 (Star.freq_bin Np.log10 (Np.power 10) 8 20) 0 = 20.
Proof.
  refine (proj1 (proj2 (proj2 (exact_edges_are_geometric 8 20 50 _ _ _)))); lra || lia.
Defined.

(* ------------------------------------------------------------------ *)
(** ** The loop over the components: what the three [if]s let through *)

Lemma component_loop_app (freq : list R) (l1 l2 : list (string * Star.comp_dict)) :
  forall st,
    Star.component_loop freq st (l1 ++ l2) =
    (st' <- Star.component_loop freq st l1 ;; Star.component_loop freq st' l2).
Proof.
  induction l1 as [|[name c] l1 IH]; intros st; [reflexivity|].
  cbn [app Star.component_loop].
  destruct (Star.component_step freq st c) as [st'|e]; [|reflexivity].
  cbn [Py.bind]. apply IH.
Qed.

(** After the step of a well-formed component, [vpsd_comp] holds the value
    of that component. *)
Lemma component_step_value (freq : list R) (g : R -> R) (cur : option Star.value)
    (c : Spec.component) :
  exists v,
    Star.component_step freq (map g freq, cur) (Spec.entry c) =
      Ok (map (fun f => g f + Spec.density c f) freq, Some v) /\
    forall h, Star.iadd (map h freq) v = map (fun f => h f + Spec.density c f) freq.
Proof.
  destruct c as [c0|c0 c1 c2|c0 c1 c2]; eexists; split;
    try (unfold Star.component_step; cbn; rewrite ?map_map, ?map2_map; reflexivity);
    intros h; cbn; rewrite ?map_map, ?map2_map; reflexivity.
Qed.

Lemma component_loop_value (freq : list R) (cs : list (string * Spec.component)) :
  forall (g : R -> R) (cur : option Star.value) (name : string) (c : Spec.component),
  exists v,
    Star.component_loop freq (map g freq, cur) (Spec.entries (cs ++ [(name, c)])) =
      Ok (map (fun f => g f + Spec.composite (map snd (cs ++ [(name, c)])) f) freq,
          Some v) /\
    forall h, Star.iadd (map h freq) v = map (fun f => h f + Spec.density c f) freq.
Proof.
  induction cs as [|[n0 c0] cs IH]; intros g cur name c.
  - destruct (component_step_value freq g cur c) as (v & Hstep & Hv).
    exists v. split; [|exact Hv].
    unfold Spec.entries. cbn [app map Star.component_loop fst snd].
    rewrite Hstep. cbn [Py.bind Star.component_loop]. do 2 f_equal.
    apply map_ext. intros f. unfold Spec.composite. simpl. lra.
  - destruct (component_step_value freq g cur c0) as (v0 & Hstep & _).
    destruct (IH (fun f => g f + Spec.density c0 f) (Some v0) name c) as (v & Hloop & Hv).
    exists v. split; [|exact Hv].
    unfold Spec.entries in *. cbn [app map Star.component_loop fst snd].
    rewrite Hstep. cbn [Py.bind]. rewrite Hloop. do 2 f_equal.
    apply map_ext. intros f. unfold Spec.composite. simpl. lra.
Qed.

(** A component whose type is none of the three the loop knows makes no
    assignment to [vpsd_comp]: as the first component it leaves the variable
    unbound and the sum raises [NameError]; after another component it adds
    the value of that component a second time. *)
Theorem unknown_type_keeps_previous
    (freq : list R) (cs : list (string * Spec.component)) (name : string)
    (c : Spec.component) (uname : string) (d : Star.comp_dict)
    (rest : list (string * Star.comp_dict)) :
  Star.type d <> "Constant"%string -> Star.type d <> "Lorentz"%string ->
  Star.type d <> "Harvey"%string ->
  Star.vpsd_tot freq ((uname, d) :: rest) = Raise NameError /\
  Star.vpsd_tot freq (Spec.entries (cs ++ [(name, c)]) ++ [(uname, d)]) =
    Ok (map (fun f => Spec.composite (map snd (cs ++ [(name, c)])) f + Spec.density c f)
            freq).
Proof.
  intros H1 H2 H3. apply String.eqb_neq in H1, H2, H3.
  assert (Hstep : forall tot cur,
            Star.component_step freq (tot, cur) d =
            match cur with
            | None => Raise NameError
            | Some v => Ok (Star.iadd tot v, cur)
            end).
  { intros tot cur. unfold Star.component_step, Star.if_constant, Star.if_lorentz,
      Star.if_harvey. rewrite H1, H2, H3. reflexivity. }
  split.
  - unfold Star.vpsd_tot. cbn [Star.component_loop]. rewrite Hstep. reflexivity.
  - unfold Star.vpsd_tot. rewrite component_loop_app.
    destruct (component_loop_value freq cs (fun _ => 0) None name c) as (v & Hloop & Hv).
    rewrite Hloop. cbn [Py.bind Star.component_loop].
    rewrite Hstep. cbn [Py.bind fst]. rewrite Hv. f_equal.
    apply map_ext. intros f. lra.
Qed.

Lemma unknown_type_keeps_previous_witness :
  Star.vpsd_tot [0]
    (Spec.entries ([] ++ [("white"%string, Spec.Constant 2)]) ++
     [("bump"%string, {| Star.type := "Gauss"; Star.coef_val := [1] |})]) =
  Ok (map (fun f => Spec.composite (map snd ([] ++ [("white"%string, Spec.Constant 2)])) f
                    + Spec.density (Spec.Constant 2) f) [0]).
Proof.
  refine (proj2 (unknown_type_keeps_previous [0] [] "white" (Spec.Constant 2) "bump"
                   {| Star.type := "Gauss"; Star.coef_val := [1] |} [] _ _ _));
    discriminate.
Defined.

Lemma at_nat_short (a : list R) (k : nat) :
  (length a <= k)%nat -> Np.at_nat a k = Raise IndexError.
Proof.
  intros H. unfold Np.at_nat. apply nth_error_None in H. now rewrite H.
Qed.

Lemma three_reads_short (a : list R) (k : R -> R -> R -> result (option Star.value)) :
  (length a < 3)%nat ->
  (c0 <- Np.at_nat a 0 ;; c1 <- Np.at_nat a 1 ;; c2 <- Np.at_nat a 2 ;; k c0 c1 c2) =
  Raise IndexError.
Proof.
  intros H. destruct a as [|x [|y [|z t]]]; simpl in H; try lia; reflexivity.
Qed.

(** A component dictionary with too few coefficients, none for [Constant]
    or fewer than three for [Lorentz] and [Harvey], stops the loop with
    [IndexError], whatever follows it. *)
Theorem short_coefficients_raise
    (freq : list R) (cs : list (string * Spec.component)) (name : string)
    (d : Star.comp_dict) (rest : list (string * Star.comp_dict)) :
  (Star.type d = "Constant"%string /\ Star.coef_val d = []) \/
  ((Star.type d = "Lorentz"%string \/ Star.type d = "Harvey"%string) /\
   (length (Star.coef_val d) < 3)%nat) ->
  Star.vpsd_tot freq (Spec.entries cs ++ (name, d) :: rest) = Raise IndexError.
Proof.
  intros H. unfold Star.vpsd_tot. rewrite component_loop_app.
  destruct (component_loop_entries freq cs (fun _ => 0) None) as [cur ->].
  cbn [Py.bind Star.component_loop].
  assert (Hstep : forall tot,
            Star.component_step freq (tot, cur) d = Raise IndexError).
  { intros tot. unfold Star.component_step, Star.if_constant, Star.if_lorentz,
      Star.if_harvey.
    destruct H as [[Ht Hc]|[[Ht|Ht] Hc]]; rewrite Ht.
    - cbn [String.eqb Ascii.eqb Bool.eqb]. rewrite Hc. reflexivity.
    - cbn [String.eqb Ascii.eqb Bool.eqb Py.bind].
      now rewrite three_reads_short.
    - cbn [String.eqb Ascii.eqb Bool.eqb Py.bind].
      now rewrite three_reads_short. }
  rewrite Hstep. reflexivity.
Qed.

Lemma short_coefficients_raise_witness :
  Star.vpsd_tot [0]
    (Spec.entries [("white"%string, Spec.Constant 2)] ++
     [("peak"%string, {| Star.type := "Lorentz"; Star.coef_val := [1; 1] |})]) =
  Raise IndexError.
Proof.
  refine (short_coefficients_raise [0] [("white"%string, Spec.Constant 2)] "peak"
            {| Star.type := "Lorentz"; Star.coef_val := [1; 1] |} [] _).
  right. split; [now left|simpl; lia].
Defined.
